(** * Trading bot: signal engine and position lifecycle

    A shallow embedding of [trading_bot_simulation.py] and [trading_bot.py]:
    the indicator engine ([calculate_indicators]), the three signal
    evaluators, and the position lifecycle of both bot classes
    ([open_position], [close_position], [check_position_exits],
    [run_strategy], the main loop of [run] and the figures of
    [print_summary]).

    Numbers.  The Python code computes on binary64 values (numpy.float64).
    They are modelled by [fnum]: an exact rational, or one of the three
    IEEE-754 special values.  Finite arithmetic is exact (rounding is
    abstracted away, and so is the sign of zero: a zero divisor counts as
    +0); division by zero, arithmetic on infinities and comparisons with
    NaN follow IEEE-754, which is what numpy and pandas do: they never
    raise on a zero divisor.

    Frames.  A DataFrame is the list of its rows; a column is the list of
    one field.  A rolling aggregate is recomputed on each window, with
    NaN on the rows before the window is full and for a window holding a
    NaN or an infinity.

    Effects.  The bot object is a [BotState] passed in and out.  A
    [try ... except] that returns False gives the pair (state, false); an
    exception that would leave the method gives [None].  [datetime.now()]
    is the argument [now]; the exchange answers through the arguments
    [ohlcv] (candles, or [None] when the request raised) and [Exchange]
    (whether an order is accepted).  Logging is left out. *)

From Stdlib Require Import QArith Qabs Lqa.
From stdpp Require Import gmap strings list.

Open Scope Q_scope.

(** ** Numbers *)

Inductive fnum : Type :=
| Fin (q : Q)
| PInf
| NInf
| NaN.

Definition Qsgn (q : Q) : Z := Z.sgn (Qnum q).

Definition fneg (a : fnum) : fnum :=
  match a with
  | Fin x => Fin (- x)
  | PInf => NInf
  | NInf => PInf
  | NaN => NaN
  end.

Definition fadd (a b : fnum) : fnum :=
  match a, b with
  | NaN, _ | _, NaN => NaN
  | Fin x, Fin y => Fin (x + y)
  | PInf, NInf | NInf, PInf => NaN
  | PInf, _ | _, PInf => PInf
  | NInf, _ | _, NInf => NInf
  end.

Definition fsub (a b : fnum) : fnum :=
  match a, b with
  | Fin x, Fin y => Fin (x - y)
  | _, _ => fadd a (fneg b)
  end.

(** [signed_inf s]: the infinity whose sign is [s]; NaN when [s] is zero
    (0 * inf and 0 / 0). *)
Definition signed_inf (s : Z) : fnum :=
  match s with
  | Z0 => NaN
  | Zpos _ => PInf
  | Zneg _ => NInf
  end.

Definition fsgn (a : fnum) : Z :=
  match a with
  | Fin x => Qsgn x
  | PInf => 1%Z
  | NInf => (-1)%Z
  | NaN => 0%Z
  end.

Definition fmul (a b : fnum) : fnum :=
  match a, b with
  | NaN, _ | _, NaN => NaN
  | Fin x, Fin y => Fin (x * y)
  | _, _ => signed_inf (fsgn a * fsgn b)
  end.

Definition fdiv (a b : fnum) : fnum :=
  match a, b with
  | NaN, _ | _, NaN => NaN
  | Fin x, Fin y =>
      if Qeq_bool y 0 then signed_inf (Qsgn x) else Fin (x / y)
  | Fin _, _ => Fin 0
  | _, Fin y => signed_inf (fsgn a * (if Qeq_bool y 0 then 1 else Qsgn y))
  | _, _ => NaN
  end.

Definition fabs (a : fnum) : fnum :=
  match a with
  | Fin x => Fin (Qabs x)
  | PInf | NInf => PInf
  | NaN => NaN
  end.

(** Comparisons: every comparison with NaN is false. *)
Definition fle (a b : fnum) : bool :=
  match a, b with
  | NaN, _ | _, NaN => false
  | Fin x, Fin y => Qle_bool x y
  | NInf, _ | _, PInf => true
  | _, _ => false
  end.

Definition flt (a b : fnum) : bool :=
  match a, b with
  | NaN, _ | _, NaN => false
  | Fin x, Fin y => negb (Qle_bool y x)
  | PInf, _ | _, NInf => false
  | _, _ => true
  end.

Definition fgt (a b : fnum) : bool := flt b a.
Definition fge (a b : fnum) : bool := fle b a.

Definition is_nan (a : fnum) : bool :=
  match a with NaN => true | _ => false end.

Declare Scope fnum_scope.
Delimit Scope fnum_scope with F.
Bind Scope fnum_scope with fnum.
Infix "+" := fadd : fnum_scope.
Infix "-" := fsub : fnum_scope.
Infix "*" := fmul : fnum_scope.
Infix "/" := fdiv : fnum_scope.
Notation "- x" := (fneg x) : fnum_scope.
Infix "<?" := flt : fnum_scope.
Infix "<=?" := fle : fnum_scope.
Infix ">?" := fgt : fnum_scope.
Infix ">=?" := fge : fnum_scope.

Coercion Fin : Q >-> fnum.

(** Numeric equality of two values: equal rationals, or the same special
    value. *)
Definition feqv (a b : fnum) : Prop :=
  match a, b with
  | Fin x, Fin y => x == y
  | PInf, PInf | NInf, NInf | NaN, NaN => True
  | _, _ => False
  end.

(** [in_range lo hi a]: [a] is finite and [lo <= a <= hi]. *)
Definition in_range (lo hi : Q) (a : fnum) : Prop :=
  match a with
  | Fin x => lo <= x /\ x <= hi
  | _ => False
  end.

(** ** Series (one DataFrame column) *)

Abbreviation Series := (list fnum).

(** [s.iloc[i]] for a Python index: negative indices count from the end;
    [None] stands for the IndexError. *)
Definition iloc {A} (s : list A) (i : Z) : option A :=
  let n := Z.of_nat (length s) in
  let j := if (i <? 0)%Z then (i + n)%Z else i in
  if ((0 <=? j)%Z && (j <? n)%Z)%bool then s !! Z.to_nat j else None.

(** [s.iloc[a:b]] for a Python slice (bounds clipped, never raises). *)
Definition slice_bound (n i : Z) : Z :=
  let j := if (i <? 0)%Z then (i + n)%Z else i in
  Z.max 0 (Z.min n j).

Definition iloc_slice {A} (s : list A) (a b : Z) : list A :=
  let n := Z.of_nat (length s) in
  let lo := slice_bound n a in
  let hi := slice_bound n b in
  take (Z.to_nat (hi - lo)) (drop (Z.to_nat lo) s).

(** [s.diff()]: NaN in the first row, then the difference with the
    previous row. *)
Fixpoint diff_from (prev : fnum) (s : Series) : Series :=
  match s with
  | [] => []
  | x :: s' => (x - prev)%F :: diff_from x s'
  end.

Definition diff (s : Series) : Series :=
  match s with
  | [] => []
  | x :: s' => NaN :: diff_from x s'
  end.

(** [s.where(cond, other)] with a scalar [other]. *)
Definition where_ (s : Series) (cond : fnum -> bool) (other : fnum) : Series :=
  map (fun x => if cond x then x else other) s.

(** [s.ewm(span=span, adjust=False).mean()]: seeded by the first value,
    then [e_t = (1 - alpha) * e_(t-1) + alpha * x_t], alpha = 2/(span+1). *)
Definition ewm_alpha (span : Z) : Q := 2 / (inject_Z span + 1).

Fixpoint ewm_from (alpha : Q) (prev : fnum) (s : Series) : Series :=
  match s with
  | [] => []
  | x :: s' =>
      let e := (Fin (1 - alpha) * prev + Fin alpha * x)%F in
      e :: ewm_from alpha e s'
  end.

Definition ewm_mean (span : Z) (s : Series) : Series :=
  match s with
  | [] => []
  | x :: s' => x :: ewm_from (ewm_alpha span) x s'
  end.

(** Aggregations over one window.  A rolling window turns an infinite
    value into NaN before it aggregates, and treats NaN as a missing
    observation; with the default [min_periods = window] a window holding
    a NaN or an infinity yields NaN. *)
Definition is_missing (a : fnum) : bool :=
  match a with Fin _ => false | _ => true end.

Definition fsum (w : list fnum) : fnum := foldl fadd (Fin 0) w.

Definition fmin2 (a b : fnum) : fnum := if (b <? a)%F then b else a.
Definition fmax2 (a b : fnum) : fnum := if (a <? b)%F then b else a.

Definition window_mean (w : list fnum) : fnum :=
  if existsb is_missing w then NaN
  else (fsum w / Fin (inject_Z (Z.of_nat (length w))))%F.

Definition window_min (w : list fnum) : fnum :=
  if existsb is_missing w then NaN
  else match w with
       | [] => NaN
       | x :: w' => foldl fmin2 x w'
       end.

Definition window_max (w : list fnum) : fnum :=
  if existsb is_missing w then NaN
  else match w with
       | [] => NaN
       | x :: w' => foldl fmax2 x w'
       end.

(** [s.rolling(window=w).agg()]: NaN on the first [w-1] rows, then the
    aggregate of the last [w] values. *)
Definition window_at (w : nat) (s : Series) (t : nat) : list fnum :=
  take w (drop (S t - w) s).

Definition rolling (w : nat) (agg : list fnum -> fnum) (s : Series) : Series :=
  map (fun t => if (S t <? w)%nat then NaN else agg (window_at w s t))
      (seq 0 (length s)).

(** [s.max()]: NaN values are skipped; NaN for an empty selection. *)
Definition series_max (s : Series) : fnum :=
  match filter (fun x => is_nan x = false) s with
  | [] => NaN
  | x :: w' => foldl fmax2 x w'
  end.

(** Element-wise arithmetic on aligned columns. *)
Definition sadd (a b : Series) : Series := zip_with fadd a b.
Definition ssub (a b : Series) : Series := zip_with fsub a b.
Definition sdiv (a b : Series) : Series := zip_with fdiv a b.
Definition sscale (c : fnum) (a : Series) : Series := map (fmul c) a.
Definition sneg (a : Series) : Series := map fneg a.
Definition sabs (a : Series) : Series := map fabs a.

(** ** Candles and the enriched DataFrame *)

(** One row of the exchange's OHLCV answer. *)
Record Candle : Type := mkCandle {
  k_timestamp : Z;
  k_open : Q;
  k_high : Q;
  k_low : Q;
  k_close : Q;
  k_volume : Q
}.

(** One row of the DataFrame returned by [calculate_indicators]. *)
Record Row : Type := mkRow {
  timestamp : Z;
  open : fnum;
  high : fnum;
  low : fnum;
  close : fnum;
  volume : fnum;
  ema20 : fnum;
  ema50 : fnum;
  ema200 : fnum;
  rsi : fnum;
  stoch_k : fnum;
  stoch_d : fnum;
  tr : fnum;
  atr : fnum;
  plus_dm : fnum;
  minus_dm : fnum;
  plus_di : fnum;
  minus_di : fnum;
  dx : fnum;
  adx : fnum;
  vol_ma : fnum;
  vol_ratio : fnum
}.

Abbreviation DataFrame := (list Row).

(** [df[name]] for a column of the raw frame. *)
Definition column (f : Candle -> Q) (df : list Candle) : Series :=
  map (fun k => Fin (f k)) df.

(** Value of a column at row [t] (all columns have the frame's length). *)
Definition at_row (s : Series) (t : nat) : fnum := default NaN (s !! t).

(** ** Technical indicators *)

Definition rsi_gain (close_ : Series) : Series :=
  let delta := diff close_ in
  rolling 14 window_mean (where_ delta (fun d => d >? Fin 0)%F (Fin 0)).

Definition rsi_loss (close_ : Series) : Series :=
  let delta := diff close_ in
  rolling 14 window_mean (sneg (where_ delta (fun d => d <? Fin 0)%F (Fin 0))).

Definition rsi_of (rs : fnum) : fnum :=
  (Fin 100 - (Fin 100 / (Fin 1 + rs)))%F.

Definition calculate_indicators (df : list Candle) : DataFrame :=
  let close_ := column k_close df in
  let high_ := column k_high df in
  let low_ := column k_low df in
  let volume_ := column k_volume df in
  (* EMAs *)
  let ema20_ := ewm_mean 20 close_ in
  let ema50_ := ewm_mean 50 close_ in
  let ema200_ := ewm_mean 200 close_ in
  (* RSI *)
  let gain := rsi_gain close_ in
  let loss := rsi_loss close_ in
  let rs := sdiv gain loss in
  let rsi_ := map rsi_of rs in
  (* Stochastic *)
  let low_min := rolling 14 window_min low_ in
  let high_max := rolling 14 window_max high_ in
  let stoch_k_ :=
    sscale (Fin 100) (sdiv (ssub close_ low_min) (ssub high_max low_min)) in
  let stoch_d_ := rolling 3 window_mean stoch_k_ in
  (* ADX *)
  let tr_ := ssub high_ low_ in
  let atr_ := rolling 14 window_mean tr_ in
  let plus_dm_ := where_ (diff high_) (fun d => d >? Fin 0)%F (Fin 0) in
  let minus_dm_ :=
    sneg (where_ (diff low_) (fun d => (- d) >? Fin 0)%F (Fin 0)) in
  let plus_di_ :=
    sscale (Fin 100) (sdiv (rolling 14 window_mean plus_dm_) atr_) in
  let minus_di_ :=
    sscale (Fin 100) (sdiv (rolling 14 window_mean minus_dm_) atr_) in
  let dx_ :=
    sdiv (sscale (Fin 100) (sabs (ssub plus_di_ minus_di_)))
         (sadd plus_di_ minus_di_) in
  let adx_ := rolling 14 window_mean dx_ in
  (* Volume *)
  let vol_ma_ := rolling 20 window_mean volume_ in
  let vol_ratio_ := sdiv volume_ vol_ma_ in
  imap (fun t k =>
    {| timestamp := k_timestamp k;
       open := Fin (k_open k);
       high := Fin (k_high k);
       low := Fin (k_low k);
       close := Fin (k_close k);
       volume := Fin (k_volume k);
       ema20 := at_row ema20_ t;
       ema50 := at_row ema50_ t;
       ema200 := at_row ema200_ t;
       rsi := at_row rsi_ t;
       stoch_k := at_row stoch_k_ t;
       stoch_d := at_row stoch_d_ t;
       tr := at_row tr_ t;
       atr := at_row atr_ t;
       plus_dm := at_row plus_dm_ t;
       minus_dm := at_row minus_dm_ t;
       plus_di := at_row plus_di_ t;
       minus_di := at_row minus_di_ t;
       dx := at_row dx_ t;
       adx := at_row adx_ t;
       vol_ma := at_row vol_ma_ t;
       vol_ratio := at_row vol_ratio_ t |}) df.

(** ** Strategy functions

    Each returns [(entry, exit_signal)]; [None] stands for an IndexError
    of a row access.  Python's [and] is short-circuiting, so a row is only
    read when the conjuncts before it hold. *)

Definition Signal := option (bool * bool).

Definition ada_rsi_signal (df : DataFrame) : Signal :=
  if (length df <? 50)%nat then Some (false, false) else
  latest ← iloc df (-1);
  prev ← iloc df (-2);
  entry ←
    (if (rsi latest <? Fin 35)%F
          && (rsi latest >? rsi prev)%F
          && (vol_ratio latest >? Fin 0.8)%F
     then row10 ← iloc df (-10); Some (ema20 latest >? ema50 row10)%F
     else Some false);
  let exit_signal := (rsi latest >? Fin 60)%F in
  Some (entry, exit_signal).

Definition sol_stoch_signal (df : DataFrame) : Signal :=
  if (length df <? 50)%nat then Some (false, false) else
  latest ← iloc df (-1);
  prev ← iloc df (-2);
  let entry :=
    (stoch_k latest <? Fin 30)%F
    && (stoch_k latest >? stoch_d latest)%F
    && (stoch_k prev <=? stoch_d prev)%F
    && (ema20 latest >? ema50 latest)%F in
  let exit_signal := (stoch_k latest >? Fin 80)%F in
  Some (entry, exit_signal).

Definition xrp_adx_signal (df : DataFrame) : Signal :=
  if (length df <? 50)%nat then Some (false, false) else
  latest ← iloc df (-1);
  prev_3 ← iloc df (-4);
  let high_20 := series_max (iloc_slice (map high df) (-21) (-1)) in
  let entry :=
    (adx latest >? Fin 25)%F
    && (adx latest >? adx prev_3)%F
    && (close latest >? high_20)%F in
  let exit_signal := (adx latest <? Fin 20)%F in
  Some (entry, exit_signal).

(** [STRATEGY_FUNCTIONS[name]]; [None] stands for the KeyError. *)
Definition STRATEGY_FUNCTIONS (name : string) : option (DataFrame -> Signal) :=
  if decide (name = "ADA_RSI") then Some ada_rsi_signal
  else if decide (name = "SOL_STOCH") then Some sol_stoch_signal
  else if decide (name = "XRP_ADX") then Some xrp_adx_signal
  else None.

(** ** Configuration, positions, trades and the bot state *)

Module StrategyConfig.
Record t : Type := mk {
  enabled : bool;
  symbol : string;
  leverage : Q;
  position_size : Q;
  stop_loss : Q;
  take_profit : Q;
  trailing_stop : Q
}.
End StrategyConfig.

(** The three entries of [CONFIG['strategies']] (the same in both files):
    enabled, symbol, leverage, position_size, stop_loss, take_profit,
    trailing_stop. *)
Definition ADA_RSI_config : StrategyConfig.t :=
  StrategyConfig.mk true "ADA/USDT" 2.0 0.25 0.08 0.15 0.10.

Definition SOL_STOCH_config : StrategyConfig.t :=
  StrategyConfig.mk true "SOL/USDT" 2.0 0.25 0.08 0.12 0.10.

Definition XRP_ADX_config : StrategyConfig.t :=
  StrategyConfig.mk true "XRP/USDT" 2.5 0.30 0.10 0.20 0.12.

(** [CONFIG['strategies']], in the order of the dict literal. *)
Definition CONFIG_strategies : list (string * StrategyConfig.t) :=
  [ ("ADA_RSI", ADA_RSI_config);
    ("SOL_STOCH", SOL_STOCH_config);
    ("XRP_ADX", XRP_ADX_config) ].

Definition CONFIG_initial_capital : Q := 10000.

(** [CONFIG['strategies'][name]]; [None] stands for the KeyError. *)
Fixpoint assoc_lookup {A} (name : string) (l : list (string * A)) : option A :=
  match l with
  | [] => None
  | (k, v) :: l' => if decide (k = name) then Some v else assoc_lookup name l'
  end.

Module Position.
Record t : Type := mk {
  symbol : string;
  entry_price : fnum;
  amount : fnum;
  leverage : fnum;
  stop_loss : fnum;
  take_profit : fnum;
  highest_price : fnum;
  entry_time : Z;
  entry_fee : option fnum   (* only written by the simulation bot *)
}.

Definition set_highest_price (p : t) (h : fnum) : t :=
  mk (symbol p) (entry_price p) (amount p) (leverage p) (stop_loss p)
     (take_profit p) h (entry_time p) (entry_fee p).
End Position.

Module Trade.
Record t : Type := mk {
  strategy : string;
  symbol : string;
  entry_price : fnum;
  exit_price : fnum;
  pnl_pct : fnum;
  pnl_usd : fnum;
  fees : option fnum;       (* only written by the simulation bot *)
  reason : string;
  entry_time : Z;
  exit_time : Z
}.
End Trade.

Record BotState : Type := mkBot {
  capital : fnum;
  initial_capital : fnum;
  positions : gmap string Position.t;
  trades : list Trade.t
}.

(** [__init__] (the same in both classes, up to the exchange handle). *)
Definition init : BotState :=
  mkBot (Fin CONFIG_initial_capital) (Fin CONFIG_initial_capital) ∅ [].

Definition set_positions (s : BotState) (ps : gmap string Position.t) : BotState :=
  mkBot (capital s) (initial_capital s) ps (trades s).

(** ** Exit checks (identical text in both classes) *)

(** Returns the state after the in-place update of [highest_price] and
    the pair [(should_exit, reason)]; [None] stands for the KeyError of
    [self.positions[strategy_name]]. *)
Definition check_position_exits (s : BotState) (strategy_name : string)
    (config : StrategyConfig.t) (current_price : fnum)
  : option (BotState * (bool * option string)) :=
  position ← positions s !! strategy_name;
  (* Update highest price for trailing stop *)
  let position :=
    if (current_price >? Position.highest_price position)%F
    then Position.set_highest_price position current_price
    else position in
  let s := set_positions s (<[strategy_name := position]> (positions s)) in
  (* Stop loss *)
  if (current_price <=? Position.stop_loss position)%F
  then Some (s, (true, Some "stop_loss"))
  (* Take profit *)
  else if (current_price >=? Position.take_profit position)%F
  then Some (s, (true, Some "take_profit"))
  else
    (* Trailing stop *)
    let trailing_stop_price :=
      (Position.highest_price position
       * (Fin 1 - Fin (StrategyConfig.trailing_stop config)))%F in
    if (current_price <=? trailing_stop_price)%F
    then Some (s, (true, Some "trailing_stop"))
    else Some (s, (false, None)).

(** [fetch_data]: the exchange answer ([None] when the request raised)
    turned into the enriched frame. *)
Definition fetch_data (ohlcv : option (list Candle)) : option DataFrame :=
  calculate_indicators <$> ohlcv.

(** ** The simulation bot ([trading_bot_simulation.py]) *)

Module SimulationTradingBot.

Definition CONFIG_slippage : Q := 0.001.
Definition CONFIG_fees : Q := 0.001.

Definition simulate_entry_price (current_price : fnum) : fnum :=
  let slippage := (current_price * Fin CONFIG_slippage)%F in
  (current_price + slippage)%F.

Definition simulate_exit_price (current_price : fnum) : fnum :=
  let slippage := (current_price * Fin CONFIG_slippage)%F in
  (current_price - slippage)%F.

Definition open_position (s : BotState) (strategy_name : string)
    (config : StrategyConfig.t) (current_price : fnum) (now : Z)
  : BotState * bool :=
  let entry_price := simulate_entry_price current_price in
  let position_value :=
    (capital s * Fin (StrategyConfig.position_size config))%F in
  let amount :=
    (position_value * Fin (StrategyConfig.leverage config) / entry_price)%F in
  let fee := (position_value * Fin CONFIG_fees)%F in
  let position :=
    Position.mk (StrategyConfig.symbol config) entry_price amount
      (Fin (StrategyConfig.leverage config))
      (entry_price * (Fin 1 - Fin (StrategyConfig.stop_loss config)))%F
      (entry_price * (Fin 1 + Fin (StrategyConfig.take_profit config)))%F
      entry_price now (Some fee) in
  (set_positions s (<[strategy_name := position]> (positions s)), true).

(** Every lookup that can raise happens before the first assignment, so
    the [except] branch returns with the state as it was. *)
Definition close_position (s : BotState) (strategy_name : string)
    (current_price : fnum) (reason : string) (now : Z)
  : BotState * bool :=
  match positions s !! strategy_name with
  | None => (s, false)
  | Some position =>
    let symbol := Position.symbol position in
    let exit_price := simulate_exit_price current_price in
    match assoc_lookup strategy_name CONFIG_strategies with
    | None => (s, false)
    | Some config =>
      let position_value :=
        (capital s * Fin (StrategyConfig.position_size config))%F in
      let exit_fee := (position_value * Fin CONFIG_fees)%F in
      (* Calculate P&L *)
      let price_change :=
        ((exit_price - Position.entry_price position)
         / Position.entry_price position)%F in
      let pnl_pct :=
        (price_change * Position.leverage position * Fin 100)%F in
      let pnl_usd :=
        (position_value * (price_change * Position.leverage position))%F in
      (* Subtract fees *)
      match Position.entry_fee position with
      | None => (s, false)
      | Some entry_fee =>
        let total_fees := (entry_fee + exit_fee)%F in
        let pnl_usd := (pnl_usd - total_fees)%F in
        let trade :=
          Trade.mk strategy_name symbol (Position.entry_price position)
            exit_price pnl_pct pnl_usd (Some total_fees) reason
            (Position.entry_time position) now in
        (mkBot (capital s + pnl_usd)%F (initial_capital s)
               (delete strategy_name (positions s))
               (trades s ++ [trade]),
         true)
      end
    end
  end.

(** [None] stands for an exception that leaves [run_strategy] (a
    KeyError of [STRATEGY_FUNCTIONS] or an IndexError of a row access);
    the main loop does not catch it. *)
Definition run_strategy (s : BotState) (strategy_name : string)
    (config : StrategyConfig.t) (ohlcv : option (list Candle)) (now : Z)
  : option BotState :=
  if negb (StrategyConfig.enabled config) then Some s else
  match fetch_data ohlcv with
  | None => Some s
  | Some df =>
    if (length df <? 50)%nat then Some s else
    current_price ← iloc (map close df) (-1);
    strategy_func ← STRATEGY_FUNCTIONS strategy_name;
    match positions s !! strategy_name with
    | Some _ =>
      (* Check exit conditions *)
      '(s, (should_exit, reason)) ←
        check_position_exits s strategy_name config current_price;
      (* Check strategy exit signal *)
      '(_entry, exit_signal) ← strategy_func df;
      if should_exit || exit_signal
      then Some (fst (close_position s strategy_name current_price
                        (default "strategy_signal" reason) now))
      else Some s
    | None =>
      (* Check entry signal (if no position) *)
      '(entry_signal, _exit) ← strategy_func df;
      if (entry_signal : bool)
      then Some (fst (open_position s strategy_name config current_price now))
      else Some s
    end
  end.

End SimulationTradingBot.

(** ** The order-placing bot ([trading_bot.py]) *)

(** The exchange adapter: whether a market order for [amount] of [symbol]
    is accepted ([false]: the call raises). *)
Record Exchange : Type := mkExchange {
  create_market_buy_order : string -> fnum -> bool;
  create_market_sell_order : string -> fnum -> bool
}.

Module TradingBot.

Definition open_position (ex : Exchange) (s : BotState)
    (strategy_name : string) (config : StrategyConfig.t)
    (current_price : fnum) (now : Z) : BotState * bool :=
  let position_value :=
    (capital s * Fin (StrategyConfig.position_size config))%F in
  let amount :=
    (position_value * Fin (StrategyConfig.leverage config) / current_price)%F in
  (* Create order *)
  let symbol := StrategyConfig.symbol config in
  if negb (create_market_buy_order ex symbol amount) then (s, false) else
  let position :=
    Position.mk symbol current_price amount
      (Fin (StrategyConfig.leverage config))
      (current_price * (Fin 1 - Fin (StrategyConfig.stop_loss config)))%F
      (current_price * (Fin 1 + Fin (StrategyConfig.take_profit config)))%F
      current_price now None in
  (set_positions s (<[strategy_name := position]> (positions s)), true).

Definition close_position (ex : Exchange) (s : BotState)
    (strategy_name : string) (current_price : fnum) (reason : string)
    (now : Z) : BotState * bool :=
  match positions s !! strategy_name with
  | None => (s, false)
  | Some position =>
    let symbol := Position.symbol position in
    let amount := Position.amount position in
    (* Create sell order *)
    if negb (create_market_sell_order ex symbol amount) then (s, false) else
    (* Calculate P&L *)
    let pnl_pct :=
      ((current_price - Position.entry_price position)
       / Position.entry_price position
       * Position.leverage position * Fin 100)%F in
    match assoc_lookup strategy_name CONFIG_strategies with
    | None => (s, false)
    | Some config =>
      let position_value :=
        (capital s * Fin (StrategyConfig.position_size config))%F in
      let pnl_usd := (position_value * (pnl_pct / Fin 100))%F in
      let trade :=
        Trade.mk strategy_name symbol (Position.entry_price position)
          current_price pnl_pct pnl_usd None reason
          (Position.entry_time position) now in
      (mkBot (capital s + pnl_usd)%F (initial_capital s)
             (delete strategy_name (positions s))
             (trades s ++ [trade]),
       true)
    end
  end.

Definition run_strategy (ex : Exchange) (s : BotState)
    (strategy_name : string) (config : StrategyConfig.t)
    (ohlcv : option (list Candle)) (now : Z) : option BotState :=
  if negb (StrategyConfig.enabled config) then Some s else
  match fetch_data ohlcv with
  | None => Some s
  | Some df =>
    if (length df <? 50)%nat then Some s else
    current_price ← iloc (map close df) (-1);
    strategy_func ← STRATEGY_FUNCTIONS strategy_name;
    match positions s !! strategy_name with
    | Some _ =>
      '(s, (should_exit, reason)) ←
        check_position_exits s strategy_name config current_price;
      '(_entry, exit_signal) ← strategy_func df;
      if should_exit || exit_signal
      then Some (fst (close_position ex s strategy_name current_price
                        (default "strategy_signal" reason) now))
      else Some s
    | None =>
      '(entry_signal, _exit) ← strategy_func df;
      if (entry_signal : bool)
      then Some (fst (open_position ex s strategy_name config current_price now))
      else Some s
    end
  end.

End TradingBot.

(** * Specification-side definitions and sample data *)

(** ** Numeric predicates *)

Definition nonneg (a : fnum) : Prop :=
  match a with Fin q => 0 <= q | _ => False end.

Definition fin_or_nan (a : fnum) : Prop :=
  match a with Fin _ | NaN => True | _ => False end.

Definition is_fin (a : fnum) : Prop :=
  match a with Fin _ => True | _ => False end.

Definition nan_or_percent (a : fnum) : Prop :=
  a = NaN \/ in_range 0 100 a.

(** ** The columns of the frame, by name *)

(** The columns [calculate_indicators] builds, by name. *)
Definition rsi_column (close_ : Series) : Series :=
  map rsi_of (sdiv (rsi_gain close_) (rsi_loss close_)).

Definition low_min_column (low_ : Series) : Series :=
  rolling 14 window_min low_.

Definition high_max_column (high_ : Series) : Series :=
  rolling 14 window_max high_.

Definition stoch_k_column (close_ low_ high_ : Series) : Series :=
  sscale (Fin 100)
    (sdiv (ssub close_ (low_min_column low_))
          (ssub (high_max_column high_) (low_min_column low_))).

Definition stoch_d_column (close_ low_ high_ : Series) : Series :=
  rolling 3 window_mean (stoch_k_column close_ low_ high_).

(** %K from a close [c] and a 14-row range [m .. M]. *)
Definition stoch_k_value (c m M : Q) : fnum :=
  (Fin 100 * ((Fin c - Fin m) / (Fin M - Fin m)))%F.

(** A candle whose close lies between its low and its high. *)
Definition candle_ok (k : Candle) : Prop :=
  k_low k <= k_close k /\ k_close k <= k_high k.

(** ** The rules in the specification's words *)

(** Every evaluator returns a pair, and never [(true, true)]. *)
Definition exclusive (r : Signal) : Prop :=
  exists entry exit_signal,
    r = Some (entry, exit_signal) /\ entry && exit_signal = false.

(** The entry rule in the specification's words: RSI < 35, RSI rising
    against the previous row, volume ratio > 0.8, and the 20-EMA of the
    row [back] (the one from 10 rows back) above the 50-EMA of the latest
    row. *)
Definition spec_oversold_entry (latest prev back : Row) : bool :=
  (rsi latest <? Fin 35)%F && (rsi latest >? rsi prev)%F
  && (vol_ratio latest >? Fin 0.8)%F
  && (ema20 back >? ema50 latest)%F.

(** The exit decision in the specification's words: stop-loss first, then
    take-profit, then trailing-stop (on the updated [highest_price]), then
    the strategy's own exit signal. *)
Definition spec_exit_reason (stop_loss take_profit highest_price : fnum)
    (trailingPct : Q) (currentPrice : fnum) (strategy_exit : bool)
  : option string :=
  if (currentPrice <=? stop_loss)%F then Some "stop_loss"
  else if (currentPrice >=? take_profit)%F then Some "take_profit"
  else if (currentPrice <=? highest_price * (Fin 1 - Fin trailingPct))%F
       then Some "trailing_stop"
  else if strategy_exit then Some "strategy_signal"
  else None.

Definition position_exit_reason (pos : Position.t) (config : StrategyConfig.t)
    (price : fnum) (strategy_exit : bool) : option string :=
  spec_exit_reason (Position.stop_loss pos) (Position.take_profit pos)
    (fmax2 (Position.highest_price pos) price)
    (StrategyConfig.trailing_stop config) price strategy_exit.

(** The P&L in the specification's words. *)
Definition spec_price_change (entryFill exitFill : fnum) : fnum :=
  ((exitFill - entryFill) / entryFill)%F.

Definition spec_pnl_pct (leverage entryFill exitFill : fnum) : fnum :=
  (spec_price_change entryFill exitFill * leverage * Fin 100)%F.

Definition spec_pnl_usd (capitalAtOpen position_size leverage
    entryFill exitFill totalFees : fnum) : fnum :=
  let positionValue := (capitalAtOpen * position_size)%F in
  (positionValue * spec_price_change entryFill exitFill * leverage
   - totalFees)%F.

(** What the trade record of [name]'s close shows against the
    specification's P&L for a capital [capitalAtOpen]. *)
Definition pnl_usd_matches (capitalAtOpen : fnum) (config : StrategyConfig.t)
    (trade : Trade.t) : Prop :=
  feqv (Trade.pnl_usd trade)
       (spec_pnl_usd capitalAtOpen (Fin (StrategyConfig.position_size config))
          (Fin (StrategyConfig.leverage config))
          (Trade.entry_price trade) (Trade.exit_price trade)
          (default (Fin 0) (Trade.fees trade))).

Definition pnl_pct_matches (config : StrategyConfig.t) (trade : Trade.t) : Prop :=
  feqv (Trade.pnl_pct trade)
       (spec_pnl_pct (Fin (StrategyConfig.leverage config))
          (Trade.entry_price trade) (Trade.exit_price trade)).

(** ** What a call does to the bot state *)

(** The positions map after one operation, seen from strategy [k]. *)
Definition highest_kept (s s' : BotState) : Prop :=
  forall k pos pos',
    positions s !! k = Some pos -> positions s' !! k = Some pos' ->
    (exists p, pos' = Position.set_highest_price pos
                        (fmax2 (Position.highest_price pos) p)) \/ pos' = pos.

(** The outcome of a successful close: capital grows by the trade's
    [pnl_usd], the trade is appended, the position is removed. *)
Definition closed_by (s : BotState) (name reason : string) (trade : Trade.t)
    (s' : BotState) : Prop :=
  s' = mkBot (capital s + Trade.pnl_usd trade)%F (initial_capital s)
             (delete name (positions s)) (trades s ++ [trade]) /\
  Trade.strategy trade = name /\ Trade.reason trade = reason.

(** The outcome of a successful open: one entry of the positions map is
    written, nothing else; [Q] is what is known of the new position. *)
Definition opened_by (Q : Position.t -> Prop) (s : BotState) (name : string)
    (s' : BotState) : Prop :=
  exists position,
    Q position /\ s' = set_positions s (<[name := position]> (positions s)).

Definition has_entry_fee (position : Position.t) : Prop :=
  is_Some (Position.entry_fee position).

Definition any_position (position : Position.t) : Prop := True.

(** One [run_strategy] call is: nothing, or an open on a strategy without
    a position, or an exit check followed by at most one close. *)
Inductive tick_outcome (Q : Position.t -> Prop) (name : string)
    (s s' : BotState) : Prop :=
| tick_idle : s' = s -> tick_outcome Q name s s'
| tick_open :
    positions s !! name = None -> opened_by Q s name s' ->
    tick_outcome Q name s s'
| tick_hold config price r :
    check_position_exits s name config price = Some (s', r) ->
    tick_outcome Q name s s'
| tick_close config price r s1 reason trade :
    check_position_exits s name config price = Some (s1, r) ->
    closed_by s1 name reason trade s' ->
    tick_outcome Q name s s'.

(** What a call may do to the ledger: leave capital and trade log alone,
    or append one trade and add its [pnl_usd] to the capital. *)
Definition ledger_step (s s' : BotState) : Prop :=
  initial_capital s' = initial_capital s /\
  ((capital s' = capital s /\ trades s' = trades s) \/
   (exists trade,
      capital s' = (capital s + Trade.pnl_usd trade)%F /\
      trades s' = trades s ++ [trade])).

Definition ledger_ok (s : BotState) : Prop :=
  capital s = foldl fadd (initial_capital s) (map Trade.pnl_usd (trades s)).

(** Every way of driving the bots: the calls of the main loop and direct
    calls of the other methods, with any arguments. *)
Inductive sim_call (s : BotState) : BotState -> Prop :=
| sim_call_run name config ohlcv now s' :
    SimulationTradingBot.run_strategy s name config ohlcv now = Some s' ->
    sim_call s s'
| sim_call_open name config price now :
    sim_call s (fst (SimulationTradingBot.open_position s name config price now))
| sim_call_close name price reason now :
    sim_call s (fst (SimulationTradingBot.close_position s name price reason now))
| sim_call_check name config price s' r :
    check_position_exits s name config price = Some (s', r) ->
    sim_call s s'.

Inductive live_call (s : BotState) : BotState -> Prop :=
| live_call_run ex name config ohlcv now s' :
    TradingBot.run_strategy ex s name config ohlcv now = Some s' ->
    live_call s s'
| live_call_open ex name config price now :
    live_call s (fst (TradingBot.open_position ex s name config price now))
| live_call_close ex name price reason now :
    live_call s (fst (TradingBot.close_position ex s name price reason now))
| live_call_check name config price s' r :
    check_position_exits s name config price = Some (s', r) ->
    live_call s s'.

(** Positions of the simulation bot always carry their entry fee. *)
Definition positions_have_fee (s : BotState) : Prop :=
  forall k pos, positions s !! k = Some pos -> has_entry_fee pos.

(** ** Sample candle series and runs *)

(** A candle series with the given closes: open = close, a high one above
    and a low one below it, constant volume. *)
Definition candles_of_closes (closes : list Q) : list Candle :=
  imap (fun t c => mkCandle (Z.of_nat t) c (c + 1) (c - 1) c 1000) closes.

(** 41 flat rows at 100, eight falling rows, a last row one up. *)
Definition falling_after_flat : list Candle :=
  candles_of_closes
    (replicate 41 100 ++ [99; 98; 97; 96; 95; 94; 93; 92; 93]).

(** A market that has not moved for 50 candles. *)
Definition frozen_market : list Candle :=
  map (fun t => mkCandle (Z.of_nat t) 100 100 100 100 1000) (seq 0 50).

(** A series whose last candle closes above its own high. *)
Definition close_above_high : list Candle :=
  candles_of_closes (replicate 49 100)
  ++ [mkCandle 49 100 101 99 103 1000].

(** A slow decline from 300 that turns up in its last row: the entry
    pattern of the oversold-reversal and of the stochastic-crossover
    rule. *)
Definition decline_closes : list Q :=
  map (fun i => 300 - inject_Z (Z.of_nat i)) (seq 0 48).

Definition dip_entry : list Candle :=
  candles_of_closes ([50] ++ decline_closes ++ [254]).

(** The next hour: the window moves on by one candle, closing at 290
    (resp. 300), above the take-profit level of a position opened at a
    quote of 254. *)
Definition dip_then_290 : list Candle :=
  candles_of_closes (decline_closes ++ [254; 290]).

Definition dip_then_300 : list Candle :=
  candles_of_closes (decline_closes ++ [254; 300]).

(** An exchange that rejects every order. *)
Definition rejecting_exchange : Exchange :=
  mkExchange (fun _ _ => false) (fun _ _ => false).

(** An exchange that fills every order. *)
Definition filling_exchange : Exchange :=
  mkExchange (fun _ _ => true) (fun _ _ => true).

(** The simulation bot after opening ADA_RSI at a quote of 1. *)
Definition sim_ada_open : BotState :=
  fst (SimulationTradingBot.open_position init "ADA_RSI" ADA_RSI_config
         (Fin 1) 0).

(** The simulation bot after closing that position at a quote of 1.2. *)
Definition sim_ada_closed : BotState :=
  fst (SimulationTradingBot.close_position sim_ada_open "ADA_RSI"
         (Fin 1.2) "take_profit" 1).


(** * The rest of the two files *)

(** ** [print_summary] (the same in both classes)

    The figures it prints. *)
Record Summary : Type := mkSummary {
  total_pnl : fnum;
  total_return : fnum;
  total_trades : nat;
  wins : nat;
  win_rate : fnum;
  open_positions : nat
}.

Definition fnat (n : nat) : fnum := Fin (inject_Z (Z.of_nat n)).

Definition print_summary (s : BotState) : Summary :=
  let total_pnl := (capital s - initial_capital s)%F in
  let total_return := (total_pnl / initial_capital s * Fin 100)%F in
  let wins :=
    length (List.filter (fun t => (Trade.pnl_usd t >? Fin 0)%F) (trades s)) in
  let win_rate :=
    match trades s with
    | [] => Fin 0
    | _ => (fnat wins / fnat (length (trades s)) * Fin 100)%F
    end in
  mkSummary total_pnl total_return (length (trades s)) wins win_rate
            (size (positions s)).

(** ** [run]: the main loop

    One pass of [for strategy_name, config in CONFIG['strategies'].items()]:
    [feed] is what the exchange answers for a symbol during the pass; an
    exception of [run_strategy] leaves the loop ([None]). *)
Definition sim_run_iteration (s : BotState)
    (feed : string -> option (list Candle)) (now : Z) : option BotState :=
  foldl (fun acc entry =>
           s ← acc;
           SimulationTradingBot.run_strategy s entry.1 entry.2
             (feed (StrategyConfig.symbol entry.2)) now)
        (Some s) CONFIG_strategies.

Definition live_run_iteration (ex : Exchange) (s : BotState)
    (feed : string -> option (list Candle)) (now : Z) : option BotState :=
  foldl (fun acc entry =>
           s ← acc;
           TradingBot.run_strategy ex s entry.1 entry.2
             (feed (StrategyConfig.symbol entry.2)) now)
        (Some s) CONFIG_strategies.

(** [while True]: the passes made before the interrupt, one per element
    of [ticks]. *)
Definition sim_run (s : BotState)
    (ticks : list ((string -> option (list Candle)) * Z)) : option BotState :=
  foldl (fun acc tick => s ← acc; sim_run_iteration s tick.1 tick.2)
        (Some s) ticks.

Definition live_run (s : BotState)
    (ticks : list (Exchange * (string -> option (list Candle)) * Z))
  : option BotState :=
  foldl (fun acc tick =>
           s ← acc; live_run_iteration tick.1.1 s tick.1.2 tick.2)
        (Some s) ticks.

(** ** More columns of the frame, by name *)

Definition tr_column (high_ low_ : Series) : Series := ssub high_ low_.

Definition atr_column (high_ low_ : Series) : Series :=
  rolling 14 window_mean (tr_column high_ low_).

Definition plus_dm_column (high_ : Series) : Series :=
  where_ (diff high_) (fun d => d >? Fin 0)%F (Fin 0).

Definition minus_dm_column (low_ : Series) : Series :=
  sneg (where_ (diff low_) (fun d => (- d) >? Fin 0)%F (Fin 0)).

Definition plus_di_column (high_ low_ : Series) : Series :=
  sscale (Fin 100)
    (sdiv (rolling 14 window_mean (plus_dm_column high_))
          (atr_column high_ low_)).

Definition minus_di_column (high_ low_ : Series) : Series :=
  sscale (Fin 100)
    (sdiv (rolling 14 window_mean (minus_dm_column low_))
          (atr_column high_ low_)).

Definition dx_column (high_ low_ : Series) : Series :=
  sdiv (sscale (Fin 100)
          (sabs (ssub (plus_di_column high_ low_) (minus_di_column high_ low_))))
       (sadd (plus_di_column high_ low_) (minus_di_column high_ low_)).

Definition adx_column (high_ low_ : Series) : Series :=
  rolling 14 window_mean (dx_column high_ low_).

Definition vol_ma_column (volume_ : Series) : Series :=
  rolling 20 window_mean volume_.

Definition vol_ratio_column (volume_ : Series) : Series :=
  sdiv volume_ (vol_ma_column volume_).

(** A candle whose low is not above its high, and one whose volume is
    not negative. *)
Definition high_low_ok (k : Candle) : Prop := k_low k <= k_high k.

Definition volume_ok (k : Candle) : Prop := 0 <= k_volume k.

(** A directional indicator: NaN in the warm-up rows and on 0/0, +inf on
    a zero average range, a number that is not negative otherwise. *)
Definition di_value (a : fnum) : Prop := a = NaN \/ a = PInf \/ nonneg a.

(** ** Conditions on a tick *)

(** What makes [run_strategy] return without touching the bot: a disabled
    strategy, a failed request, fewer than 50 candles. *)
Definition tick_skipped (config : StrategyConfig.t)
    (ohlcv : option (list Candle)) : Prop :=
  StrategyConfig.enabled config = false \/ ohlcv = None \/
  exists df, ohlcv = Some df /\ (length df < 50)%nat.


(** [pos'] is [pos] up to [highest_price]. *)
Definition same_but_highest (pos pos' : Position.t) : Prop :=
  Position.symbol pos' = Position.symbol pos /\
  Position.entry_price pos' = Position.entry_price pos /\
  Position.amount pos' = Position.amount pos /\
  Position.leverage pos' = Position.leverage pos /\
  Position.stop_loss pos' = Position.stop_loss pos /\
  Position.take_profit pos' = Position.take_profit pos /\
  Position.entry_time pos' = Position.entry_time pos /\
  Position.entry_fee pos' = Position.entry_fee pos.

(** What a tick for [name] may do to the trade log: nothing, or one more
    record, of that strategy. *)
Definition tick_trades (name : string) (s s' : BotState) : Prop :=
  trades s' = trades s \/
  exists trade,
    trades s' = trades s ++ [trade] /\ Trade.strategy trade = name.

(** Only configured strategies hold positions. *)
Definition positions_configured (s : BotState) : Prop :=
  forall k, is_Some (positions s !! k) -> In k (map fst CONFIG_strategies).


(** What one call for [name] may do to the log and to the keys of the
    positions map. *)
Definition step_effect (name : string) (s s' : BotState) : Prop :=
  tick_trades name s s' /\
  forall k, is_Some (positions s' !! k) ->
            k = name \/ is_Some (positions s !! k).

(** What one pass over [entries] may do: the new trades come in the order
    of the entries, at most one per entry. *)
Definition pass_effect {A} (entries : list (string * A)) (s s' : BotState)
  : Prop :=
  (exists new,
     trades s' = trades s ++ new /\
     map Trade.strategy new `sublist_of` map fst entries) /\
  forall k, is_Some (positions s' !! k) ->
            In k (map fst entries) \/ is_Some (positions s !! k).


(** ** Runs on positive quotes *)

(** The calls one [run_strategy] makes and the quote they get: none, an
    open, an exit check, or an exit check followed by a close. *)
Inductive tick_calls (open : fnum -> BotState)
    (close : BotState -> fnum -> string -> BotState)
    (name : string) (config : StrategyConfig.t)
    (ohlcv : option (list Candle)) (s s' : BotState) : Prop :=
| calls_none : s' = s -> tick_calls open close name config ohlcv s s'
| calls_open cs k :
    ohlcv = Some cs -> last cs = Some k ->
    positions s !! name = None ->
    s' = open (Fin (k_close k)) ->
    tick_calls open close name config ohlcv s s'
| calls_check cs k r :
    ohlcv = Some cs -> last cs = Some k ->
    check_position_exits s name config (Fin (k_close k)) = Some (s', r) ->
    tick_calls open close name config ohlcv s s'
| calls_close cs k s1 should_exit reason :
    ohlcv = Some cs -> last cs = Some k ->
    check_position_exits s name config (Fin (k_close k))
      = Some (s1, (should_exit, reason)) ->
    s' = close s1 (Fin (k_close k)) (default "strategy_signal" reason) ->
    tick_calls open close name config ohlcv s s'.

(** A position as [open_position] writes it for the strategy [k], at a
    positive fill price. *)
Definition as_opened (k : string) (pos : Position.t) : Prop :=
  exists config e,
    In (k, config) CONFIG_strategies /\ 0 < e /\
    Position.entry_price pos = Fin e /\
    Position.leverage pos = Fin (StrategyConfig.leverage config) /\
    Position.stop_loss pos = Fin (e * (1 - StrategyConfig.stop_loss config)) /\
    Position.take_profit pos
      = Fin (e * (1 + StrategyConfig.take_profit config)).

Definition positions_as_opened (s : BotState) : Prop :=
  forall k pos, positions s !! k = Some pos -> as_opened k pos.

Definition is_loss (a : fnum) : Prop := exists x, a = Fin x /\ x < 0.
Definition is_gain (a : fnum) : Prop := exists x, a = Fin x /\ 0 < x.

(** The sign of a trade's [pnl_pct] agrees with its exit reason. *)
Definition trade_sign_ok (t : Trade.t) : Prop :=
  (Trade.reason t = "stop_loss" -> is_loss (Trade.pnl_pct t)) /\
  (Trade.reason t = "take_profit" -> is_gain (Trade.pnl_pct t)).

(** Every series the exchange returns ends on a positive close. *)
Definition quotes_positive (feed : string -> option (list Candle)) : Prop :=
  forall symbol cs k,
    feed symbol = Some cs -> last cs = Some k -> 0 < k_close k.

Definition book_ok (s : BotState) : Prop :=
  positions_as_opened s /\ Forall trade_sign_ok (trades s).


(** A candle whose close lies in [lo, hi]. *)
Definition close_within (lo hi : Q) (k : Candle) : Prop :=
  lo <= k_close k /\ k_close k <= hi.


(** 36 rows going up and down by 2 around 101, then 14 rows rising by 2. *)
Definition zigzag_then_rally : list Candle :=
  candles_of_closes
    (map (fun i => if Nat.even i then 100 else 102) (seq 0 36)
     ++ map (fun i => 104 + inject_Z (Z.of_nat (2 * i))) (seq 0 14)).


(** ** Booking *)

(** What a call may do to the books, seen from the positions map: no
    position disappears, and capital and trade log stay as they are; or
    exactly one position disappears, one trade of that strategy is
    appended, and the trade's [pnl_usd] is added to the capital. *)
Definition booking_step (s s' : BotState) : Prop :=
  initial_capital s' = initial_capital s /\
  ((capital s' = capital s /\ trades s' = trades s /\
    forall k, is_Some (positions s !! k) -> is_Some (positions s' !! k)) \/
   (exists name trade,
      is_Some (positions s !! name) /\ positions s' !! name = None /\
      (forall k, k <> name -> positions s' !! k = positions s !! k) /\
      trades s' = trades s ++ [trade] /\
      Trade.strategy trade = name /\
      capital s' = (capital s + Trade.pnl_usd trade)%F)).

(** The state a successful close of [name] leaves, and its result. *)
Definition booked (s : BotState) (name : string) (trade : Trade.t)
  : BotState * bool :=
  (mkBot (capital s + Trade.pnl_usd trade)%F (initial_capital s)
         (delete name (positions s)) (trades s ++ [trade]), true).

(** ** Ticks on fewer than 50 candles *)

(** The simulation bot after opening ADA_RSI at a quote of 100: entry
    fill 100.1, stop level 92.092, take-profit level 115.115. *)
Definition sim_ada_open_100 : BotState :=
  fst (SimulationTradingBot.open_position init "ADA_RSI" ADA_RSI_config
         (Fin 100) 0).

Definition quiet_candles (n : nat) : list Candle :=
  map (fun t => mkCandle (Z.of_nat t) 100 100 100 100 1000) (seq 0 n).

(** 48 quiet candles at 100 and a last one that falls to 50: 49 rows. *)
Definition short_crash : list Candle :=
  quiet_candles 48 ++ [mkCandle 48 100 100 50 50 1000].

(** The same fall after 49 quiet candles: 50 rows. *)
Definition long_crash : list Candle :=
  quiet_candles 49 ++ [mkCandle 49 100 100 50 50 1000].

(** 48 quiet candles at 100 and a last one that rises to 105: 49 rows. *)
Definition short_rally : list Candle :=
  quiet_candles 48 ++ [mkCandle 48 100 105 100 105 1000].

(** 36 quiet candles, 13 candles alternating between 97 and 100, and a
    last one at 102: 50 rows, the RSI stays below 60. *)
Definition choppy_rise : list Candle :=
  candles_of_closes
    (replicate 36 100
     ++ [97; 100; 97; 100; 97; 100; 97; 100; 97; 100; 97; 100; 97; 102]).

(** * Properties *)

(** ** Comparisons and row access *)

Lemma flt_Fin (a b : Q) : (Fin a <? Fin b)%F = true <-> a < b.
Proof.
  simpl. rewrite negb_true_iff, <- not_true_iff_false, Qle_bool_iff.
  split; [apply Qnot_le_lt | apply Qlt_not_le].
Qed.

Lemma fle_Fin (a b : Q) : (Fin a <=? Fin b)%F = true <-> a <= b.
Proof. simpl. apply Qle_bool_iff. Qed.

Lemma flt_Fin_false (a b : Q) : (Fin a <? Fin b)%F = false <-> b <= a.
Proof.
  simpl. rewrite negb_false_iff. apply Qle_bool_iff.
Qed.

Lemma fle_Fin_false (a b : Q) : (Fin a <=? Fin b)%F = false <-> b < a.
Proof.
  rewrite <- not_true_iff_false, fle_Fin.
  split; [apply Qnot_le_lt | apply Qlt_not_le].
Qed.

(** Two strict bounds that exclude each other are never both met, whatever
    the value (NaN and the infinities included). *)
Lemma flt_fgt_exclusive (lo hi : Q) (a : fnum) :
  lo <= hi -> ((a <? Fin lo)%F && (a >? Fin hi)%F) = false.
Proof.
  intros Hle. destruct a as [q| | |]; try reflexivity.
  apply not_true_iff_false. rewrite andb_true_iff. unfold fgt.
  rewrite !flt_Fin. intros [H1 H2]. lra.
Qed.

Lemma iloc_neg {A} (l : list A) (k : nat) :
  (0 < k <= length l)%nat ->
  iloc l (- Z.of_nat k) = l !! (length l - k)%nat.
Proof.
  intros Hk. unfold iloc.
  replace (- Z.of_nat k <? 0)%Z with true by (symmetry; apply Z.ltb_lt; lia).
  replace (- Z.of_nat k + Z.of_nat (length l))%Z
    with (Z.of_nat (length l - k)) by lia.
  rewrite Nat2Z.id.
  replace (0 <=? Z.of_nat (length l - k))%Z with true
    by (symmetry; apply Z.leb_le; lia).
  replace (Z.of_nat (length l - k) <? Z.of_nat (length l))%Z with true
    by (symmetry; apply Z.ltb_lt; lia).
  reflexivity.
Qed.

Lemma iloc_neg_is_Some {A} (l : list A) (k : nat) :
  (0 < k <= length l)%nat -> is_Some (iloc l (- Z.of_nat k)).
Proof.
  intros Hk. rewrite iloc_neg by exact Hk. apply lookup_lt_is_Some. lia.
Qed.

(** The rows the evaluators read exist once the frame has 50 rows. *)
Lemma rows_available (df : DataFrame) :
  (50 <= length df)%nat ->
  exists latest prev prev_3 row10,
    iloc df (-1) = Some latest /\ iloc df (-2) = Some prev /\
    iloc df (-4) = Some prev_3 /\ iloc df (-10) = Some row10.
Proof.
  intros Hlen.
  destruct (iloc_neg_is_Some df 1) as [r1 H1]; [lia|].
  destruct (iloc_neg_is_Some df 2) as [r2 H2]; [lia|].
  destruct (iloc_neg_is_Some df 4) as [r4 H4]; [lia|].
  destruct (iloc_neg_is_Some df 10) as [r10 H10]; [lia|].
  exists r1, r2, r4, r10. auto.
Qed.

Lemma short_frame (df : DataFrame) :
  (length df < 50)%nat -> (length df <? 50)%nat = true.
Proof. intros H. apply Nat.ltb_lt. exact H. Qed.

Lemma long_frame (df : DataFrame) :
  (50 <= length df)%nat -> (length df <? 50)%nat = false.
Proof. intros H. apply Nat.ltb_ge. exact H. Qed.

(** ** The evaluators, row by row *)

Lemma ada_rsi_signal_rows (df : DataFrame) latest prev row10 :
  (50 <= length df)%nat ->
  iloc df (-1) = Some latest -> iloc df (-2) = Some prev ->
  iloc df (-10) = Some row10 ->
  ada_rsi_signal df =
    Some ((rsi latest <? Fin 35)%F && (rsi latest >? rsi prev)%F
          && (vol_ratio latest >? Fin 0.8)%F
          && (ema20 latest >? ema50 row10)%F,
          (rsi latest >? Fin 60)%F).
Proof.
  intros Hlen H1 H2 H10. unfold ada_rsi_signal.
  rewrite long_frame by exact Hlen. rewrite H1, H2.
  cbn -[flt fgt fle fge].
  destruct ((rsi latest <? Fin 35)%F && (rsi latest >? rsi prev)%F
            && (vol_ratio latest >? Fin 0.8)%F) eqn:E.
  - rewrite H10. reflexivity.
  - reflexivity.
Qed.

Lemma sol_stoch_signal_rows (df : DataFrame) latest prev :
  (50 <= length df)%nat ->
  iloc df (-1) = Some latest -> iloc df (-2) = Some prev ->
  sol_stoch_signal df =
    Some ((stoch_k latest <? Fin 30)%F
          && (stoch_k latest >? stoch_d latest)%F
          && (stoch_k prev <=? stoch_d prev)%F
          && (ema20 latest >? ema50 latest)%F,
          (stoch_k latest >? Fin 80)%F).
Proof.
  intros Hlen H1 H2. unfold sol_stoch_signal.
  rewrite long_frame by exact Hlen. rewrite H1, H2. reflexivity.
Qed.

Lemma xrp_adx_signal_rows (df : DataFrame) latest prev_3 :
  (50 <= length df)%nat ->
  iloc df (-1) = Some latest -> iloc df (-4) = Some prev_3 ->
  xrp_adx_signal df =
    Some ((adx latest >? Fin 25)%F
          && (adx latest >? adx prev_3)%F
          && (close latest >? series_max (iloc_slice (map high df) (-21) (-1)))%F,
          (adx latest <? Fin 20)%F).
Proof.
  intros Hlen H1 H4. unfold xrp_adx_signal.
  rewrite long_frame by exact Hlen. rewrite H1, H4. reflexivity.
Qed.

Lemma ada_rsi_signal_exclusive (df : DataFrame) : exclusive (ada_rsi_signal df).
Proof.
  destruct (Nat.lt_ge_cases (length df) 50) as [Hs|Hl].
  - unfold ada_rsi_signal. rewrite short_frame by exact Hs.
    exists false, false. auto.
  - destruct (rows_available df Hl) as (r1 & r2 & r4 & r10 & H1 & H2 & H4 & H10).
    rewrite (ada_rsi_signal_rows df r1 r2 r10) by assumption.
    eexists _, _. split; [reflexivity|].
    pose proof (flt_fgt_exclusive 35 60 (rsi r1) ltac:(lra)) as Hx.
    revert Hx.
    generalize (rsi r1 <? Fin 35)%F as a, (rsi r1 >? Fin 60)%F as c.
    intros [] []; intros; try discriminate;
      rewrite ?andb_false_r; reflexivity.
Qed.

Lemma sol_stoch_signal_exclusive (df : DataFrame) : exclusive (sol_stoch_signal df).
Proof.
  destruct (Nat.lt_ge_cases (length df) 50) as [Hs|Hl].
  - unfold sol_stoch_signal. rewrite short_frame by exact Hs.
    exists false, false. auto.
  - destruct (rows_available df Hl) as (r1 & r2 & r4 & r10 & H1 & H2 & H4 & H10).
    rewrite (sol_stoch_signal_rows df r1 r2) by assumption.
    eexists _, _. split; [reflexivity|].
    pose proof (flt_fgt_exclusive 30 80 (stoch_k r1) ltac:(lra)) as Hx.
    revert Hx.
    generalize (stoch_k r1 <? Fin 30)%F as a, (stoch_k r1 >? Fin 80)%F as c.
    intros [] []; intros; try discriminate;
      rewrite ?andb_false_r; reflexivity.
Qed.

Lemma xrp_adx_signal_exclusive (df : DataFrame) : exclusive (xrp_adx_signal df).
Proof.
  destruct (Nat.lt_ge_cases (length df) 50) as [Hs|Hl].
  - unfold xrp_adx_signal. rewrite short_frame by exact Hs.
    exists false, false. auto.
  - destruct (rows_available df Hl) as (r1 & r2 & r4 & r10 & H1 & H2 & H4 & H10).
    rewrite (xrp_adx_signal_rows df r1 r4) by assumption.
    eexists _, _. split; [reflexivity|].
    pose proof (flt_fgt_exclusive 20 25 (adx r1) ltac:(lra)) as Hx.
    revert Hx.
    generalize (adx r1 <? Fin 20)%F as c, (adx r1 >? Fin 25)%F as a.
    intros [] []; intros; try discriminate;
      rewrite ?andb_false_r; reflexivity.
Qed.

(** C10.  None of the three evaluators ever returns entry = true together
    with exit = true: on every frame each returns a pair whose two
    components are not both true, because the entry and the exit
    threshold on the driving indicator exclude each other (RSI < 35 and
    > 60, %K < 30 and > 80, ADX > 25 and < 20; a NaN meets neither).  A
    frame shorter than 50 rows yields (false, false). *)
Theorem signals_entry_exit_exclusive (df : DataFrame) :
  (exclusive (ada_rsi_signal df) /\
   exclusive (sol_stoch_signal df) /\
   exclusive (xrp_adx_signal df)) /\
  (forall v : fnum,
     (v <? Fin 35)%F && (v >? Fin 60)%F = false /\
     (v <? Fin 30)%F && (v >? Fin 80)%F = false /\
     (v >? Fin 25)%F && (v <? Fin 20)%F = false) /\
  ((length df < 50)%nat ->
   ada_rsi_signal df = Some (false, false) /\
   sol_stoch_signal df = Some (false, false) /\
   xrp_adx_signal df = Some (false, false)).
Proof.
  split; [|split].
  - auto using ada_rsi_signal_exclusive, sol_stoch_signal_exclusive,
      xrp_adx_signal_exclusive.
  - intros v. repeat split.
    + apply flt_fgt_exclusive. lra.
    + apply flt_fgt_exclusive. lra.
    + rewrite andb_comm. apply flt_fgt_exclusive. lra.
  - intros Hs. unfold ada_rsi_signal, sol_stoch_signal, xrp_adx_signal.
    rewrite short_frame by exact Hs. auto.
Qed.

Lemma signals_entry_exit_exclusive_witness :
  ada_rsi_signal (calculate_indicators (take 20 falling_after_flat))
    = Some (false, false) /\
  sol_stoch_signal (calculate_indicators (take 20 falling_after_flat))
    = Some (false, false) /\
  xrp_adx_signal (calculate_indicators (take 20 falling_after_flat))
    = Some (false, false).
Proof.
  apply (signals_entry_exit_exclusive
           (calculate_indicators (take 20 falling_after_flat))).
  vm_compute. lia.
Defined.

(** ** The oversold-reversal rule *)

(** On [falling_after_flat] the specification's rule holds (with the row
    at index -10 as well as with the row at index -11 for "10 rows back"),
    yet the evaluator reports no entry: it compares the latest 20-EMA with
    the 50-EMA of row -10. *)
Lemma oversold_entry_spec_wording_fails :
  let df := calculate_indicators falling_after_flat in
  (50 <= length df)%nat /\
  ada_rsi_signal df = Some (false, false) /\
  exists latest prev back10 back11,
    iloc df (-1) = Some latest /\ iloc df (-2) = Some prev /\
    iloc df (-10) = Some back10 /\ iloc df (-11) = Some back11 /\
    spec_oversold_entry latest prev back10 = true /\
    spec_oversold_entry latest prev back11 = true.
Proof.
  cbv zeta. split; [vm_compute; lia|]. split; [vm_compute; reflexivity|].
  eexists _, _, _, _.
  do 4 (split; [vm_compute; reflexivity|]).
  split; vm_compute; reflexivity.
Qed.

(** C3 (amended).  On a frame of at least 50 rows the oversold-reversal
    evaluator reports entry = true exactly when the latest RSI is below
    35, above the previous row's RSI, the latest volume ratio is above
    0.8, and the latest 20-EMA is above the 50-EMA of the row at index
    -10; it reports exit = true exactly when the latest RSI is above 60. *)
Theorem oversold_reversal_rule (df : DataFrame) :
  (50 <= length df)%nat ->
  exists latest prev row10 entry exit_signal,
    iloc df (-1) = Some latest /\ iloc df (-2) = Some prev /\
    iloc df (-10) = Some row10 /\
    ada_rsi_signal df = Some (entry, exit_signal) /\
    (entry = true <->
       (rsi latest <? Fin 35)%F = true /\
       (rsi latest >? rsi prev)%F = true /\
       (vol_ratio latest >? Fin 0.8)%F = true /\
       (ema20 latest >? ema50 row10)%F = true) /\
    (exit_signal = true <-> (rsi latest >? Fin 60)%F = true).
Proof.
  intros Hlen.
  destruct (rows_available df Hlen) as (r1 & r2 & r4 & r10 & H1 & H2 & H4 & H10).
  exists r1, r2, r10. eexists _, _.
  split; [exact H1|]. split; [exact H2|]. split; [exact H10|].
  split; [exact (ada_rsi_signal_rows df r1 r2 r10 Hlen H1 H2 H10)|].
  split; [|reflexivity].
  rewrite !andb_true_iff. tauto.
Qed.

Lemma oversold_reversal_rule_witness :
  exists latest prev row10 entry exit_signal,
    iloc (calculate_indicators falling_after_flat) (-1) = Some latest /\
    iloc (calculate_indicators falling_after_flat) (-2) = Some prev /\
    iloc (calculate_indicators falling_after_flat) (-10) = Some row10 /\
    ada_rsi_signal (calculate_indicators falling_after_flat)
      = Some (entry, exit_signal) /\
    (entry = true <->
       (rsi latest <? Fin 35)%F = true /\
       (rsi latest >? rsi prev)%F = true /\
       (vol_ratio latest >? Fin 0.8)%F = true /\
       (ema20 latest >? ema50 row10)%F = true) /\
    (exit_signal = true <-> (rsi latest >? Fin 60)%F = true).
Proof.
  apply (oversold_reversal_rule (calculate_indicators falling_after_flat)).
  vm_compute. lia.
Defined.

(** ** Order facts on [fnum] *)

Lemma flt_irrefl (a : fnum) : (a <? a)%F = false.
Proof.
  destruct a as [q| | |]; try reflexivity.
  apply flt_Fin_false. apply Qle_refl.
Qed.

Lemma flt_asym (a b : fnum) : (a <? b)%F = true -> (b <? a)%F = false.
Proof.
  destruct a as [x| | |], b as [y| | |]; try reflexivity; try discriminate.
  rewrite flt_Fin, flt_Fin_false. apply Qlt_le_weak.
Qed.

Lemma flt_fle (a b : fnum) : (a <? b)%F = true -> (a <=? b)%F = true.
Proof.
  destruct a as [x| | |], b as [y| | |]; try reflexivity; try discriminate.
  rewrite flt_Fin, fle_Fin. apply Qlt_le_weak.
Qed.

Lemma fle_refl (a : fnum) : is_nan a = false -> (a <=? a)%F = true.
Proof.
  destruct a as [q| | |]; try reflexivity; try discriminate.
  intros _. apply fle_Fin, Qle_refl.
Qed.

(** ** [highest_price] while a position is open *)

(** What one exit check does to the bot: only the checked position's
    [highest_price] may change, and it becomes the larger of its old value
    and the current price. *)
Lemma check_position_exits_state s name config price s' r :
  check_position_exits s name config price = Some (s', r) ->
  exists position,
    positions s !! name = Some position /\
    s' = set_positions s
           (<[name := Position.set_highest_price position
                        (fmax2 (Position.highest_price position) price)]>
              (positions s)).
Proof.
  unfold check_position_exits. intros H.
  destruct (positions s !! name) as [position|] eqn:Hp; [|discriminate].
  exists position. split; [reflexivity|].
  cbn -[flt fgt fle fge] in H.
  assert (Hpos :
    (if (price >? Position.highest_price position)%F
     then Position.set_highest_price position price else position)
    = Position.set_highest_price position
        (fmax2 (Position.highest_price position) price)).
  { unfold fmax2, fgt.
    destruct (Position.highest_price position <? price)%F; [reflexivity|].
    destruct position; reflexivity. }
  rewrite Hpos in H.
  repeat match type of H with
         | (if ?c then _ else _) = _ => destruct c
         end; inversion H; reflexivity.
Qed.

Lemma fmax2_not_below (h p : fnum) : (fmax2 h p <? h)%F = false.
Proof.
  unfold fmax2. destruct (h <? p)%F eqn:E.
  - apply flt_asym. exact E.
  - apply flt_irrefl.
Qed.

Lemma fmax2_above (h p : fnum) :
  is_nan h = false -> (h <=? fmax2 h p)%F = true.
Proof.
  intros Hn. unfold fmax2. destruct (h <? p)%F eqn:E.
  - apply flt_fle. exact E.
  - apply fle_refl. exact Hn.
Qed.

Lemma highest_kept_refl s : highest_kept s s.
Proof. intros k pos pos' H1 H2. right. congruence. Qed.

Lemma highest_kept_check s name config price s' r :
  check_position_exits s name config price = Some (s', r) ->
  highest_kept s s'.
Proof.
  intros H. destruct (check_position_exits_state _ _ _ _ _ _ H)
    as (position & Hp & ->).
  intros k pos pos' H1 H2. simpl in H2.
  destruct (decide (name = k)) as [->|Hne].
  - rewrite lookup_insert_eq in H2. left. exists price. congruence.
  - rewrite lookup_insert_ne in H2 by exact Hne. right. congruence.
Qed.

(** ** What one call does to the bot state *)

Lemma sim_close_position_effect s name price reason now :
  let r := SimulationTradingBot.close_position s name price reason now in
  (r = (s, false)) \/
  (snd r = true /\ is_Some (positions s !! name) /\
   exists trade, closed_by s name reason trade (fst r)).
Proof.
  unfold SimulationTradingBot.close_position.
  destruct (positions s !! name) as [position|]; [|left; reflexivity].
  destruct (assoc_lookup name CONFIG_strategies) as [config|];
    [|left; reflexivity].
  destruct (Position.entry_fee position) as [fee|]; [|left; reflexivity].
  right. cbv zeta. split; [reflexivity|]. split; [eauto|].
  eexists (Trade.mk _ _ _ _ _ _ _ _ _ _).
  split; [|split]; cbn [fst]; reflexivity.
Qed.

Lemma live_close_position_effect ex s name price reason now :
  let r := TradingBot.close_position ex s name price reason now in
  (r = (s, false)) \/
  (snd r = true /\ is_Some (positions s !! name) /\
   exists trade, closed_by s name reason trade (fst r)).
Proof.
  unfold TradingBot.close_position.
  destruct (positions s !! name) as [position|]; [|left; reflexivity].
  destruct (create_market_sell_order ex _ _); [|left; reflexivity].
  destruct (assoc_lookup name CONFIG_strategies) as [config|];
    [|left; reflexivity].
  right. cbv zeta. split; [reflexivity|]. split; [eauto|].
  eexists (Trade.mk _ _ _ _ _ _ _ _ _ _).
  split; [|split]; cbn [fst]; reflexivity.
Qed.

Lemma sim_open_position_effect s name config price now :
  let r := SimulationTradingBot.open_position s name config price now in
  snd r = true /\ opened_by has_entry_fee s name (fst r).
Proof.
  cbv zeta. split; [reflexivity|]. eexists. split; [|reflexivity].
  unfold has_entry_fee. simpl. eauto.
Qed.

Lemma live_open_position_effect ex s name config price now :
  let r := TradingBot.open_position ex s name config price now in
  (r = (s, false)) \/ (snd r = true /\ opened_by any_position s name (fst r)).
Proof.
  unfold TradingBot.open_position.
  destruct (create_market_buy_order ex _ _); [|left; reflexivity].
  right. split; [reflexivity|]. eexists. split; [exact I|reflexivity].
Qed.

(** The common start of the three [run_strategy] proofs: the early
    returns ([idle] closes them), then the price and the strategy
    function. *)
Ltac enter_tick H idle :=
  destruct (negb (StrategyConfig.enabled _));
    [injection H as <-; idle|];
  destruct (fetch_data _) as [df|]; [|injection H as <-; idle];
  destruct (length df <? 50)%nat; [injection H as <-; idle|];
  destruct (iloc (map close df) (-1)) as [price|]; [|discriminate];
  destruct (STRATEGY_FUNCTIONS _) as [f|]; [|discriminate];
  cbn [mbind option_bind] in H.

Lemma sim_run_strategy_outcome s name config ohlcv now s' :
  SimulationTradingBot.run_strategy s name config ohlcv now = Some s' ->
  tick_outcome has_entry_fee name s s'.
Proof.
  unfold SimulationTradingBot.run_strategy. intros H.
  enter_tick H ltac:(apply tick_idle; reflexivity).
  destruct (positions s !! name) as [pos|] eqn:Hp.
  - destruct (check_position_exits s name config price)
      as [[s1 [should_exit reason]]|] eqn:Hc; [|discriminate].
    cbn [mbind option_bind] in H.
    destruct (f df) as [[e x]|]; [|discriminate].
    cbn [mbind option_bind] in H.
    destruct (should_exit || x).
    + injection H as <-.
      destruct (sim_close_position_effect s1 name price
                  (default "strategy_signal" reason) now)
        as [E|(_ & _ & trade & Ht)].
      * rewrite E. eapply tick_hold. exact Hc.
      * eapply tick_close; [exact Hc|exact Ht].
    + injection H as <-. eapply tick_hold. exact Hc.
  - destruct (f df) as [[e x]|]; [|discriminate].
    cbn [mbind option_bind] in H.
    destruct e; injection H as <-.
    + apply tick_open; [exact Hp|].
      apply (sim_open_position_effect s name config price now).
    + apply tick_idle. reflexivity.
Qed.

Lemma live_run_strategy_outcome ex s name config ohlcv now s' :
  TradingBot.run_strategy ex s name config ohlcv now = Some s' ->
  tick_outcome any_position name s s'.
Proof.
  unfold TradingBot.run_strategy. intros H.
  enter_tick H ltac:(apply tick_idle; reflexivity).
  destruct (positions s !! name) as [pos|] eqn:Hp.
  - destruct (check_position_exits s name config price)
      as [[s1 [should_exit reason]]|] eqn:Hc; [|discriminate].
    cbn [mbind option_bind] in H.
    destruct (f df) as [[e x]|]; [|discriminate].
    cbn [mbind option_bind] in H.
    destruct (should_exit || x).
    + injection H as <-.
      destruct (live_close_position_effect ex s1 name price
                  (default "strategy_signal" reason) now)
        as [E|(_ & _ & trade & Ht)].
      * rewrite E. eapply tick_hold. exact Hc.
      * eapply tick_close; [exact Hc|exact Ht].
    + injection H as <-. eapply tick_hold. exact Hc.
  - destruct (f df) as [[e x]|]; [|discriminate].
    cbn [mbind option_bind] in H.
    destruct e; injection H as <-.
    + destruct (live_open_position_effect ex s name config price now)
        as [E|[_ Ho]].
      * rewrite E. apply tick_idle. reflexivity.
      * apply tick_open; [exact Hp|exact Ho].
    + apply tick_idle. reflexivity.
Qed.

Lemma tick_outcome_highest_kept Q name s s' :
  tick_outcome Q name s s' -> highest_kept s s'.
Proof.
  intros [->|Hnone [position [_ ->]]|config price r Hc
          |config price r s1 reason trade Hc [-> _]].
  - apply highest_kept_refl.
  - intros k pos pos' H1 H2. simpl in H2.
    destruct (decide (name = k)) as [->|Hne]; [congruence|].
    rewrite lookup_insert_ne in H2 by exact Hne. right. congruence.
  - eapply highest_kept_check. exact Hc.
  - pose proof (highest_kept_check _ _ _ _ _ _ Hc) as H1.
    intros k pos pos' Hk Hk'. simpl in Hk'.
    destruct (decide (name = k)) as [->|Hne].
    + rewrite lookup_delete_eq in Hk'. discriminate.
    + rewrite lookup_delete_ne in Hk' by exact Hne.
      eapply H1; eassumption.
Qed.

Lemma highest_kept_never_lower s s' k pos pos' :
  highest_kept s s' ->
  positions s !! k = Some pos -> positions s' !! k = Some pos' ->
  (Position.highest_price pos' <? Position.highest_price pos)%F = false /\
  (is_nan (Position.highest_price pos) = false ->
   (Position.highest_price pos <=? Position.highest_price pos')%F = true).
Proof.
  intros H H1 H2. destruct (H k pos pos' H1 H2) as [[p ->]| ->].
  - simpl. split; [apply fmax2_not_below|apply fmax2_above].
  - split; [apply flt_irrefl|apply fle_refl].
Qed.


(** ** The capital ledger *)

Lemma feqv_refl (a : fnum) : feqv a a.
Proof. destruct a; simpl; auto. apply Qeq_refl. Qed.

Lemma feqv_trans (a b c : fnum) : feqv a b -> feqv b c -> feqv a c.
Proof.
  destruct a, b, c; simpl; try tauto. apply Qeq_trans.
Qed.

Lemma fadd_feqv (a a' b b' : fnum) :
  feqv a a' -> feqv b b' -> feqv (a + b)%F (a' + b')%F.
Proof.
  destruct a, a', b, b'; simpl; try tauto. intros -> ->. reflexivity.
Qed.

Lemma fadd_assoc_feqv (a b c : fnum) :
  feqv (a + b + c)%F (a + (b + c))%F.
Proof.
  destruct a, b, c; simpl; auto. symmetry. apply Qplus_assoc.
Qed.

(** Adding the values one after the other onto [a], the way the bot does,
    amounts to adding their sum. *)
Lemma foldl_fadd_sum (l : list fnum) (a : fnum) :
  feqv (foldl fadd a l) (a + fsum l)%F.
Proof.
  unfold fsum. revert a. induction l as [|x l IH] using rev_ind; intros a.
  - simpl. destruct a; simpl; auto. symmetry. apply Qplus_0_r.
  - rewrite !foldl_app. simpl.
    eapply feqv_trans; [|apply feqv_trans with (a + foldl fadd (Fin 0) l + x)%F].
    + apply fadd_feqv; [apply IH|apply feqv_refl].
    + apply feqv_refl.
    + apply fadd_assoc_feqv.
Qed.

Lemma ledger_step_ok s s' : ledger_step s s' -> ledger_ok s -> ledger_ok s'.
Proof.
  unfold ledger_ok. intros [Hi [[Hc Ht]|(trade & Hc & Ht)]] Hok.
  - rewrite Hc, Ht, Hi. exact Hok.
  - rewrite Hc, Ht, Hi, map_app, foldl_app, <- Hok. reflexivity.
Qed.

Lemma ledger_step_same s : ledger_step s s.
Proof. split; [reflexivity|]. left. auto. Qed.

Lemma ledger_step_positions s ps : ledger_step s (set_positions s ps).
Proof. split; [reflexivity|]. left. auto. Qed.

Lemma ledger_step_closed s name reason trade s' :
  closed_by s name reason trade s' -> ledger_step s s'.
Proof.
  intros [-> _]. split; [reflexivity|]. right. exists trade. auto.
Qed.

Lemma ledger_step_check s name config price s' r :
  check_position_exits s name config price = Some (s', r) ->
  ledger_step s s'.
Proof.
  intros H. destruct (check_position_exits_state _ _ _ _ _ _ H)
    as (position & _ & ->).
  apply ledger_step_positions.
Qed.

Lemma tick_outcome_ledger Q name s s' :
  tick_outcome Q name s s' -> ledger_step s s'.
Proof.
  intros [->|Hnone [position [_ ->]]|config price r Hc
          |config price r s1 reason trade Hc Hclose].
  - apply ledger_step_same.
  - apply ledger_step_positions.
  - eapply ledger_step_check. exact Hc.
  - destruct (check_position_exits_state _ _ _ _ _ _ Hc) as (p & _ & ->).
    destruct Hclose as [-> _]. split; [reflexivity|]. right. exists trade.
    simpl. auto.
Qed.

Lemma sim_call_ledger s s' : sim_call s s' -> ledger_step s s'.
Proof.
  intros [name config ohlcv now s1 H|name config price now
          |name price reason now|name config price s1 r H].
  - eapply tick_outcome_ledger, sim_run_strategy_outcome, H.
  - apply ledger_step_positions.
  - destruct (sim_close_position_effect s name price reason now)
      as [E|(_ & _ & trade & Ht)].
    + rewrite E. apply ledger_step_same.
    + eapply ledger_step_closed, Ht.
  - eapply ledger_step_check, H.
Qed.

Lemma live_call_ledger s s' : live_call s s' -> ledger_step s s'.
Proof.
  intros [ex name config ohlcv now s1 H|ex name config price now
          |ex name price reason now|name config price s1 r H].
  - eapply tick_outcome_ledger, live_run_strategy_outcome, H.
  - destruct (live_open_position_effect ex s name config price now)
      as [E|[_ (position & _ & E)]]; rewrite E.
    + apply ledger_step_same.
    + apply ledger_step_positions.
  - destruct (live_close_position_effect ex s name price reason now)
      as [E|(_ & _ & trade & Ht)].
    + rewrite E. apply ledger_step_same.
    + eapply ledger_step_closed, Ht.
  - eapply ledger_step_check, H.
Qed.

Lemma rtc_ledger_ok (R : relation BotState) s :
  (forall a b, R a b -> ledger_step a b) ->
  rtc R init s -> ledger_ok s /\ initial_capital s = Fin CONFIG_initial_capital.
Proof.
  intros HR. revert s. apply rtc_ind_r.
  - split; reflexivity.
  - intros s1 s2 Hrun Hstep [Hok Hini]. apply HR in Hstep.
    split; [eapply ledger_step_ok; eassumption|].
    destruct Hstep as [-> _]. exact Hini.
Qed.


(** ** Failed attempts *)

Lemma live_run_strategy_rejected ex s name config ohlcv now s' :
  (forall sym amt, create_market_buy_order ex sym amt = false) ->
  (forall sym amt, create_market_sell_order ex sym amt = false) ->
  TradingBot.run_strategy ex s name config ohlcv now = Some s' ->
  s' = s \/
  exists price r, check_position_exits s name config price = Some (s', r).
Proof.
  intros Hbuy Hsell. unfold TradingBot.run_strategy. intros H.
  enter_tick H ltac:(left; reflexivity).
  destruct (positions s !! name) as [pos|] eqn:Hp.
  - destruct (check_position_exits s name config price)
      as [[s1 [should_exit reason]]|] eqn:Hc; [|discriminate].
    cbn [mbind option_bind] in H.
    destruct (f df) as [[e x]|]; [|discriminate].
    cbn [mbind option_bind] in H.
    right. exists price, (should_exit, reason).
    destruct (should_exit || x); injection H as <-; [|exact Hc].
    unfold TradingBot.close_position.
    destruct (positions s1 !! name); [|exact Hc].
    rewrite Hsell. exact Hc.
  - destruct (f df) as [[e x]|]; [|discriminate].
    cbn [mbind option_bind] in H. left.
    destruct e; injection H as <-; [|reflexivity].
    unfold TradingBot.open_position. rewrite Hbuy. reflexivity.
Qed.

(** C9.  A failed open or close attempt changes nothing.  On the
    order-placing bot: when [open_position] or [close_position] returns
    False the state it leaves is the state it found (positions map,
    capital and trade log), and a rejected buy or sell order makes the
    attempt return False; in a [run_strategy] tick against an exchange
    that rejects every order, the only state change is the exit check's
    own update of [highest_price].  The simulation bot's
    [close_position] is all-or-nothing in the same way. *)
Theorem failed_attempt_leaves_state :
  (forall ex s name config price now s',
     TradingBot.open_position ex s name config price now = (s', false) ->
     s' = s) /\
  (forall ex s name price reason now s',
     TradingBot.close_position ex s name price reason now = (s', false) ->
     s' = s) /\
  (forall ex s name config price now,
     create_market_buy_order ex (StrategyConfig.symbol config)
       (capital s * Fin (StrategyConfig.position_size config)
        * Fin (StrategyConfig.leverage config) / price)%F = false ->
     TradingBot.open_position ex s name config price now = (s, false)) /\
  (forall ex s name price reason now position,
     positions s !! name = Some position ->
     create_market_sell_order ex (Position.symbol position)
       (Position.amount position) = false ->
     TradingBot.close_position ex s name price reason now = (s, false)) /\
  (forall ex s name config ohlcv now s',
     (forall sym amt, create_market_buy_order ex sym amt = false) ->
     (forall sym amt, create_market_sell_order ex sym amt = false) ->
     TradingBot.run_strategy ex s name config ohlcv now = Some s' ->
     s' = s \/
     exists price r, check_position_exits s name config price = Some (s', r)) /\
  (forall s name price reason now s',
     SimulationTradingBot.close_position s name price reason now = (s', false) ->
     s' = s).
Proof.
  repeat split.
  - intros ex s name config price now s' H.
    destruct (live_open_position_effect ex s name config price now)
      as [E|[E _]]; rewrite H in E; simpl in E; congruence.
  - intros ex s name price reason now s' H.
    destruct (live_close_position_effect ex s name price reason now)
      as [E|[E _]]; rewrite H in E; simpl in E; congruence.
  - intros ex s name config price now H.
    unfold TradingBot.open_position. rewrite H. reflexivity.
  - intros ex s name price reason now position Hp H.
    unfold TradingBot.close_position. rewrite Hp, H. reflexivity.
  - apply live_run_strategy_rejected.
  - intros s name price reason now s' H.
    destruct (sim_close_position_effect s name price reason now)
      as [E|[E _]]; rewrite H in E; simpl in E; congruence.
Qed.

Lemma failed_attempt_leaves_state_witness :
  TradingBot.open_position rejecting_exchange init "ADA_RSI" ADA_RSI_config
    (Fin 1) 0 = (init, false).
Proof.
  apply (proj1 (proj2 (proj2 failed_attempt_leaves_state))).
  reflexivity.
Defined.

(** ** Exit priority in a simulation tick *)

Lemma fee_insert s name position :
  positions_have_fee s -> has_entry_fee position ->
  positions_have_fee (set_positions s (<[name := position]> (positions s))).
Proof.
  intros Hs Hp k pos. simpl. destruct (decide (name = k)) as [->|Hne].
  - rewrite lookup_insert_eq. congruence.
  - rewrite lookup_insert_ne by exact Hne. apply Hs.
Qed.

Lemma fee_check s name config price s' r :
  check_position_exits s name config price = Some (s', r) ->
  positions_have_fee s -> positions_have_fee s'.
Proof.
  intros H Hs. destruct (check_position_exits_state _ _ _ _ _ _ H)
    as (position & Hp & ->).
  apply fee_insert; [exact Hs|]. apply (Hs _ _ Hp).
Qed.

Lemma fee_closed s name reason trade s' :
  closed_by s name reason trade s' ->
  positions_have_fee s -> positions_have_fee s'.
Proof.
  intros [-> _] Hs k pos. simpl. destruct (decide (name = k)) as [->|Hne].
  - rewrite lookup_delete_eq. discriminate.
  - rewrite lookup_delete_ne by exact Hne. apply Hs.
Qed.

Lemma sim_call_fee s s' :
  sim_call s s' -> positions_have_fee s -> positions_have_fee s'.
Proof.
  intros [name config ohlcv now s1 H|name config price now
          |name price reason now|name config price s1 r H] Hs.
  - destruct (sim_run_strategy_outcome _ _ _ _ _ _ H)
      as [->|Hnone (position & Hq & ->)|c p r Hc|c p r s2 reason trade Hc Hcl].
    + exact Hs.
    + apply fee_insert; assumption.
    + eapply fee_check; eassumption.
    + eapply fee_closed; [exact Hcl|]. eapply fee_check; eassumption.
  - destruct (sim_open_position_effect s name config price now)
      as [_ (position & Hq & ->)].
    apply fee_insert; assumption.
  - destruct (sim_close_position_effect s name price reason now)
      as [E|(_ & _ & trade & Ht)].
    + rewrite E. exact Hs.
    + eapply fee_closed; eassumption.
  - eapply fee_check; eassumption.
Qed.

Lemma sim_reachable_fee s : rtc sim_call init s -> positions_have_fee s.
Proof.
  revert s. apply rtc_ind_r.
  - intros k pos H. simpl in H. rewrite lookup_empty in H. discriminate.
  - intros s1 s2 _ Hstep IH. eapply sim_call_fee; eassumption.
Qed.

(** The frame has one row per candle, and its last close is the last
    candle's close: the [current_price] of the tick. *)
Lemma calculate_indicators_length df :
  length (calculate_indicators df) = length df.
Proof. unfold calculate_indicators. apply length_imap. Qed.

Lemma calculate_indicators_close df :
  map close (calculate_indicators df) = column k_close df.
Proof.
  unfold calculate_indicators, column.
  change (@map Row fnum close) with (@fmap list _ Row fnum close).
  rewrite fmap_imap. apply imap_const.
Qed.

Lemma current_price_last df k :
  last df = Some k ->
  iloc (map close (calculate_indicators df)) (-1) = Some (Fin (k_close k)).
Proof.
  intros Hlast. rewrite calculate_indicators_close.
  assert (Hlen : (0 < length (column k_close df))%nat).
  { unfold column. rewrite length_map. destruct df; [discriminate|simpl; lia]. }
  rewrite (iloc_neg _ 1) by lia.
  replace (length (column k_close df) - 1)%nat
    with (pred (length (column k_close df))) by lia.
  rewrite <- last_lookup. unfold column.
  change (last (map ?f df)) with (last (f <$> df)).
  rewrite fmap_last, Hlast. reflexivity.
Qed.

(** The exit check's verdict is the first of the three price conditions. *)
Lemma check_position_exits_verdict s name config price pos :
  positions s !! name = Some pos ->
  exists s1 pos1,
    check_position_exits s name config price
      = Some (s1, (bool_decide (is_Some (position_exit_reason pos config price false)),
                   position_exit_reason pos config price false)) /\
    positions s1 !! name = Some pos1 /\
    Position.entry_fee pos1 = Position.entry_fee pos /\
    capital s1 = capital s /\ trades s1 = trades s.
Proof.
  intros Hp.
  exists (set_positions s
            (<[name := Position.set_highest_price pos
                         (fmax2 (Position.highest_price pos) price)]>
               (positions s))),
         (Position.set_highest_price pos
            (fmax2 (Position.highest_price pos) price)).
  split; [|split; [apply lookup_insert_eq|auto]].
  unfold check_position_exits. rewrite Hp.
  cbn -[flt fgt fle fge fmax2 fmul fsub].
  assert (Hpos :
    (if (price >? Position.highest_price pos)%F
     then Position.set_highest_price pos price else pos)
    = Position.set_highest_price pos
        (fmax2 (Position.highest_price pos) price)).
  { unfold fmax2, fgt.
    destruct (Position.highest_price pos <? price)%F; [reflexivity|].
    destruct pos; reflexivity. }
  rewrite Hpos. unfold position_exit_reason, spec_exit_reason.
  cbn -[flt fgt fle fge fmax2 fmul fsub].
  repeat match goal with
         | |- context [if ?c then _ else _] => destruct c
         end; reflexivity.
Qed.

Lemma configured_strategy name config :
  In (name, config) CONFIG_strategies ->
  StrategyConfig.enabled config = true /\
  assoc_lookup name CONFIG_strategies = Some config /\
  exists f, STRATEGY_FUNCTIONS name = Some f /\
            forall df, exclusive (f df).
Proof.
  intros [H|[H|[H|[]]]]; inversion H; subst;
    (split; [reflexivity|]); (split; [reflexivity|]);
    eexists; (split; [reflexivity|]);
    auto using ada_rsi_signal_exclusive, sol_stoch_signal_exclusive,
      xrp_adx_signal_exclusive.
Qed.

Lemma sim_close_position_succeeds s name price reason now pos config :
  positions s !! name = Some pos -> has_entry_fee pos ->
  assoc_lookup name CONFIG_strategies = Some config ->
  exists trade,
    closed_by s name reason trade
      (fst (SimulationTradingBot.close_position s name price reason now)).
Proof.
  intros Hp [fee Hfee] Hcfg. unfold SimulationTradingBot.close_position.
  rewrite Hp, Hcfg, Hfee.
  eexists (Trade.mk _ _ _ _ _ _ _ _ _ _).
  split; [|split]; cbn [fst]; reflexivity.
Qed.

Lemma position_exit_reason_signal pos config price x :
  position_exit_reason pos config price x
  = match position_exit_reason pos config price false with
    | Some r => Some r
    | None => if x then Some "strategy_signal" else None
    end.
Proof.
  unfold position_exit_reason, spec_exit_reason.
  repeat match goal with
         | |- context [if ?c then _ else _] => destruct c
         end; reflexivity.
Qed.

Lemma stop_loss_first pos config price x :
  (price <=? Position.stop_loss pos)%F = true ->
  position_exit_reason pos config price x = Some "stop_loss".
Proof.
  intros H. unfold position_exit_reason, spec_exit_reason. rewrite H.
  reflexivity.
Qed.

Lemma sim_tick_on_open_position s name config df now pos k :
  has_entry_fee pos ->
  In (name, config) CONFIG_strategies ->
  positions s !! name = Some pos ->
  (50 <= length df)%nat ->
  last df = Some k ->
  exists f entry exit_signal s',
    STRATEGY_FUNCTIONS name = Some f /\
    f (calculate_indicators df) = Some (entry, exit_signal) /\
    SimulationTradingBot.run_strategy s name config (Some df) now = Some s' /\
    ((Fin (k_close k) <=? Position.stop_loss pos)%F = true ->
     position_exit_reason pos config (Fin (k_close k)) exit_signal
       = Some "stop_loss") /\
    match position_exit_reason pos config (Fin (k_close k)) exit_signal with
    | Some reason =>
        positions s' !! name = None /\
        exists trade,
          trades s' = trades s ++ [trade] /\
          Trade.strategy trade = name /\ Trade.reason trade = reason
    | None =>
        is_Some (positions s' !! name) /\
        trades s' = trades s /\ capital s' = capital s
    end.
Proof.
  intros Hfee Hin Hp Hlen Hlast.
  destruct (configured_strategy name config Hin) as (Hen & Hcfg & f & Hf & Hex).
  destruct (Hex (calculate_indicators df)) as (e & x & Hfx & _).
  destruct (check_position_exits_verdict s name config (Fin (k_close k)) pos Hp)
    as (s1 & pos1 & Hc & Hp1 & Hfee1 & Hcap & Htr).
  assert (Hfee' : has_entry_fee pos1)
    by (unfold has_entry_fee; rewrite Hfee1; exact Hfee).
  exists f, e, x.
  unfold SimulationTradingBot.run_strategy.
  rewrite Hen. cbn [negb fetch_data fmap option_fmap option_map].
  rewrite long_frame by (rewrite calculate_indicators_length; exact Hlen).
  rewrite (current_price_last df k Hlast), Hf.
  cbn [mbind option_bind]. rewrite Hp, Hc. cbn [mbind option_bind].
  rewrite Hfx. cbn [mbind option_bind].
  rewrite (position_exit_reason_signal pos config (Fin (k_close k)) x).
  destruct (position_exit_reason pos config (Fin (k_close k)) false)
    as [r|] eqn:Hr.
  - (* a price condition holds *)
    rewrite bool_decide_eq_true_2 by eauto. cbn [orb from_option id].
    destruct (sim_close_position_succeeds s1 name (Fin (k_close k)) r now
                pos1 config Hp1 Hfee' Hcfg) as (trade & (Hs' & Hst & Hre)).
    eexists. split; [reflexivity|]. split; [reflexivity|].
    split; [reflexivity|]. split.
    { intros Hstop. rewrite (stop_loss_first _ _ _ false Hstop) in Hr.
      congruence. }
    rewrite Hs'. cbn [positions trades]. split; [apply lookup_delete_eq|].
    exists trade. rewrite Htr. auto.
  - rewrite bool_decide_eq_false_2 by (intros [? ?]; discriminate).
    cbn [orb from_option id]. destruct x.
    + (* only the strategy's exit signal holds *)
      destruct (sim_close_position_succeeds s1 name (Fin (k_close k))
                  "strategy_signal" now pos1 config Hp1 Hfee' Hcfg)
        as (trade & (Hs' & Hst & Hre)).
      eexists. split; [reflexivity|]. split; [reflexivity|].
      split; [reflexivity|]. split.
      { intros Hstop. rewrite (stop_loss_first _ _ _ false Hstop) in Hr.
        discriminate. }
      rewrite Hs'. cbn [positions trades]. split; [apply lookup_delete_eq|].
      exists trade. rewrite Htr. auto.
    + (* nothing holds: the position stays open *)
      exists s1. split; [reflexivity|]. split; [reflexivity|].
      split; [reflexivity|]. split.
      { intros Hstop. rewrite (stop_loss_first _ _ _ false Hstop) in Hr.
        discriminate. }
      split; [eauto|]. auto.
Qed.


(** ** No exit at the entry price *)

(** With an entry fill [entry] at or above the quote [q], levels derived
    from [entry] that leave [q] strictly inside them match no exit
    condition. *)
Lemma no_price_exit_inside (entry q sl tp tr : Q) :
  q <= entry ->
  entry * (1 - sl) < q -> q < entry * (1 + tp) -> entry * (1 - tr) < q ->
  spec_exit_reason (Fin entry * (Fin 1 - Fin sl))%F
    (Fin entry * (Fin 1 + Fin tp))%F
    (fmax2 (Fin entry) (Fin q)) tr (Fin q) false = None.
Proof.
  intros Hq Hsl Htp Htr. unfold spec_exit_reason.
  assert (Hmax : fmax2 (Fin entry) (Fin q) = Fin entry).
  { unfold fmax2. rewrite (proj2 (flt_Fin_false entry q) Hq). reflexivity. }
  rewrite Hmax.
  change (Fin entry * (Fin 1 - Fin sl))%F with (Fin (entry * (1 - sl))).
  change (Fin entry * (Fin 1 + Fin tp))%F with (Fin (entry * (1 + tp))).
  change (Fin entry * (Fin 1 - Fin tr))%F with (Fin (entry * (1 - tr))).
  unfold fge.
  rewrite (proj2 (fle_Fin_false q (entry * (1 - sl))) Hsl).
  rewrite (proj2 (fle_Fin_false (entry * (1 + tp)) q) Htp).
  rewrite (proj2 (fle_Fin_false q (entry * (1 - tr))) Htr).
  reflexivity.
Qed.

Lemma configured_levels name config (q : Q) :
  In (name, config) CONFIG_strategies -> 0 < q ->
  let sl := StrategyConfig.stop_loss config in
  let tp := StrategyConfig.take_profit config in
  let tr := StrategyConfig.trailing_stop config in
  let entry := q + q * SimulationTradingBot.CONFIG_slippage in
  (q <= entry /\ entry * (1 - sl) < q /\ q < entry * (1 + tp) /\
   entry * (1 - tr) < q) /\
  (q * (1 - sl) < q /\ q < q * (1 + tp) /\ q * (1 - tr) < q).
Proof.
  unfold SimulationTradingBot.CONFIG_slippage.
  intros [H|[H|[H|[]]]] Hq; inversion H; subst; cbn; lra.
Qed.

Lemma sim_opened_position_no_exit s name config (q : Q) now :
  In (name, config) CONFIG_strategies -> 0 < q ->
  exists pos,
    positions (fst (SimulationTradingBot.open_position s name config (Fin q) now))
      !! name = Some pos /\
    has_entry_fee pos /\
    position_exit_reason pos config (Fin q) false = None.
Proof.
  intros Hin Hq.
  destruct (configured_levels name config q Hin Hq) as [(H1 & H2 & H3 & H4) _].
  eexists. split; [apply lookup_insert_eq|]. split.
  - unfold has_entry_fee. simpl. eauto.
  - apply no_price_exit_inside; assumption.
Qed.

Lemma live_opened_position_no_exit ex s name config (q : Q) now s1 :
  In (name, config) CONFIG_strategies -> 0 < q ->
  TradingBot.open_position ex s name config (Fin q) now = (s1, true) ->
  exists pos,
    positions s1 !! name = Some pos /\
    position_exit_reason pos config (Fin q) false = None.
Proof.
  intros Hin Hq. unfold TradingBot.open_position.
  destruct (create_market_buy_order ex _ _); [|discriminate].
  cbn [negb]. intros H. injection H as <-.
  destruct (configured_levels name config q Hin Hq) as [_ (H2 & H3 & H4)].
  eexists. split; [apply lookup_insert_eq|].
  apply no_price_exit_inside; [apply Qle_refl|assumption..].
Qed.

(** A simulation tick on a configured strategy without a position. *)
Lemma sim_tick_without_position s name config df now k :
  In (name, config) CONFIG_strategies ->
  positions s !! name = None ->
  (50 <= length df)%nat -> last df = Some k ->
  exists f entry exit_signal,
    STRATEGY_FUNCTIONS name = Some f /\
    f (calculate_indicators df) = Some (entry, exit_signal) /\
    entry && exit_signal = false /\
    SimulationTradingBot.run_strategy s name config (Some df) now
    = Some (if entry
            then fst (SimulationTradingBot.open_position s name config
                        (Fin (k_close k)) now)
            else s).
Proof.
  intros Hin Hp Hlen Hlast.
  destruct (configured_strategy name config Hin) as (Hen & Hcfg & f & Hf & Hex).
  destruct (Hex (calculate_indicators df)) as (e & x & Hfx & Hexcl).
  exists f, e, x. repeat (split; [assumption|]).
  unfold SimulationTradingBot.run_strategy.
  rewrite Hen. cbn [negb fetch_data fmap option_fmap option_map].
  rewrite long_frame by (rewrite calculate_indicators_length; exact Hlen).
  rewrite (current_price_last df k Hlast), Hf.
  cbn [mbind option_bind]. rewrite Hp, Hfx. cbn [mbind option_bind].
  destruct e; reflexivity.
Qed.

Lemma sim_tick_short_frame s name config df now :
  (length df < 50)%nat ->
  SimulationTradingBot.run_strategy s name config (Some df) now = Some s.
Proof.
  intros Hlen. unfold SimulationTradingBot.run_strategy.
  destruct (negb (StrategyConfig.enabled config)); [reflexivity|].
  cbn [fetch_data fmap option_fmap option_map].
  rewrite short_frame by (rewrite calculate_indicators_length; exact Hlen).
  reflexivity.
Qed.

(** C5.  For each configured strategy and every positive quote, a
    position opened at that quote matches no exit condition when the exit
    check runs at the same quote: the check returns (False, None), on the
    simulation bot (entry fill = quote plus slippage) and on the
    order-placing bot alike.  And when a simulation tick has opened a
    position, a further tick on the same candle data leaves it open and
    records no trade. *)
Theorem no_exit_at_entry :
  (forall s name config (q : Q) now,
     In (name, config) CONFIG_strategies -> 0 < q ->
     exists s2,
       check_position_exits
         (fst (SimulationTradingBot.open_position s name config (Fin q) now))
         name config (Fin q) = Some (s2, (false, None))) /\
  (forall ex s name config (q : Q) now s1,
     In (name, config) CONFIG_strategies -> 0 < q ->
     TradingBot.open_position ex s name config (Fin q) now = (s1, true) ->
     exists s2,
       check_position_exits s1 name config (Fin q) = Some (s2, (false, None))) /\
  (forall s name config df now now' s1 k,
     In (name, config) CONFIG_strategies ->
     positions s !! name = None ->
     last df = Some k -> 0 < k_close k ->
     SimulationTradingBot.run_strategy s name config (Some df) now = Some s1 ->
     is_Some (positions s1 !! name) ->
     exists s2,
       SimulationTradingBot.run_strategy s1 name config (Some df) now' = Some s2 /\
       is_Some (positions s2 !! name) /\
       trades s2 = trades s1 /\ capital s2 = capital s1).
Proof.
  split; [|split].
  - intros s name config q now Hin Hq.
    destruct (sim_opened_position_no_exit s name config q now Hin Hq)
      as (pos & Hp & _ & Hnone).
    destruct (check_position_exits_verdict _ name config (Fin q) pos Hp)
      as (s2 & pos2 & Hc & _).
    exists s2. rewrite Hc, Hnone.
    rewrite bool_decide_eq_false_2 by (intros [? ?]; discriminate).
    reflexivity.
  - intros ex s name config q now s1 Hin Hq Hopen.
    destruct (live_opened_position_no_exit ex s name config q now s1 Hin Hq Hopen)
      as (pos & Hp & Hnone).
    destruct (check_position_exits_verdict _ name config (Fin q) pos Hp)
      as (s2 & pos2 & Hc & _).
    exists s2. rewrite Hc, Hnone.
    rewrite bool_decide_eq_false_2 by (intros [? ?]; discriminate).
    reflexivity.
  - intros s name config df now now' s1 k Hin Hnone Hlast Hk Hrun [p1 Hp1].
    destruct (Nat.lt_ge_cases (length df) 50) as [Hs|Hl].
    { rewrite sim_tick_short_frame in Hrun by exact Hs. congruence. }
    destruct (sim_tick_without_position s name config df now k Hin Hnone Hl Hlast)
      as (f & e & x & Hf & Hfx & Hexcl & Hrun1).
    rewrite Hrun1 in Hrun. destruct e; [|congruence].
    injection Hrun as <-. simpl in Hexcl. subst x.
    destruct (sim_opened_position_no_exit s name config (k_close k) now Hin Hk)
      as (pos & Hp & Hfee & Hno).
    destruct (sim_tick_on_open_position _ name config df now' pos k
                Hfee Hin Hp Hl Hlast)
      as (f' & e' & x' & s2 & Hf' & Hfx' & Hrun2 & _ & Hres).
    assert (f' = f) as -> by congruence.
    assert (x' = false) as -> by congruence.
    rewrite Hno in Hres. exists s2. tauto.
Qed.

Lemma no_exit_at_entry_witness :
  exists s2,
    check_position_exits
      (fst (SimulationTradingBot.open_position init "ADA_RSI" ADA_RSI_config
              (Fin 1) 0))
      "ADA_RSI" ADA_RSI_config (Fin 1) = Some (s2, (false, None)).
Proof.
  apply (proj1 no_exit_at_entry init "ADA_RSI" ADA_RSI_config 1 0%Z).
  - left. reflexivity.
  - reflexivity.
Defined.

(** ** Columns, row by row *)

Lemma at_row_lookup (s : Series) t x : s !! t = Some x -> at_row s t = x.
Proof. unfold at_row. intros ->. reflexivity. Qed.

Lemma at_row_map (f : fnum -> fnum) (s : Series) t :
  (t < length s)%nat -> at_row (map f s) t = f (at_row s t).
Proof.
  intros Ht. destruct (lookup_lt_is_Some_2 s t Ht) as [x Hx].
  rewrite (at_row_lookup s t x Hx). apply at_row_lookup.
  change (map f s) with (f <$> s). rewrite list_lookup_fmap, Hx. reflexivity.
Qed.

Lemma at_row_zip_with (f : fnum -> fnum -> fnum) (a b : Series) t :
  (t < length a)%nat -> (t < length b)%nat ->
  at_row (zip_with f a b) t = f (at_row a t) (at_row b t).
Proof.
  intros Ha Hb.
  destruct (lookup_lt_is_Some_2 a t Ha) as [x Hx].
  destruct (lookup_lt_is_Some_2 b t Hb) as [y Hy].
  rewrite (at_row_lookup a t x Hx), (at_row_lookup b t y Hy).
  apply at_row_lookup. rewrite lookup_zip_with, Hx. simpl. rewrite Hy.
  reflexivity.
Qed.

Lemma at_row_rolling w agg (s : Series) t :
  (t < length s)%nat ->
  at_row (rolling w agg s) t
  = if (S t <? w)%nat then NaN else agg (window_at w s t).
Proof.
  intros Ht. apply at_row_lookup. unfold rolling.
  match goal with
  | |- map ?f ?l !! _ = _ => change (map f l) with (f <$> l)
  end.
  rewrite list_lookup_fmap, lookup_seq_lt by exact Ht. reflexivity.
Qed.

Lemma rolling_length w agg (s : Series) : length (rolling w agg s) = length s.
Proof. unfold rolling. rewrite length_map, length_seq. reflexivity. Qed.

Lemma diff_from_length prev (s : Series) : length (diff_from prev s) = length s.
Proof.
  revert prev. induction s as [|x s IH]; intros prev; simpl; [reflexivity|].
  rewrite IH. reflexivity.
Qed.

Lemma diff_length (s : Series) : length (diff s) = length s.
Proof. destruct s; simpl; [reflexivity|]. rewrite diff_from_length. reflexivity. Qed.

Lemma column_length f (df : list Candle) : length (column f df) = length df.
Proof. unfold column. apply length_map. Qed.

Lemma window_at_length w (s : Series) t :
  (w <= S t)%nat -> (t < length s)%nat -> length (window_at w s t) = w.
Proof.
  intros Hw Ht. unfold window_at. rewrite length_take, length_drop. lia.
Qed.

Lemma window_at_Forall (P : fnum -> Prop) w (s : Series) t :
  Forall P s -> Forall P (window_at w s t).
Proof.
  intros H. unfold window_at. apply Forall_take, Forall_drop, H.
Qed.

(** The window ending at row [t] contains row [t]. *)
Lemma window_at_last w (s : Series) t x :
  (0 < w <= S t)%nat -> s !! t = Some x -> x ∈ window_at w s t.
Proof.
  intros Hw Hx. unfold window_at. apply list_elem_of_lookup.
  exists (w - 1)%nat. rewrite lookup_take_lt by lia. rewrite lookup_drop.
  replace (S t - w + (w - 1))%nat with t by lia. exact Hx.
Qed.

(** ** RSI *)

Lemma diff_from_fin (p : Q) (qs : list Q) :
  Forall fin_or_nan (diff_from (Fin p) (map Fin qs)).
Proof.
  revert p. induction qs as [|q qs IH]; intros p; simpl; constructor.
  - exact I.
  - apply IH.
Qed.

Lemma diff_fin (qs : list Q) : Forall fin_or_nan (diff (map Fin qs)).
Proof.
  destruct qs as [|q qs]; simpl; constructor; [exact I|apply diff_from_fin].
Qed.

Lemma gains_nonneg (s : Series) :
  Forall fin_or_nan s ->
  Forall nonneg (where_ s (fun d => d >? Fin 0)%F (Fin 0)).
Proof.
  intros H. unfold where_. apply Forall_map. eapply Forall_impl; [exact H|].
  intros [q| | |] Hx; try (destruct Hx; fail); simpl.
  - destruct (Qle_bool q 0) eqn:E; simpl; [apply Qle_refl|].
    apply Qlt_le_weak, Qnot_le_lt. rewrite <- Qle_bool_iff, E. discriminate.
  - apply Qle_refl.
Qed.

Lemma losses_nonneg (s : Series) :
  Forall fin_or_nan s ->
  Forall nonneg (sneg (where_ s (fun d => d <? Fin 0)%F (Fin 0))).
Proof.
  intros H. unfold sneg, where_. rewrite map_map. apply Forall_map.
  eapply Forall_impl; [exact H|].
  intros [q| | |] Hx; try (destruct Hx; fail); simpl.
  - destruct (Qle_bool 0 q) eqn:E; simpl.
    + apply Qle_refl.
    + assert (q < 0).
      { apply Qnot_le_lt. rewrite <- Qle_bool_iff, E. discriminate. }
      lra.
  - apply Qle_refl.
Qed.

Lemma foldl_fadd_nonneg (w : list fnum) (a : Q) :
  0 <= a -> Forall nonneg w -> nonneg (foldl fadd (Fin a) w).
Proof.
  revert a. induction w as [|x w IH]; intros a Ha Hw; simpl; [exact Ha|].
  inversion Hw as [|? ? Hx Hw']; subst. destruct x as [q| | |]; try (destruct Hx; fail).
  simpl. apply IH; [|exact Hw']. simpl in Hx. lra.
Qed.

Lemma nonneg_not_missing (w : list fnum) :
  Forall nonneg w -> existsb is_missing w = false.
Proof.
  induction 1 as [|x w Hx Hw IH]; simpl; [reflexivity|].
  destruct x; try (destruct Hx; fail). exact IH.
Qed.

Lemma positive_length_ne0 (n : nat) :
  (0 < n)%nat -> Qeq_bool (inject_Z (Z.of_nat n)) 0 = false.
Proof.
  intros Hn. apply not_true_iff_false. rewrite Qeq_bool_iff.
  unfold Qeq. simpl. lia.
Qed.

Lemma window_mean_nonneg (w : list fnum) :
  (0 < length w)%nat -> Forall nonneg w -> nonneg (window_mean w).
Proof.
  intros Hlen Hw. unfold window_mean.
  rewrite nonneg_not_missing by exact Hw.
  pose proof (foldl_fadd_nonneg w 0 (Qle_refl 0) Hw) as Hs.
  unfold fsum. destruct (foldl fadd (Fin 0) w) as [q| | |]; try (destruct Hs; fail).
  simpl. rewrite positive_length_ne0 by exact Hlen. simpl in Hs |- *.
  apply Qle_shift_div_l; [|lra].
  unfold Qlt. simpl. lia.
Qed.

Lemma calculate_indicators_row (df : list Candle) t k :
  df !! t = Some k ->
  exists row,
    calculate_indicators df !! t = Some row /\
    close row = Fin (k_close k) /\
    rsi row = at_row (rsi_column (column k_close df)) t /\
    stoch_k row
      = at_row (stoch_k_column (column k_close df) (column k_low df)
                  (column k_high df)) t /\
    stoch_d row
      = at_row (stoch_d_column (column k_close df) (column k_low df)
                  (column k_high df)) t.
Proof.
  intros Hk. unfold calculate_indicators.
  rewrite list_lookup_imap, Hk. eexists. split; [reflexivity|].
  repeat split.
Qed.

Lemma calculate_indicators_latest (df : list Candle) :
  (50 <= length df)%nat ->
  exists k latest,
    df !! (length df - 1)%nat = Some k /\
    iloc (calculate_indicators df) (-1) = Some latest /\
    calculate_indicators df !! (length df - 1)%nat = Some latest.
Proof.
  intros Hlen.
  destruct (lookup_lt_is_Some_2 df (length df - 1)%nat) as [k Hk]; [lia|].
  destruct (calculate_indicators_row df _ k Hk) as (row & Hrow & _).
  exists k, row. split; [exact Hk|]. split; [|exact Hrow].
  rewrite (iloc_neg _ 1) by (rewrite calculate_indicators_length; lia).
  rewrite calculate_indicators_length. exact Hrow.
Qed.

Lemma rsi_gain_loss_nonneg (df : list Candle) t :
  (13 <= t < length df)%nat ->
  nonneg (at_row (rsi_gain (column k_close df)) t) /\
  nonneg (at_row (rsi_loss (column k_close df)) t).
Proof.
  intros Ht. unfold rsi_gain, rsi_loss.
  assert (Hd : Forall fin_or_nan (diff (column k_close df))).
  { unfold column. rewrite <- (map_map k_close Fin). apply diff_fin. }
  assert (Hl : length (diff (column k_close df)) = length df).
  { rewrite diff_length. apply column_length. }
  rewrite !at_row_rolling
    by (unfold sneg, where_; rewrite ?length_map, Hl; lia).
  replace (S t <? 14)%nat with false by (symmetry; apply Nat.ltb_ge; lia).
  split; apply window_mean_nonneg.
  - rewrite window_at_length; unfold where_; rewrite ?length_map, ?Hl; lia.
  - apply window_at_Forall, gains_nonneg, Hd.
  - rewrite window_at_length; unfold sneg, where_;
      rewrite ?length_map, ?Hl; lia.
  - apply window_at_Forall, losses_nonneg, Hd.
Qed.

Lemma rsi_column_at (df : list Candle) t :
  (t < length df)%nat ->
  at_row (rsi_column (column k_close df)) t
  = rsi_of (at_row (rsi_gain (column k_close df)) t
            / at_row (rsi_loss (column k_close df)) t)%F.
Proof.
  intros Ht. unfold rsi_column.
  assert (Hg : length (rsi_gain (column k_close df)) = length df).
  { unfold rsi_gain, where_.
    rewrite rolling_length, length_map, diff_length. apply column_length. }
  assert (Hl : length (rsi_loss (column k_close df)) = length df).
  { unfold rsi_loss, sneg, where_.
    rewrite rolling_length, !length_map, diff_length. apply column_length. }
  rewrite at_row_map
    by (unfold sdiv; rewrite length_zip_with, Hg, Hl; lia).
  unfold sdiv. rewrite at_row_zip_with by lia. reflexivity.
Qed.

Lemma Qsgn_pos (q : Q) : 0 < q -> signed_inf (Qsgn q) = PInf.
Proof.
  destruct q as [n d]. unfold Qlt, Qsgn. simpl. intros H.
  destruct n; simpl; try reflexivity; lia.
Qed.

Lemma Qsgn_zero (q : Q) : q == 0 -> signed_inf (Qsgn q) = NaN.
Proof.
  destruct q as [n d]. unfold Qeq, Qsgn. simpl. intros H.
  destruct n; simpl; try reflexivity; lia.
Qed.

(** The RSI of an average gain [g] and an average loss [l]. *)
Lemma rsi_of_cases (g l : Q) :
  0 <= g -> 0 <= l ->
  (l == 0 -> 0 < g -> feqv (rsi_of (Fin g / Fin l)%F) (Fin 100)) /\
  (l == 0 -> g == 0 -> rsi_of (Fin g / Fin l)%F = NaN) /\
  (~ l == 0 -> in_range 0 100 (rsi_of (Fin g / Fin l)%F)).
Proof.
  intros Hg Hl. unfold rsi_of. split; [|split].
  - intros Hl0 Hg0. simpl.
    rewrite (proj2 (Qeq_bool_iff l 0) Hl0), (Qsgn_pos g Hg0). simpl. lra.
  - intros Hl0 Hg0. simpl.
    rewrite (proj2 (Qeq_bool_iff l 0) Hl0), (Qsgn_zero g Hg0). reflexivity.
  - intros Hl0. simpl.
    assert (El : Qeq_bool l 0 = false)
      by (apply not_true_iff_false; rewrite Qeq_bool_iff; exact Hl0).
    rewrite El.
    assert (Hr : 0 <= g / l).
    { apply Qle_shift_div_l; [|lra].
      destruct (Qlt_le_dec 0 l) as [H|H]; [exact H|].
      exfalso. apply Hl0. lra. }
    simpl.
    assert (Hd : ~ 1 + g / l == 0) by lra.
    destruct (Qeq_bool (1 + g / l) 0) eqn:E;
      [apply Qeq_bool_iff in E; contradiction|].
    simpl. split.
    + assert (100 / (1 + g / l) <= 100); [|lra].
      apply Qle_shift_div_r; lra.
    + assert (0 <= 100 / (1 + g / l)); [|lra].
      apply Qle_shift_div_l; lra.
Qed.

(** ** Stochastic oscillator *)

Lemma column_is_fin f (df : list Candle) : Forall is_fin (column f df).
Proof. unfold column. apply Forall_map, Forall_forall. intros; exact I. Qed.

Lemma column_lookup f (df : list Candle) t k :
  df !! t = Some k -> column f df !! t = Some (Fin (f k)).
Proof.
  intros Hk. unfold column.
  change (map ?g df) with (g <$> df). rewrite list_lookup_fmap, Hk. reflexivity.
Qed.

Lemma fin_not_missing (w : list fnum) :
  Forall is_fin w -> existsb is_missing w = false.
Proof.
  induction 1 as [|x w Hx Hw IH]; simpl; [reflexivity|].
  destruct x; try (destruct Hx; fail). exact IH.
Qed.

Lemma foldl_fmin2_fin (a : Q) (w : list fnum) :
  Forall is_fin w ->
  exists m, foldl fmin2 (Fin a) w = Fin m /\ m <= a /\
            forall q, Fin q ∈ w -> m <= q.
Proof.
  revert a. induction w as [|x w IH]; intros a Hw.
  - exists a. split; [reflexivity|]. split; [apply Qle_refl|].
    intros q Hq. inversion Hq.
  - inversion Hw as [|? ? Hx Hw']; subst.
    destruct x as [q| | |]; try (destruct Hx; fail).
    simpl foldl. unfold fmin2 at 2.
    destruct (Fin q <? Fin a)%F eqn:E.
    + apply flt_Fin in E. destruct (IH q Hw') as (m & Hm & Hle & Hall).
      exists m. split; [exact Hm|]. split; [lra|].
      intros q' Hq'. apply elem_of_cons in Hq' as [Heq|Hin].
      * injection Heq as ->. exact Hle.
      * apply Hall, Hin.
    + apply flt_Fin_false in E. destruct (IH a Hw') as (m & Hm & Hle & Hall).
      exists m. split; [exact Hm|]. split; [exact Hle|].
      intros q' Hq'. apply elem_of_cons in Hq' as [Heq|Hin].
      * injection Heq as ->. lra.
      * apply Hall, Hin.
Qed.

Lemma foldl_fmax2_fin (a : Q) (w : list fnum) :
  Forall is_fin w ->
  exists m, foldl fmax2 (Fin a) w = Fin m /\ a <= m /\
            forall q, Fin q ∈ w -> q <= m.
Proof.
  revert a. induction w as [|x w IH]; intros a Hw.
  - exists a. split; [reflexivity|]. split; [apply Qle_refl|].
    intros q Hq. inversion Hq.
  - inversion Hw as [|? ? Hx Hw']; subst.
    destruct x as [q| | |]; try (destruct Hx; fail).
    simpl foldl. unfold fmax2 at 2.
    destruct (Fin a <? Fin q)%F eqn:E.
    + apply flt_Fin in E. destruct (IH q Hw') as (m & Hm & Hle & Hall).
      exists m. split; [exact Hm|]. split; [lra|].
      intros q' Hq'. apply elem_of_cons in Hq' as [Heq|Hin].
      * injection Heq as ->. exact Hle.
      * apply Hall, Hin.
    + apply flt_Fin_false in E. destruct (IH a Hw') as (m & Hm & Hle & Hall).
      exists m. split; [exact Hm|]. split; [exact Hle|].
      intros q' Hq'. apply elem_of_cons in Hq' as [Heq|Hin].
      * injection Heq as ->. lra.
      * apply Hall, Hin.
Qed.

Lemma window_min_fin (w : list fnum) :
  Forall is_fin w -> (0 < length w)%nat ->
  exists m, window_min w = Fin m /\ forall q, Fin q ∈ w -> m <= q.
Proof.
  intros Hw Hlen. unfold window_min. rewrite fin_not_missing by exact Hw.
  destruct w as [|x w]; [simpl in Hlen; lia|].
  inversion Hw as [|? ? Hx Hw']; subst.
  destruct x as [a| | |]; try (destruct Hx; fail).
  destruct (foldl_fmin2_fin a w Hw') as (m & Hm & Hle & Hall).
  exists m. split; [exact Hm|].
  intros q Hq. apply elem_of_cons in Hq as [Heq|Hin].
  - injection Heq as ->. exact Hle.
  - apply Hall, Hin.
Qed.

Lemma window_max_fin (w : list fnum) :
  Forall is_fin w -> (0 < length w)%nat ->
  exists m, window_max w = Fin m /\ forall q, Fin q ∈ w -> q <= m.
Proof.
  intros Hw Hlen. unfold window_max. rewrite fin_not_missing by exact Hw.
  destruct w as [|x w]; [simpl in Hlen; lia|].
  inversion Hw as [|? ? Hx Hw']; subst.
  destruct x as [a| | |]; try (destruct Hx; fail).
  destruct (foldl_fmax2_fin a w Hw') as (m & Hm & Hle & Hall).
  exists m. split; [exact Hm|].
  intros q Hq. apply elem_of_cons in Hq as [Heq|Hin].
  - injection Heq as ->. exact Hle.
  - apply Hall, Hin.
Qed.

(** The 14-row low and high at a ready row bracket that row's own low and
    high. *)
Lemma low_high_14_at (df : list Candle) t k :
  (13 <= t)%nat -> df !! t = Some k ->
  exists m M,
    at_row (low_min_column (column k_low df)) t = Fin m /\
    at_row (high_max_column (column k_high df)) t = Fin M /\
    m <= k_low k /\ k_high k <= M.
Proof.
  intros Ht Hk. assert (Hlt : (t < length df)%nat) by (eapply lookup_lt_Some, Hk).
  unfold low_min_column, high_max_column.
  rewrite !at_row_rolling by (rewrite column_length; exact Hlt).
  replace (S t <? 14)%nat with false by (symmetry; apply Nat.ltb_ge; lia).
  destruct (window_min_fin (window_at 14 (column k_low df) t))
    as (m & Hm & Hmall).
  { apply window_at_Forall, column_is_fin. }
  { rewrite window_at_length; rewrite ?column_length; lia. }
  destruct (window_max_fin (window_at 14 (column k_high df) t))
    as (M & HM & HMall).
  { apply window_at_Forall, column_is_fin. }
  { rewrite window_at_length; rewrite ?column_length; lia. }
  exists m, M. split; [exact Hm|]. split; [exact HM|]. split.
  - apply Hmall. apply window_at_last; [lia|]. apply column_lookup, Hk.
  - apply HMall. apply window_at_last; [lia|]. apply column_lookup, Hk.
Qed.

Lemma stoch_k_column_at (df : list Candle) t k :
  df !! t = Some k ->
  at_row (stoch_k_column (column k_close df) (column k_low df)
            (column k_high df)) t
  = (Fin 100
     * ((Fin (k_close k) - at_row (low_min_column (column k_low df)) t)
        / (at_row (high_max_column (column k_high df)) t
           - at_row (low_min_column (column k_low df)) t)))%F.
Proof.
  intros Hk. assert (Hlt : (t < length df)%nat) by (eapply lookup_lt_Some, Hk).
  unfold stoch_k_column, sscale, sdiv, ssub, low_min_column, high_max_column.
  rewrite at_row_map
    by (rewrite !length_zip_with, !rolling_length, !column_length; lia).
  rewrite at_row_zip_with
    by (rewrite !length_zip_with, !rolling_length, !column_length; lia).
  rewrite !at_row_zip_with
    by (rewrite ?rolling_length, !column_length; lia).
  rewrite (at_row_lookup _ _ _ (column_lookup k_close df t k Hk)).
  reflexivity.
Qed.

Lemma stoch_k_value_range (c m M : Q) :
  m <= c <= M ->
  (M == m -> stoch_k_value c m M = NaN) /\
  (~ M == m -> in_range 0 100 (stoch_k_value c m M)).
Proof.
  intros [Hlo Hhi]. unfold stoch_k_value. simpl. split.
  - intros HMm.
    assert (E : Qeq_bool (M - m) 0 = true) by (apply Qeq_bool_iff; lra).
    rewrite E, Qsgn_zero by lra. reflexivity.
  - intros HMm.
    assert (E : Qeq_bool (M - m) 0 = false)
      by (apply not_true_iff_false; rewrite Qeq_bool_iff; lra).
    rewrite E. simpl.
    assert (Hpos : 0 < M - m).
    { destruct (Qlt_le_dec m M) as [H|H]; [lra|]. exfalso. apply HMm. lra. }
    assert (0 <= (c - m) / (M - m)) by (apply Qle_shift_div_l; lra).
    assert ((c - m) / (M - m) <= 1) by (apply Qle_shift_div_r; lra).
    lra.
Qed.

(** With an empty range %K is NaN or an infinity, whatever the close. *)
Lemma stoch_k_value_undefined (c m M : Q) :
  M == m ->
  stoch_k_value c m M = NaN \/ stoch_k_value c m M = PInf \/
  stoch_k_value c m M = NInf.
Proof.
  intros HMm. unfold stoch_k_value. simpl.
  assert (E : Qeq_bool (M - m) 0 = true) by (apply Qeq_bool_iff; lra).
  rewrite E.
  destruct (c - m) as [[|n|n] d]; simpl; auto.
Qed.

Lemma stoch_k_percent (df : list Candle) t :
  Forall candle_ok df -> (13 <= t < length df)%nat ->
  nan_or_percent
    (at_row (stoch_k_column (column k_close df) (column k_low df)
               (column k_high df)) t).
Proof.
  intros Hok [Ht Hlt].
  destruct (lookup_lt_is_Some_2 df t Hlt) as [k Hk].
  destruct (low_high_14_at df t k Ht Hk) as (m & M & Hm & HM & Hlo & Hhi).
  rewrite (stoch_k_column_at df t k Hk), Hm, HM.
  assert (Hc : candle_ok k).
  { rewrite Forall_lookup in Hok. exact (Hok t k Hk). }
  destruct Hc as [Hc1 Hc2].
  destruct (stoch_k_value_range (k_close k) m M) as [Hnan Hrange]; [lra|].
  change (nan_or_percent (stoch_k_value (k_close k) m M)).
  destruct (Qeq_dec M m) as [E|E]; [left; auto|right; auto].
Qed.

Lemma foldl_fadd_percent (w : list fnum) (a : Q) :
  Forall (in_range 0 100) w ->
  exists s, foldl fadd (Fin a) w = Fin s /\ a <= s /\
            s <= a + 100 * inject_Z (Z.of_nat (length w)).
Proof.
  revert a. induction w as [|x w IH]; intros a Hw.
  - exists a. split; [reflexivity|].
    change (inject_Z (Z.of_nat (length (@nil fnum)))) with 0. lra.
  - inversion Hw as [|? ? Hx Hw']; subst.
    destruct x as [q| | |]; try (destruct Hx; fail). destruct Hx as [Hq0 Hq1].
    destruct (IH (a + q) Hw') as (s & Hs & Hlo & Hhi).
    exists s. split; [exact Hs|]. split; [lra|].
    cbn [length]. rewrite Nat2Z.inj_succ, <- Z.add_1_r, inject_Z_plus.
    change (inject_Z 1) with 1. lra.
Qed.

Lemma window_mean_percent (w : list fnum) :
  (0 < length w)%nat -> Forall nan_or_percent w ->
  nan_or_percent (window_mean w).
Proof.
  intros Hlen Hw. unfold window_mean.
  destruct (existsb is_missing w) eqn:E; [left; reflexivity|]. right.
  assert (Hr : Forall (in_range 0 100) w).
  { rewrite Forall_forall in Hw |- *. intros x Hx.
    destruct (Hw x Hx) as [->|H]; [|exact H].
    exfalso. apply not_true_iff_false in E. apply E.
    apply existsb_exists. exists NaN. split; [|reflexivity].
    apply list_elem_of_In, Hx. }
  destruct (foldl_fadd_percent w 0 Hr) as (s & Hs & Hlo & Hhi).
  unfold fsum. rewrite Hs. simpl.
  rewrite positive_length_ne0 by exact Hlen. simpl.
  assert (Hn : 0 < inject_Z (Z.of_nat (length w))).
  { unfold Qlt. simpl. lia. }
  split.
  - apply Qle_shift_div_l; lra.
  - apply Qle_shift_div_r; lra.
Qed.

Lemma stoch_d_percent (df : list Candle) t :
  Forall candle_ok df -> (15 <= t < length df)%nat ->
  nan_or_percent
    (at_row (stoch_d_column (column k_close df) (column k_low df)
               (column k_high df)) t).
Proof.
  intros Hok [Ht Hlt]. unfold stoch_d_column.
  assert (HK : length (stoch_k_column (column k_close df) (column k_low df)
                         (column k_high df)) = length df).
  { unfold stoch_k_column, sscale, sdiv, ssub, low_min_column, high_max_column.
    rewrite length_map, !length_zip_with, !rolling_length, !column_length. lia. }
  rewrite at_row_rolling by (rewrite HK; exact Hlt).
  replace (S t <? 3)%nat with false by (symmetry; apply Nat.ltb_ge; lia).
  apply window_mean_percent.
  - rewrite window_at_length; rewrite ?HK; lia.
  - apply Forall_lookup. intros i x Hi. unfold window_at in Hi.
    apply lookup_take_Some in Hi as [Hi Hi3]. rewrite lookup_drop in Hi.
    rewrite <- (at_row_lookup _ _ _ Hi).
    apply stoch_k_percent; [exact Hok|]. lia.
Qed.

(** On the frozen market the 14-row average loss is 0 and the RSI is NaN,
    not 100; %K and %D are NaN as well.  And where a candle closes above
    its high (which [calculate_indicators] does not exclude) %K leaves
    [0, 100]. *)
Lemma indicators_undefined_on_frozen_market :
  (exists latest,
     (50 <= length frozen_market)%nat /\
     iloc (calculate_indicators frozen_market) (-1) = Some latest /\
     feqv (at_row (rsi_loss (column k_close frozen_market)) 49) (Fin 0) /\
     rsi latest = NaN /\ stoch_k latest = NaN /\ stoch_d latest = NaN /\
     ~ in_range 0 100 (rsi latest) /\ ~ in_range 0 100 (stoch_k latest) /\
     ~ in_range 0 100 (stoch_d latest)) /\
  (exists latest,
     (50 <= length close_above_high)%nat /\
     iloc (calculate_indicators close_above_high) (-1) = Some latest /\
     feqv (stoch_k latest) (Fin 200) /\
     ~ in_range 0 100 (stoch_k latest)).
Proof.
  split.
  - eexists. split; [vm_compute; lia|].
    split; [vm_compute; reflexivity|].
    split; [vm_compute; reflexivity|].
    repeat (split; [reflexivity|]).
    repeat split; intros H; exact H.
  - eexists. split; [vm_compute; lia|].
    split; [vm_compute; reflexivity|].
    split; [vm_compute; reflexivity|].
    cbn [stoch_k in_range]. intros [_ H]. revert H. vm_compute.
    intros H. apply H. reflexivity.
Qed.

(** C4 (amended).  On every ready row (index 49 or more) of a candle
    series the indicator computation raises no error and the RSI is NaN
    or lies in [0, 100]: the 14-row average gain and loss are finite and
    not negative; with a zero average loss the RSI is 100 when the average
    gain is positive and NaN when it is zero too; with a non-zero average
    loss it lies in [0, 100].  When every candle closes between its low
    and its high, %K is NaN if the 14-row high equals the 14-row low and
    lies in [0, 100] otherwise, and %D is NaN or lies in [0, 100].  The
    last row of the series is the row [df.iloc[-1]] the evaluators read. *)
Theorem indicator_ranges (df : list Candle) (t : nat) :
  (49 <= t < length df)%nat ->
  exists row g l m M,
    calculate_indicators df !! t = Some row /\
    (t = (length df - 1)%nat ->
     iloc (calculate_indicators df) (-1) = Some row) /\
    at_row (rsi_gain (column k_close df)) t = Fin g /\
    at_row (rsi_loss (column k_close df)) t = Fin l /\
    at_row (low_min_column (column k_low df)) t = Fin m /\
    at_row (high_max_column (column k_high df)) t = Fin M /\
    0 <= g /\ 0 <= l /\
    (l == 0 -> 0 < g -> feqv (rsi row) (Fin 100)) /\
    (l == 0 -> g == 0 -> rsi row = NaN) /\
    (~ l == 0 -> in_range 0 100 (rsi row)) /\
    nan_or_percent (rsi row) /\
    (Forall candle_ok df ->
     (M == m -> stoch_k row = NaN) /\
     (~ M == m -> in_range 0 100 (stoch_k row)) /\
     nan_or_percent (stoch_d row)).
Proof.
  intros [Ht Hlt].
  destruct (lookup_lt_is_Some_2 df t Hlt) as [k Hk].
  destruct (calculate_indicators_row df t k Hk)
    as (row & Hrow & _ & Hrsi & Hsk & Hsd).
  destruct (rsi_gain_loss_nonneg df t) as [Hg Hl]; [lia|].
  destruct (low_high_14_at df t k) as (m & M & Hm & HM & Hlo & Hhi);
    [lia|exact Hk|].
  rewrite rsi_column_at in Hrsi by lia.
  destruct (at_row (rsi_gain (column k_close df)) t)
    as [g| | |]; try (destruct Hg; fail).
  destruct (at_row (rsi_loss (column k_close df)) t)
    as [l| | |]; try (destruct Hl; fail).
  simpl in Hg, Hl.
  destruct (rsi_of_cases g l Hg Hl) as (H100 & Hnan & Hrange).
  exists row, g, l, m, M. rewrite Hrsi.
  split; [exact Hrow|]. split.
  { intros ->.
    rewrite (iloc_neg _ 1) by (rewrite calculate_indicators_length; lia).
    rewrite calculate_indicators_length. exact Hrow. }
  repeat (split; [first [assumption|reflexivity]|]).
  split.
  { destruct (Qeq_dec l 0) as [El|El]; [|right; auto].
    destruct (Qlt_le_dec 0 g) as [Eg|Eg].
    - right. specialize (H100 El Eg).
      destruct (rsi_of (Fin g / Fin l)%F); try (destruct H100; fail).
      simpl in H100 |- *. lra.
    - left. apply Hnan; [exact El|lra]. }
  intros Hok.
  assert (Hc : candle_ok k).
  { rewrite Forall_lookup in Hok. exact (Hok _ k Hk). }
  destruct Hc as [Hc1 Hc2].
  destruct (stoch_k_value_range (k_close k) m M) as [Hknan Hkrange]; [lra|].
  rewrite Hsk, Hsd, (stoch_k_column_at df _ k Hk), Hm, HM.
  split; [exact Hknan|]. split; [exact Hkrange|].
  apply stoch_d_percent; [exact Hok|lia].
Qed.

Lemma indicator_ranges_witness :
  exists latest,
    iloc (calculate_indicators falling_after_flat) (-1) = Some latest /\
    nan_or_percent (rsi latest).
Proof.
  destruct (indicator_ranges falling_after_flat 49)
    as (latest & g & l & m & M & _ & Hlast & H).
  - vm_compute. lia.
  - exists latest. split; [apply Hlast; reflexivity|]. tauto.
Defined.

(** ** An empty 14-row range *)

Lemma undefined_stoch_k_no_entry (k d pk pd e20 e50 : fnum) :
  k = NaN \/ k = PInf \/ k = NInf ->
  (k <? Fin 30)%F && (k >? d)%F && (pk <=? pd)%F && (e20 >? e50)%F = false.
Proof.
  intros [->|[->| ->]]; try reflexivity.
  unfold fgt. destruct d; reflexivity.
Qed.

(** C8.  When the 14-row high equals the 14-row low at the latest row, the
    stochastic-crossover evaluator reports entry = false, and nothing in
    the computation raises: the frame is computed, the latest %K is NaN
    or an infinity instead of a number, and the evaluator returns its
    pair.  When every candle closes between its low and its high the
    latest %K is NaN and the evaluator returns (false, false). *)
Theorem flat_range_suppresses_entry (df : list Candle) :
  feqv (at_row (high_max_column (column k_high df)) (length df - 1))
       (at_row (low_min_column (column k_low df)) (length df - 1)) ->
  (exists exit_signal,
     sol_stoch_signal (calculate_indicators df) = Some (false, exit_signal)) /\
  ((50 <= length df)%nat ->
   exists latest,
     iloc (calculate_indicators df) (-1) = Some latest /\
     (stoch_k latest = NaN \/ stoch_k latest = PInf \/ stoch_k latest = NInf) /\
     (Forall candle_ok df ->
      stoch_k latest = NaN /\
      sol_stoch_signal (calculate_indicators df) = Some (false, false))).
Proof.
  intros Hflat.
  destruct (Nat.lt_ge_cases (length df) 50) as [Hs|Hl].
  { split; [|lia]. exists false. unfold sol_stoch_signal.
    rewrite short_frame by (rewrite calculate_indicators_length; exact Hs).
    reflexivity. }
  destruct (calculate_indicators_latest df Hl) as (k & latest & Hk & Hiloc & Hrow).
  destruct (calculate_indicators_row df _ k Hk)
    as (row & Hrow' & _ & _ & Hsk & _).
  assert (row = latest) as -> by congruence.
  destruct (low_high_14_at df (length df - 1) k) as (m & M & Hm & HM & Hlo & Hhi);
    [lia|exact Hk|].
  rewrite Hm, HM in Hflat. simpl in Hflat.
  rewrite (stoch_k_column_at df _ k Hk), Hm, HM in Hsk.
  change (stoch_k latest = stoch_k_value (k_close k) m M) in Hsk.
  pose proof (stoch_k_value_undefined (k_close k) m M Hflat) as Hundef.
  rewrite <- Hsk in Hundef.
  assert (Hlen : (50 <= length (calculate_indicators df))%nat)
    by (rewrite calculate_indicators_length; exact Hl).
  destruct (rows_available _ Hlen) as (r1 & r2 & r4 & r10 & H1 & H2 & H4 & H10).
  assert (r1 = latest) as -> by congruence.
  pose proof (sol_stoch_signal_rows _ latest r2 Hlen H1 H2) as Hsig.
  rewrite undefined_stoch_k_no_entry in Hsig by exact Hundef.
  split; [eauto|]. intros _. exists latest.
  split; [exact Hiloc|]. split; [exact Hundef|].
  intros Hok.
  assert (Hc : candle_ok k).
  { rewrite Forall_lookup in Hok. exact (Hok _ k Hk). }
  destruct Hc as [Hc1 Hc2].
  destruct (stoch_k_value_range (k_close k) m M) as [Hknan _]; [lra|].
  rewrite <- Hsk in Hknan. specialize (Hknan Hflat).
  split; [exact Hknan|]. rewrite Hsig, Hknan. reflexivity.
Qed.

Lemma flat_range_suppresses_entry_witness :
  exists exit_signal,
    sol_stoch_signal (calculate_indicators frozen_market)
    = Some (false, exit_signal).
Proof.
  apply (flat_range_suppresses_entry frozen_market).
  vm_compute. reflexivity.
Defined.

(** ** Profit and loss of a close *)

(** C1 (the code departs from the claim).  Four ticks of the main loop:
    ADA_RSI is opened while the capital is 10000, SOL_STOCH is opened,
    SOL_STOCH is closed with a profit while ADA_RSI is open, ADA_RSI is
    closed.  The [pnl_pct] recorded for ADA_RSI is the claimed one, but
    the recorded [pnl_usd] is the claimed formula evaluated with the
    capital at the moment of the close, not with the 10000 the position
    was opened on.  Both bots behave this way. *)
Theorem pnl_usd_uses_capital_at_close :
  (exists s1 s2 s3 s4 sol_trade ada_trade,
     SimulationTradingBot.run_strategy init "ADA_RSI" ADA_RSI_config
       (Some dip_entry) 1 = Some s1 /\
     SimulationTradingBot.run_strategy s1 "SOL_STOCH" SOL_STOCH_config
       (Some dip_entry) 1 = Some s2 /\
     SimulationTradingBot.run_strategy s2 "SOL_STOCH" SOL_STOCH_config
       (Some dip_then_290) 2 = Some s3 /\
     SimulationTradingBot.run_strategy s3 "ADA_RSI" ADA_RSI_config
       (Some dip_then_300) 3 = Some s4 /\
     capital init = Fin 10000 /\
     is_Some (positions s1 !! "ADA_RSI") /\
     is_Some (positions s3 !! "ADA_RSI") /\
     ~ feqv (capital s3) (Fin 10000) /\
     trades s4 = [sol_trade; ada_trade] /\
     Trade.strategy ada_trade = "ADA_RSI" /\
     pnl_pct_matches ADA_RSI_config ada_trade /\
     pnl_usd_matches (capital s3) ADA_RSI_config ada_trade /\
     ~ pnl_usd_matches (Fin 10000) ADA_RSI_config ada_trade) /\
  (exists s1 s2 s3 s4 sol_trade ada_trade,
     TradingBot.run_strategy filling_exchange init "ADA_RSI" ADA_RSI_config
       (Some dip_entry) 1 = Some s1 /\
     TradingBot.run_strategy filling_exchange s1 "SOL_STOCH" SOL_STOCH_config
       (Some dip_entry) 1 = Some s2 /\
     TradingBot.run_strategy filling_exchange s2 "SOL_STOCH" SOL_STOCH_config
       (Some dip_then_290) 2 = Some s3 /\
     TradingBot.run_strategy filling_exchange s3 "ADA_RSI" ADA_RSI_config
       (Some dip_then_300) 3 = Some s4 /\
     capital init = Fin 10000 /\
     is_Some (positions s1 !! "ADA_RSI") /\
     is_Some (positions s3 !! "ADA_RSI") /\
     ~ feqv (capital s3) (Fin 10000) /\
     trades s4 = [sol_trade; ada_trade] /\
     Trade.strategy ada_trade = "ADA_RSI" /\
     pnl_pct_matches ADA_RSI_config ada_trade /\
     pnl_usd_matches (capital s3) ADA_RSI_config ada_trade /\
     ~ pnl_usd_matches (Fin 10000) ADA_RSI_config ada_trade).
Proof.
  split; eexists _, _, _, _, _, _.
  all: do 4 (split; [vm_compute; reflexivity|]).
  all: split; [reflexivity|].
  all: do 2 (split; [vm_compute; eexists; reflexivity|]).
  all: split; [vm_compute; intros H; discriminate H|].
  all: split; [vm_compute; reflexivity|].
  all: split; [reflexivity|].
  all: do 2 (split; [vm_compute; reflexivity|]).
  all: vm_compute; intros H; discriminate H.
Qed.

(** * Further properties *)

(** ** When [run_strategy] raises, and when it skips *)

Lemma strategy_function_total name f (df : DataFrame) :
  STRATEGY_FUNCTIONS name = Some f -> exclusive (f df).
Proof.
  unfold STRATEGY_FUNCTIONS.
  repeat case_decide; intros Hf; inversion Hf; subst;
    auto using ada_rsi_signal_exclusive, sol_stoch_signal_exclusive,
      xrp_adx_signal_exclusive.
Qed.

Lemma frame_price (df : DataFrame) :
  (50 <= length df)%nat -> is_Some (iloc (map close df) (-1)).
Proof.
  intros H. apply (iloc_neg_is_Some _ 1). rewrite length_map. lia.
Qed.

Lemma check_position_exits_is_Some s name config price :
  is_Some (check_position_exits s name config price)
  <-> is_Some (positions s !! name).
Proof.
  split.
  - intros [[s' r] H].
    destruct (check_position_exits_state _ _ _ _ _ _ H) as (p & Hp & _). eauto.
  - intros [pos Hp].
    destruct (check_position_exits_verdict s name config price pos Hp)
      as (s1 & pos1 & Hc & _). eauto.
Qed.

Lemma sim_run_strategy_known s name config ohlcv now f :
  STRATEGY_FUNCTIONS name = Some f ->
  is_Some (SimulationTradingBot.run_strategy s name config ohlcv now).
Proof.
  intros Hf. unfold SimulationTradingBot.run_strategy.
  destruct (negb (StrategyConfig.enabled config)); [eauto|].
  destruct (fetch_data ohlcv) as [df|]; [|eauto].
  destruct (length df <? 50)%nat eqn:Hlen; [eauto|].
  apply Nat.ltb_ge in Hlen.
  destruct (frame_price df Hlen) as [price ->]. rewrite Hf.
  destruct (strategy_function_total name f df Hf) as (e & x & Hfx & _).
  cbn [mbind option_bind].
  destruct (positions s !! name) as [pos|] eqn:Hp.
  - destruct (check_position_exits_verdict s name config price pos Hp)
      as (s1 & pos1 & -> & _).
    cbn [mbind option_bind]. rewrite Hfx. cbn [mbind option_bind].
    destruct (_ || x); eauto.
  - rewrite Hfx. cbn [mbind option_bind]. destruct e; eauto.
Qed.

Lemma live_run_strategy_known ex s name config ohlcv now f :
  STRATEGY_FUNCTIONS name = Some f ->
  is_Some (TradingBot.run_strategy ex s name config ohlcv now).
Proof.
  intros Hf. unfold TradingBot.run_strategy.
  destruct (negb (StrategyConfig.enabled config)); [eauto|].
  destruct (fetch_data ohlcv) as [df|]; [|eauto].
  destruct (length df <? 50)%nat eqn:Hlen; [eauto|].
  apply Nat.ltb_ge in Hlen.
  destruct (frame_price df Hlen) as [price ->]. rewrite Hf.
  destruct (strategy_function_total name f df Hf) as (e & x & Hfx & _).
  cbn [mbind option_bind].
  destruct (positions s !! name) as [pos|] eqn:Hp.
  - destruct (check_position_exits_verdict s name config price pos Hp)
      as (s1 & pos1 & -> & _).
    cbn [mbind option_bind]. rewrite Hfx. cbn [mbind option_bind].
    destruct (_ || x); eauto.
  - rewrite Hfx. cbn [mbind option_bind]. destruct e; eauto.
Qed.

Lemma tick_skipped_dec config ohlcv :
  tick_skipped config ohlcv \/
  (StrategyConfig.enabled config = true /\
   exists df, ohlcv = Some df /\ (50 <= length df)%nat).
Proof.
  unfold tick_skipped.
  destruct (StrategyConfig.enabled config); [|auto].
  destruct ohlcv as [df|]; [|auto].
  destruct (Nat.lt_ge_cases (length df) 50); [left|right]; eauto 6.
Qed.

Lemma sim_run_strategy_skipped s name config ohlcv now :
  tick_skipped config ohlcv ->
  SimulationTradingBot.run_strategy s name config ohlcv now = Some s.
Proof.
  unfold SimulationTradingBot.run_strategy.
  intros [->|[->|(df & -> & Hlen)]]; [reflexivity| |].
  - destruct (negb _); reflexivity.
  - destruct (negb _); [reflexivity|].
    cbn [fetch_data fmap option_fmap option_map].
    rewrite short_frame by (rewrite calculate_indicators_length; exact Hlen).
    reflexivity.
Qed.

Lemma live_run_strategy_skipped ex s name config ohlcv now :
  tick_skipped config ohlcv ->
  TradingBot.run_strategy ex s name config ohlcv now = Some s.
Proof.
  unfold TradingBot.run_strategy.
  intros [->|[->|(df & -> & Hlen)]]; [reflexivity| |].
  - destruct (negb _); reflexivity.
  - destruct (negb _); [reflexivity|].
    cbn [fetch_data fmap option_fmap option_map].
    rewrite short_frame by (rewrite calculate_indicators_length; exact Hlen).
    reflexivity.
Qed.

Lemma sim_run_strategy_unknown s name config df now :
  StrategyConfig.enabled config = true -> (50 <= length df)%nat ->
  STRATEGY_FUNCTIONS name = None ->
  SimulationTradingBot.run_strategy s name config (Some df) now = None.
Proof.
  intros Hen Hlen Hf. unfold SimulationTradingBot.run_strategy.
  rewrite Hen. cbn [negb fetch_data fmap option_fmap option_map].
  rewrite long_frame by (rewrite calculate_indicators_length; exact Hlen).
  destruct (frame_price (calculate_indicators df)) as [price ->];
    [rewrite calculate_indicators_length; exact Hlen|].
  rewrite Hf. reflexivity.
Qed.

Lemma live_run_strategy_unknown ex s name config df now :
  StrategyConfig.enabled config = true -> (50 <= length df)%nat ->
  STRATEGY_FUNCTIONS name = None ->
  TradingBot.run_strategy ex s name config (Some df) now = None.
Proof.
  intros Hen Hlen Hf. unfold TradingBot.run_strategy.
  rewrite Hen. cbn [negb fetch_data fmap option_fmap option_map].
  rewrite long_frame by (rewrite calculate_indicators_length; exact Hlen).
  destruct (frame_price (calculate_indicators df)) as [price ->];
    [rewrite calculate_indicators_length; exact Hlen|].
  rewrite Hf. reflexivity.
Qed.

(** X1.  [run_strategy] lets an exception escape in one situation only:
    an enabled strategy whose name has no entry in [STRATEGY_FUNCTIONS],
    on a tick with at least 50 candles (the KeyError of the lookup).  For
    every name of the table, so for every configured strategy, it returns
    normally whatever the exchange delivers and whatever the state.  Both
    bots. *)
Theorem run_strategy_raises_iff name config ohlcv :
  (forall s now,
     SimulationTradingBot.run_strategy s name config ohlcv now = None <->
     (StrategyConfig.enabled config = true /\
      (exists df, ohlcv = Some df /\ (50 <= length df)%nat) /\
      STRATEGY_FUNCTIONS name = None)) /\
  (forall ex s now,
     TradingBot.run_strategy ex s name config ohlcv now = None <->
     (StrategyConfig.enabled config = true /\
      (exists df, ohlcv = Some df /\ (50 <= length df)%nat) /\
      STRATEGY_FUNCTIONS name = None)).
Proof.
  split.
  - intros s now. split.
    + intros Hnone.
      destruct (tick_skipped_dec config ohlcv) as [Hskip|(Hen & df & -> & Hlen)].
      { rewrite sim_run_strategy_skipped in Hnone by exact Hskip. discriminate. }
      destruct (STRATEGY_FUNCTIONS name) as [f|] eqn:Hf; [|eauto 6].
      destruct (sim_run_strategy_known s name config (Some df) now f Hf)
        as [s' Hs']. congruence.
    + intros (Hen & (df & -> & Hlen) & Hf).
      apply sim_run_strategy_unknown; assumption.
  - intros ex s now. split.
    + intros Hnone.
      destruct (tick_skipped_dec config ohlcv) as [Hskip|(Hen & df & -> & Hlen)].
      { rewrite live_run_strategy_skipped in Hnone by exact Hskip. discriminate. }
      destruct (STRATEGY_FUNCTIONS name) as [f|] eqn:Hf; [|eauto 6].
      destruct (live_run_strategy_known ex s name config (Some df) now f Hf)
        as [s' Hs']. congruence.
    + intros (Hen & (df & -> & Hlen) & Hf).
      apply live_run_strategy_unknown; assumption.
Qed.

Lemma run_strategy_raises_iff_witness :
  SimulationTradingBot.run_strategy init "BTC_MACD" ADA_RSI_config
    (Some falling_after_flat) 0 = None.
Proof.
  apply (proj1 (run_strategy_raises_iff "BTC_MACD" ADA_RSI_config
                  (Some falling_after_flat))).
  split; [reflexivity|]. split; [|reflexivity].
  exists falling_after_flat. split; [reflexivity|]. vm_compute. lia.
Defined.

(** X2.  A disabled strategy, a failed request ([fetch_data] returning
    None) or an answer of fewer than 50 candles makes [run_strategy] return
    with the bot exactly as it was: no position, trade or capital change.
    Both bots, any strategy name. *)
Theorem run_strategy_skips s name config ohlcv now :
  tick_skipped config ohlcv ->
  SimulationTradingBot.run_strategy s name config ohlcv now = Some s /\
  forall ex, TradingBot.run_strategy ex s name config ohlcv now = Some s.
Proof.
  intros H. split; [apply sim_run_strategy_skipped; exact H|].
  intros ex. apply live_run_strategy_skipped. exact H.
Qed.

Lemma run_strategy_skips_witness :
  SimulationTradingBot.run_strategy sim_ada_open "ADA_RSI" ADA_RSI_config
    None 7 = Some sim_ada_open /\
  forall ex,
    TradingBot.run_strategy ex sim_ada_open "ADA_RSI" ADA_RSI_config None 7
    = Some sim_ada_open.
Proof.
  apply (run_strategy_skips sim_ada_open "ADA_RSI" ADA_RSI_config None 7).
  right. left. reflexivity.
Defined.

(** ** One strategy at a time *)

Lemma tick_outcome_others Q name s s' k :
  tick_outcome Q name s s' -> k <> name ->
  positions s' !! k = positions s !! k.
Proof.
  intros [->|Hnone (position & _ & ->)|config price r Hc
          |config price r s1 reason trade Hc [-> _]] Hk.
  - reflexivity.
  - simpl. apply lookup_insert_ne. congruence.
  - destruct (check_position_exits_state _ _ _ _ _ _ Hc) as (p & _ & ->).
    simpl. apply lookup_insert_ne. congruence.
  - destruct (check_position_exits_state _ _ _ _ _ _ Hc) as (p & _ & ->).
    simpl. rewrite lookup_delete_ne by congruence.
    apply lookup_insert_ne. congruence.
Qed.

Lemma highest_kept_same_fields s s' k pos pos' :
  highest_kept s s' ->
  positions s !! k = Some pos -> positions s' !! k = Some pos' ->
  same_but_highest pos pos'.
Proof.
  intros H H1 H2. destruct (H k pos pos' H1 H2) as [[p ->]| ->];
    repeat split.
Qed.

(** X3.  A [run_strategy] call for one strategy leaves the positions of
    every other strategy exactly as they were, and in the strategy's own
    position, if it is still open afterwards, it changes nothing but
    [highest_price]: entry price, amount, leverage, stop-loss and
    take-profit levels, entry time and entry fee are fixed at the open.
    Both bots. *)
Theorem tick_touches_one_position :
  (forall s name config ohlcv now s',
     SimulationTradingBot.run_strategy s name config ohlcv now = Some s' ->
     (forall k, k <> name -> positions s' !! k = positions s !! k) /\
     (forall pos pos', positions s !! name = Some pos ->
                       positions s' !! name = Some pos' ->
                       same_but_highest pos pos')) /\
  (forall ex s name config ohlcv now s',
     TradingBot.run_strategy ex s name config ohlcv now = Some s' ->
     (forall k, k <> name -> positions s' !! k = positions s !! k) /\
     (forall pos pos', positions s !! name = Some pos ->
                       positions s' !! name = Some pos' ->
                       same_but_highest pos pos')).
Proof.
  split.
  - intros s name config ohlcv now s' Hrun.
    pose proof (sim_run_strategy_outcome _ _ _ _ _ _ Hrun) as Hout.
    split.
    + intros k Hk. eapply tick_outcome_others; eassumption.
    + intros pos pos'. eapply highest_kept_same_fields.
      eapply tick_outcome_highest_kept. exact Hout.
  - intros ex s name config ohlcv now s' Hrun.
    pose proof (live_run_strategy_outcome _ _ _ _ _ _ _ Hrun) as Hout.
    split.
    + intros k Hk. eapply tick_outcome_others; eassumption.
    + intros pos pos'. eapply highest_kept_same_fields.
      eapply tick_outcome_highest_kept. exact Hout.
Qed.

Lemma tick_touches_one_position_witness :
  exists s',
    (forall k, k <> "SOL_STOCH" ->
               positions s' !! k = positions sim_ada_open !! k) /\
    (forall pos pos', positions sim_ada_open !! "SOL_STOCH" = Some pos ->
                      positions s' !! "SOL_STOCH" = Some pos' ->
                      same_but_highest pos pos').
Proof.
  eexists.
  eapply (proj1 tick_touches_one_position sim_ada_open "SOL_STOCH"
            SOL_STOCH_config (Some dip_entry) 1%Z).
  vm_compute. reflexivity.
Defined.

(** ** Closing *)

Lemma closed_by_facts s name reason trade s' :
  closed_by s name reason trade s' ->
  positions s' !! name = None /\
  (forall k, k <> name -> positions s' !! k = positions s !! k) /\
  trades s' = trades s ++ [trade] /\
  Trade.strategy trade = name /\ Trade.reason trade = reason.
Proof.
  intros (-> & Hs & Hr). simpl. split; [apply lookup_delete_eq|].
  split; [intros k Hk; apply lookup_delete_ne; congruence|]. auto.
Qed.

Lemma sim_close_without_position s name price reason now :
  positions s !! name = None ->
  SimulationTradingBot.close_position s name price reason now = (s, false).
Proof.
  intros H. unfold SimulationTradingBot.close_position. rewrite H. reflexivity.
Qed.

Lemma live_close_without_position ex s name price reason now :
  positions s !! name = None ->
  TradingBot.close_position ex s name price reason now = (s, false).
Proof.
  intros H. unfold TradingBot.close_position. rewrite H. reflexivity.
Qed.

(** X4.  [close_position] on a strategy without a position returns False
    and leaves the bot as it was (the KeyError is caught).  A close that
    returns True has removed that strategy's position and no other, and
    has appended exactly one trade record, carrying the strategy name and
    the reason passed in; closing the same strategy again then returns
    False and changes nothing.  Both bots. *)
Theorem close_position_once :
  (forall s name price reason now,
     positions s !! name = None ->
     SimulationTradingBot.close_position s name price reason now = (s, false) /\
     forall ex,
       TradingBot.close_position ex s name price reason now = (s, false)) /\
  (forall s name price reason now s',
     SimulationTradingBot.close_position s name price reason now = (s', true) ->
     positions s' !! name = None /\
     (forall k, k <> name -> positions s' !! k = positions s !! k) /\
     (exists trade,
        trades s' = trades s ++ [trade] /\
        Trade.strategy trade = name /\ Trade.reason trade = reason) /\
     (forall price' reason' now',
        SimulationTradingBot.close_position s' name price' reason' now'
        = (s', false))) /\
  (forall ex s name price reason now s',
     TradingBot.close_position ex s name price reason now = (s', true) ->
     positions s' !! name = None /\
     (forall k, k <> name -> positions s' !! k = positions s !! k) /\
     (exists trade,
        trades s' = trades s ++ [trade] /\
        Trade.strategy trade = name /\ Trade.reason trade = reason) /\
     (forall ex' price' reason' now',
        TradingBot.close_position ex' s' name price' reason' now'
        = (s', false))).
Proof.
  split; [|split].
  - intros s name price reason now H. split.
    + apply sim_close_without_position. exact H.
    + intros ex. apply live_close_without_position. exact H.
  - intros s name price reason now s' H.
    destruct (sim_close_position_effect s name price reason now)
      as [E|(_ & _ & trade & Ht)]; [congruence|].
    rewrite H in Ht. cbn [fst] in Ht.
    destruct (closed_by_facts _ _ _ _ _ Ht) as (Hn & Ho & Htr & Hs & Hr).
    split; [exact Hn|]. split; [exact Ho|]. split; [eauto|].
    intros. apply sim_close_without_position. exact Hn.
  - intros ex s name price reason now s' H.
    destruct (live_close_position_effect ex s name price reason now)
      as [E|(_ & _ & trade & Ht)]; [congruence|].
    rewrite H in Ht. cbn [fst] in Ht.
    destruct (closed_by_facts _ _ _ _ _ Ht) as (Hn & Ho & Htr & Hs & Hr).
    split; [exact Hn|]. split; [exact Ho|]. split; [eauto|].
    intros. apply live_close_without_position. exact Hn.
Qed.

Lemma close_position_once_witness :
  SimulationTradingBot.close_position init "ADA_RSI" (Fin 1) "stop_loss" 0
    = (init, false) /\
  forall ex,
    TradingBot.close_position ex init "ADA_RSI" (Fin 1) "stop_loss" 0
    = (init, false).
Proof.
  apply (proj1 close_position_once init "ADA_RSI" (Fin 1) "stop_loss" 0%Z).
  reflexivity.
Defined.

(** ** The trade log only grows *)

Lemma ledger_step_prefix s s' : ledger_step s s' -> trades s `prefix_of` trades s'.
Proof.
  intros [_ [[_ ->]|(t & _ & ->)]]; [reflexivity|].
  apply prefix_app_r. reflexivity.
Qed.

Lemma rtc_prefix (R : relation BotState) s s' :
  (forall a b, R a b -> ledger_step a b) ->
  rtc R s s' -> trades s `prefix_of` trades s'.
Proof.
  intros HR. induction 1 as [|a b c Hab _ IH]; [reflexivity|].
  etrans; [|exact IH]. apply ledger_step_prefix, HR, Hab.
Qed.

(** X5.  The trade log is append-only: whatever calls are made on a bot
    ([run_strategy] ticks or direct calls of the other methods), the
    records present before are still there afterwards, unchanged and in
    the same order, at the front of the log. *)
Theorem trade_log_append_only s s' :
  rtc sim_call s s' \/ rtc live_call s s' ->
  trades s `prefix_of` trades s' /\
  (length (trades s) <= length (trades s'))%nat /\
  forall i t, trades s !! i = Some t -> trades s' !! i = Some t.
Proof.
  intros H.
  assert (Hp : trades s `prefix_of` trades s').
  { destruct H as [H|H];
      [apply (rtc_prefix sim_call)|apply (rtc_prefix live_call)];
      auto using sim_call_ledger, live_call_ledger. }
  split; [exact Hp|]. split; [apply prefix_length, Hp|].
  intros i t Hi. eapply prefix_lookup_Some; eassumption.
Qed.

Lemma trade_log_append_only_witness :
  trades sim_ada_open `prefix_of` trades sim_ada_closed /\
  (length (trades sim_ada_open) <= length (trades sim_ada_closed))%nat /\
  forall i t, trades sim_ada_open !! i = Some t ->
              trades sim_ada_closed !! i = Some t.
Proof.
  apply (trade_log_append_only sim_ada_open sim_ada_closed).
  left. unfold sim_ada_closed.
  eapply rtc_l; [apply sim_call_close|apply rtc_refl].
Defined.

(** ** The main loop *)

Lemma tick_outcome_effect Q name s s' :
  tick_outcome Q name s s' -> step_effect name s s'.
Proof.
  intros [->|Hnone (position & _ & ->)|config price r Hc
          |config price r s1 reason trade Hc Hcl].
  - split; [left; reflexivity|auto].
  - split; [left; reflexivity|]. simpl. intros k Hk.
    destruct (decide (k = name)) as [->|Hne]; [auto|].
    rewrite lookup_insert_ne in Hk by congruence. auto.
  - destruct (check_position_exits_state _ _ _ _ _ _ Hc) as (p & Hp & ->).
    split; [left; reflexivity|]. simpl. intros k Hk.
    destruct (decide (k = name)) as [->|Hne]; [auto|].
    rewrite lookup_insert_ne in Hk by congruence. auto.
  - destruct (check_position_exits_state _ _ _ _ _ _ Hc) as (p & Hp & ->).
    destruct (closed_by_facts _ _ _ _ _ Hcl) as (Hn & Ho & Htr & Hs & _).
    split; [right; exists trade; simpl in Htr; auto|].
    intros k Hk.
    destruct (decide (k = name)) as [->|Hne]; [auto|].
    rewrite Ho in Hk by exact Hne. simpl in Hk.
    rewrite lookup_insert_ne in Hk by congruence. auto.
Qed.

Section Pass.
Context {A : Type}.
Variable step : BotState -> string -> A -> option BotState.
Hypothesis step_known :
  forall s name a, is_Some (STRATEGY_FUNCTIONS name) -> is_Some (step s name a).
Hypothesis step_outcome :
  forall s name a s', step s name a = Some s' -> step_effect name s s'.

Lemma pass_total (entries : list (string * A)) s :
  Forall (fun e => is_Some (STRATEGY_FUNCTIONS e.1)) entries ->
  exists s',
    foldl (fun acc e => s ← acc; step s e.1 e.2) (Some s) entries = Some s' /\
    pass_effect entries s s'.
Proof.
  intros H. revert s. induction H as [|[name a] es Hn _ IH]; intros s.
  - exists s. split; [reflexivity|]. split; [|auto].
    exists []. split; [symmetry; apply app_nil_r|constructor].
  - cbn [foldl mbind option_bind fst snd].
    destruct (step_known s name a Hn) as [s1 H1]. rewrite H1.
    destruct (step_outcome _ _ _ _ H1) as [Ht Hk].
    destruct (IH s1) as (s' & -> & (new & Hnew & Hsub) & Hk').
    exists s'. split; [reflexivity|]. split.
    + destruct Ht as [Ht|(t & Ht & Hs)]; rewrite Ht in Hnew.
      * exists new. split; [exact Hnew|]. cbn [map fst].
        apply sublist_cons, Hsub.
      * exists (t :: new). split; [rewrite Hnew, <- app_assoc; reflexivity|].
        cbn [map fst]. rewrite Hs. apply sublist_skip, Hsub.
    + intros k Hks. cbn [map fst In].
      destruct (Hk' k Hks) as [Hin|H1k]; [auto|].
      destruct (Hk k H1k) as [->|Hsk]; auto.
Qed.
End Pass.

Lemma configured_functions :
  Forall (fun e : string * StrategyConfig.t =>
            is_Some (STRATEGY_FUNCTIONS e.1)) CONFIG_strategies.
Proof. repeat constructor; eexists; reflexivity. Qed.

Lemma sim_pass s feed now :
  exists s',
    sim_run_iteration s feed now = Some s' /\
    pass_effect CONFIG_strategies s s'.
Proof.
  apply (pass_total
           (fun s name config =>
              SimulationTradingBot.run_strategy s name config
                (feed (StrategyConfig.symbol config)) now)).
  - intros s0 name config [f Hf]. eapply sim_run_strategy_known, Hf.
  - intros s0 name config s' H. eapply tick_outcome_effect.
    eapply sim_run_strategy_outcome, H.
  - exact configured_functions.
Qed.

Lemma live_pass ex s feed now :
  exists s',
    live_run_iteration ex s feed now = Some s' /\
    pass_effect CONFIG_strategies s s'.
Proof.
  apply (pass_total
           (fun s name config =>
              TradingBot.run_strategy ex s name config
                (feed (StrategyConfig.symbol config)) now)).
  - intros s0 name config [f Hf]. eapply live_run_strategy_known, Hf.
  - intros s0 name config s' H. eapply tick_outcome_effect.
    eapply live_run_strategy_outcome, H.
  - exact configured_functions.
Qed.

(** X6.  One pass of the main loop over [CONFIG['strategies']] never
    raises, whatever the exchange answers (data, too little data, or an
    error caught in [fetch_data]; orders filled or rejected).  It appends
    at most one trade per strategy, so at most three in all, in the order
    ADA_RSI, SOL_STOCH, XRP_ADX, and keeps the earlier records.  Both
    bots. *)
Theorem run_pass_total_and_bounded s feed now :
  (exists s',
     sim_run_iteration s feed now = Some s' /\
     exists new,
       trades s' = trades s ++ new /\
       map Trade.strategy new `sublist_of` ["ADA_RSI"; "SOL_STOCH"; "XRP_ADX"] /\
       (length new <= 3)%nat) /\
  (forall ex,
     exists s',
       live_run_iteration ex s feed now = Some s' /\
       exists new,
         trades s' = trades s ++ new /\
         map Trade.strategy new `sublist_of` ["ADA_RSI"; "SOL_STOCH"; "XRP_ADX"] /\
         (length new <= 3)%nat).
Proof.
  assert (Hlen : forall new : list Trade.t,
             map Trade.strategy new `sublist_of` map fst CONFIG_strategies ->
             (length new <= 3)%nat).
  { intros new H. apply sublist_length in H.
    rewrite length_map in H. exact H. }
  split; [|intros ex].
  - destruct (sim_pass s feed now) as (s' & Hs & (new & Hn & Hsub) & _).
    exists s'. split; [exact Hs|]. exists new. auto.
  - destruct (live_pass ex s feed now) as (s' & Hs & (new & Hn & Hsub) & _).
    exists s'. split; [exact Hs|]. exists new. auto.
Qed.

Lemma pass_effect_configured s s' :
  pass_effect CONFIG_strategies s s' ->
  positions_configured s -> positions_configured s'.
Proof.
  intros [_ Hk] Hs k Hsk. destruct (Hk k Hsk) as [H|H]; auto.
Qed.

Lemma positions_configured_size s :
  positions_configured s -> (size (positions s) <= 3)%nat.
Proof.
  intros H.
  assert (Hd : dom (positions s) ⊆
               ({["ADA_RSI"; "SOL_STOCH"; "XRP_ADX"]} : gset string)).
  { intros k Hk. apply elem_of_dom in Hk. apply H in Hk.
    destruct Hk as [<-|[<-|[<-|[]]]]; set_solver. }
  apply subseteq_size in Hd. rewrite size_dom in Hd.
  etrans; [exact Hd|]. vm_compute. reflexivity.
Qed.

Lemma sim_run_configured ticks s :
  positions_configured s ->
  exists s',
    sim_run s ticks = Some s' /\ positions_configured s' /\
    trades s `prefix_of` trades s'.
Proof.
  unfold sim_run. revert s. induction ticks as [|[feed now] ticks IH];
    intros s Hs.
  - exists s. auto.
  - cbn [foldl mbind option_bind fst snd].
    destruct (sim_pass s feed now) as (s1 & -> & Hp).
    destruct (IH s1 (pass_effect_configured _ _ Hp Hs)) as (s' & -> & Hc & Hpre).
    exists s'. split; [reflexivity|]. split; [exact Hc|].
    destruct Hp as [(new & Hn & _) _]. etrans; [|exact Hpre].
    rewrite Hn. apply prefix_app_r. reflexivity.
Qed.

Lemma live_run_configured ticks s :
  positions_configured s ->
  exists s',
    live_run s ticks = Some s' /\ positions_configured s' /\
    trades s `prefix_of` trades s'.
Proof.
  unfold live_run. revert s. induction ticks as [|[[ex feed] now] ticks IH];
    intros s Hs.
  - exists s. auto.
  - cbn [foldl mbind option_bind fst snd].
    destruct (live_pass ex s feed now) as (s1 & -> & Hp).
    destruct (IH s1 (pass_effect_configured _ _ Hp Hs)) as (s' & -> & Hc & Hpre).
    exists s'. split; [reflexivity|]. split; [exact Hc|].
    destruct Hp as [(new & Hn & _) _]. etrans; [|exact Hpre].
    rewrite Hn. apply prefix_app_r. reflexivity.
Qed.

(** X7.  The main loop runs for ever: from a bot whose positions all
    belong to configured strategies (a fresh bot has none), any number of
    passes completes, for any answers of the exchange, and afterwards the
    positions still belong to configured strategies only, so at most
    three are open at a time, one per strategy.  Both bots. *)
Theorem run_keeps_one_position_per_strategy s :
  positions_configured s ->
  (forall ticks, exists s',
     sim_run s ticks = Some s' /\
     positions_configured s' /\ (size (positions s') <= 3)%nat) /\
  (forall ticks, exists s',
     live_run s ticks = Some s' /\
     positions_configured s' /\ (size (positions s') <= 3)%nat).
Proof.
  intros Hs. split; intros ticks.
  - destruct (sim_run_configured ticks s Hs) as (s' & Hr & Hc & _).
    exists s'. auto using positions_configured_size.
  - destruct (live_run_configured ticks s Hs) as (s' & Hr & Hc & _).
    exists s'. auto using positions_configured_size.
Qed.

Lemma run_keeps_one_position_per_strategy_witness :
  (forall ticks, exists s',
     sim_run init ticks = Some s' /\
     positions_configured s' /\ (size (positions s') <= 3)%nat) /\
  (forall ticks, exists s',
     live_run init ticks = Some s' /\
     positions_configured s' /\ (size (positions s') <= 3)%nat).
Proof.
  apply (run_keeps_one_position_per_strategy init).
  intros k [x Hx]. simpl in Hx. rewrite lookup_empty in Hx. discriminate.
Defined.

(** ** Runs on positive quotes *)

Lemma fdiv_Fin (x y : Q) : ~ y == 0 -> (Fin x / Fin y)%F = Fin (x / y).
Proof.
  intros H. simpl. destruct (Qeq_bool y 0) eqn:E; [|reflexivity].
  apply Qeq_bool_iff in E. contradiction.
Qed.

Lemma sim_run_strategy_calls s name config ohlcv now s' :
  SimulationTradingBot.run_strategy s name config ohlcv now = Some s' ->
  tick_calls
    (fun p => fst (SimulationTradingBot.open_position s name config p now))
    (fun s1 p r => fst (SimulationTradingBot.close_position s1 name p r now))
    name config ohlcv s s'.
Proof.
  unfold SimulationTradingBot.run_strategy, fetch_data. intros H.
  destruct (negb _); [injection H as <-; apply calls_none; reflexivity|].
  destruct ohlcv as [cs|]; cbn [fmap option_fmap option_map] in H;
    [|injection H as <-; apply calls_none; reflexivity].
  destruct (length _ <? 50)%nat eqn:Hlen;
    [injection H as <-; apply calls_none; reflexivity|].
  apply Nat.ltb_ge in Hlen. rewrite calculate_indicators_length in Hlen.
  destruct (last cs) as [k|] eqn:Hk;
    [|apply last_None in Hk; subst cs; simpl in Hlen; lia].
  rewrite (current_price_last cs k Hk) in H.
  destruct (STRATEGY_FUNCTIONS name) as [f|]; [|discriminate].
  cbn [mbind option_bind] in H.
  destruct (positions s !! name) as [pos|] eqn:Hp.
  - destruct (check_position_exits s name config (Fin (k_close k)))
      as [[s1 [should_exit reason]]|] eqn:Hc; [|discriminate].
    cbn [mbind option_bind] in H.
    destruct (f _) as [[e x]|]; [|discriminate].
    cbn [mbind option_bind] in H.
    destruct (should_exit || x); injection H as <-.
    + eapply calls_close; eauto.
    + eapply calls_check; eauto.
  - destruct (f _) as [[e x]|]; [|discriminate].
    cbn [mbind option_bind] in H.
    destruct e; injection H as <-.
    + eapply calls_open; eauto.
    + apply calls_none. reflexivity.
Qed.

Lemma live_run_strategy_calls ex s name config ohlcv now s' :
  TradingBot.run_strategy ex s name config ohlcv now = Some s' ->
  tick_calls
    (fun p => fst (TradingBot.open_position ex s name config p now))
    (fun s1 p r => fst (TradingBot.close_position ex s1 name p r now))
    name config ohlcv s s'.
Proof.
  unfold TradingBot.run_strategy, fetch_data. intros H.
  destruct (negb _); [injection H as <-; apply calls_none; reflexivity|].
  destruct ohlcv as [cs|]; cbn [fmap option_fmap option_map] in H;
    [|injection H as <-; apply calls_none; reflexivity].
  destruct (length _ <? 50)%nat eqn:Hlen;
    [injection H as <-; apply calls_none; reflexivity|].
  apply Nat.ltb_ge in Hlen. rewrite calculate_indicators_length in Hlen.
  destruct (last cs) as [k|] eqn:Hk;
    [|apply last_None in Hk; subst cs; simpl in Hlen; lia].
  rewrite (current_price_last cs k Hk) in H.
  destruct (STRATEGY_FUNCTIONS name) as [f|]; [|discriminate].
  cbn [mbind option_bind] in H.
  destruct (positions s !! name) as [pos|] eqn:Hp.
  - destruct (check_position_exits s name config (Fin (k_close k)))
      as [[s1 [should_exit reason]]|] eqn:Hc; [|discriminate].
    cbn [mbind option_bind] in H.
    destruct (f _) as [[e x]|]; [|discriminate].
    cbn [mbind option_bind] in H.
    destruct (should_exit || x); injection H as <-.
    + eapply calls_close; eauto.
    + eapply calls_check; eauto.
  - destruct (f _) as [[e x]|]; [|discriminate].
    cbn [mbind option_bind] in H.
    destruct e; injection H as <-.
    + eapply calls_open; eauto.
    + apply calls_none. reflexivity.
Qed.

Lemma as_opened_set_highest k pos h :
  as_opened k pos -> as_opened k (Position.set_highest_price pos h).
Proof. intros (config & e & H). exists config, e. exact H. Qed.

Lemma positions_as_opened_insert s k pos :
  positions_as_opened s -> as_opened k pos ->
  positions_as_opened (set_positions s (<[k := pos]> (positions s))).
Proof.
  intros Hs Hp k' pos'. simpl.
  destruct (decide (k' = k)) as [->|Hne].
  - rewrite lookup_insert_eq. intros [= <-]. exact Hp.
  - rewrite lookup_insert_ne by congruence. apply Hs.
Qed.

Lemma check_keeps_book s name config price s1 r :
  check_position_exits s name config price = Some (s1, r) ->
  book_ok s -> book_ok s1 /\ capital s1 = capital s.
Proof.
  intros Hc [Hp Ht].
  destruct (check_position_exits_state _ _ _ _ _ _ Hc) as (pos & Hpos & ->).
  split; [|reflexivity]. split; [|exact Ht].
  apply positions_as_opened_insert; [exact Hp|].
  apply as_opened_set_highest, (Hp _ _ Hpos).
Qed.

(** What the reason returned by the exit check says of the quote. *)
Lemma check_reason s name config price s1 should_exit reason :
  check_position_exits s name config price = Some (s1, (should_exit, reason)) ->
  exists pos1,
    positions s1 !! name = Some pos1 /\
    (default "strategy_signal" reason = "stop_loss" ->
     (price <=? Position.stop_loss pos1)%F = true) /\
    (default "strategy_signal" reason = "take_profit" ->
     (price >=? Position.take_profit pos1)%F = true).
Proof.
  intros Hc.
  destruct (check_position_exits_state _ _ _ _ _ _ Hc) as (pos & Hpos & Hs1).
  destruct (check_position_exits_verdict s name config price pos Hpos)
    as (s1' & pos1 & Hc' & _).
  rewrite Hc in Hc'. injection Hc' as _ _ Hr.
  eexists. split; [rewrite Hs1; apply lookup_insert_eq|].
  cbn [Position.set_highest_price Position.stop_loss Position.take_profit].
  rewrite Hr. unfold position_exit_reason, spec_exit_reason.
  repeat match goal with
         | |- context [if ?c then _ else _] => destruct c
         end; cbn; split; intros; reflexivity || discriminate.
Qed.

Lemma configured_positive name config :
  In (name, config) CONFIG_strategies ->
  0 < StrategyConfig.leverage config /\
  0 < StrategyConfig.position_size config /\
  StrategyConfig.position_size config * StrategyConfig.leverage config < 1 /\
  0 < StrategyConfig.stop_loss config /\
  1 # 10 <= StrategyConfig.take_profit config.
Proof.
  intros [H|[H|[H|[]]]]; inversion H; subst; cbn; repeat split; lra.
Qed.

Lemma pnl_pct_loss (e x lev : Q) :
  0 < e -> 0 < lev -> x < e -> (x - e) / e * lev * 100 < 0.
Proof.
  intros He Hl Hx.
  assert (Hd : (x - e) / e < 0).
  { apply Qlt_shift_div_r; [exact He|]. lra. }
  revert Hd. generalize ((x - e) / e) as d. intros d Hd. nra.
Qed.

Lemma pnl_pct_gain (e x lev : Q) :
  0 < e -> 0 < lev -> e < x -> 0 < (x - e) / e * lev * 100.
Proof.
  intros He Hl Hx.
  assert (Hd : 0 < (x - e) / e).
  { apply Qlt_shift_div_l; [exact He|]. lra. }
  revert Hd. generalize ((x - e) / e) as d. intros d Hd. nra.
Qed.

Lemma price_change_above_minus_one (e x : Q) :
  0 < e -> 0 < x -> -1 < (x - e) / e.
Proof. intros He Hx. apply Qlt_shift_div_l; [exact He|]. lra. Qed.

Lemma positions_as_opened_delete s k c i t :
  positions_as_opened s ->
  positions_as_opened (mkBot c i (delete k (positions s)) t).
Proof.
  intros Hs k' pos'. simpl. intros H.
  apply lookup_delete_Some in H as [_ H]. exact (Hs _ _ H).
Qed.

Lemma sim_close_keeps_book s name (q : Q) reason now pos :
  book_ok s -> positions s !! name = Some pos ->
  (reason = "stop_loss" -> (Fin q <=? Position.stop_loss pos)%F = true) ->
  (reason = "take_profit" -> (Fin q >=? Position.take_profit pos)%F = true) ->
  book_ok (fst (SimulationTradingBot.close_position s name (Fin q) reason now)).
Proof.
  intros [Hp Ht] Hpos Hsl Htp.
  destruct (Hp _ _ Hpos) as (config & e & Hin & He & Hentry & Hlev & Hs & Hg).
  destruct (configured_strategy name config Hin) as (_ & Hcfg & _).
  destruct (configured_positive name config Hin) as (Hl & _ & _ & Hsl0 & Htp0).
  unfold SimulationTradingBot.close_position.
  rewrite Hpos, Hcfg. destruct (Position.entry_fee pos); [|split; assumption].
  cbn [fst]. split; [apply positions_as_opened_delete, Hp|].
  apply Forall_app. split; [exact Ht|]. constructor; [|constructor].
  unfold trade_sign_ok. cbn [Trade.reason Trade.pnl_pct].
  rewrite Hentry, Hlev.
  unfold SimulationTradingBot.simulate_exit_price,
    SimulationTradingBot.CONFIG_slippage.
  cbn [fmul fsub]. rewrite fdiv_Fin by lra. cbn [fmul].
  split; intros Hr; eexists; (split; [reflexivity|]).
  - specialize (Hsl Hr). rewrite Hs in Hsl. apply Qle_bool_iff in Hsl.
    apply pnl_pct_loss; [exact He|exact Hl|].
    assert (0 < e * StrategyConfig.stop_loss config) by nra. lra.
  - specialize (Htp Hr). rewrite Hg in Htp. apply Qle_bool_iff in Htp.
    apply pnl_pct_gain; [exact He|exact Hl|].
    assert (e * (1 # 10) <= e * StrategyConfig.take_profit config) by nra.
    lra.
Qed.

Lemma live_close_keeps_book ex s name (q c : Q) reason now pos :
  book_ok s -> positions s !! name = Some pos ->
  capital s = Fin c -> 0 < c -> 0 < q ->
  (reason = "stop_loss" -> (Fin q <=? Position.stop_loss pos)%F = true) ->
  (reason = "take_profit" -> (Fin q >=? Position.take_profit pos)%F = true) ->
  let s' := fst (TradingBot.close_position ex s name (Fin q) reason now) in
  book_ok s' /\ is_gain (capital s').
Proof.
  intros [Hp Ht] Hpos Hcap Hc Hq Hsl Htp.
  destruct (Hp _ _ Hpos) as (config & e & Hin & He & Hentry & Hlev & Hs & Hg).
  destruct (configured_strategy name config Hin) as (_ & Hcfg & _).
  destruct (configured_positive name config Hin)
    as (Hl & Hps & Hpl & Hsl0 & Htp0).
  unfold TradingBot.close_position. rewrite Hpos.
  destruct (negb _);
    [cbn [fst]; split; [split; assumption|rewrite Hcap; exists c; auto]|].
  rewrite Hcfg. cbn [fst capital]. rewrite Hentry, Hlev, Hcap.
  cbn [fmul fsub]. rewrite fdiv_Fin by lra. cbn [fmul].
  rewrite fdiv_Fin by lra. cbn [fmul fadd].
  split; [split; [apply positions_as_opened_delete, Hp|]|].
  - apply Forall_app. split; [exact Ht|]. constructor; [|constructor].
    unfold trade_sign_ok. cbn [Trade.reason Trade.pnl_pct].
    split; intros Hr; eexists; (split; [reflexivity|]).
    + specialize (Hsl Hr). rewrite Hs in Hsl. apply Qle_bool_iff in Hsl.
      apply pnl_pct_loss; [exact He|exact Hl|].
      assert (0 < e * StrategyConfig.stop_loss config) by nra. lra.
    + specialize (Htp Hr). rewrite Hg in Htp. apply Qle_bool_iff in Htp.
      apply pnl_pct_gain; [exact He|exact Hl|].
      assert (e * (1 # 10) <= e * StrategyConfig.take_profit config) by nra.
      lra.
  - eexists. split; [reflexivity|].
    pose proof (price_change_above_minus_one e q He Hq) as Hd.
    revert Hd. generalize ((q - e) / e) as d. intros d Hd.
    revert Hl Hps Hpl.
    generalize (StrategyConfig.leverage config) as lev,
               (StrategyConfig.position_size config) as ps.
    intros lev ps Hl Hps Hpl.
    assert (H1 : 0 < c * (1 - ps * lev)) by nra.
    assert (H2 : 0 < (c * (ps * lev)) * (d + 1)).
    { apply Qmult_lt_0_compat; [|lra].
      apply Qmult_lt_0_compat; [lra|]. apply Qmult_lt_0_compat; lra. }
    assert (E : c + c * ps * (d * lev * 100 / 100)
                == c * (1 - ps * lev) + (c * (ps * lev)) * (d + 1)) by field.
    rewrite E. lra.
Qed.

Lemma sim_open_keeps_book s name config (p : Q) now :
  In (name, config) CONFIG_strategies -> 0 < p -> book_ok s ->
  book_ok (fst (SimulationTradingBot.open_position s name config (Fin p) now)).
Proof.
  intros Hin Hp [Hs Ht]. split; [|exact Ht].
  apply positions_as_opened_insert; [exact Hs|].
  exists config, (p + p * SimulationTradingBot.CONFIG_slippage).
  split; [exact Hin|].
  split; [unfold SimulationTradingBot.CONFIG_slippage; lra|].
  repeat split.
Qed.

Lemma live_open_keeps_book ex s name config (p : Q) now :
  In (name, config) CONFIG_strategies -> 0 < p -> book_ok s ->
  let s' := fst (TradingBot.open_position ex s name config (Fin p) now) in
  book_ok s' /\ capital s' = capital s.
Proof.
  intros Hin Hp [Hs Ht]. unfold TradingBot.open_position.
  destruct (negb _); cbn [fst]; (split; [|reflexivity]);
    (split; [|exact Ht]); [exact Hs|].
  apply positions_as_opened_insert; [exact Hs|].
  exists config, p. repeat split; assumption.
Qed.

Lemma sim_tick_keeps_book s name config ohlcv now s' :
  In (name, config) CONFIG_strategies ->
  (forall cs k, ohlcv = Some cs -> last cs = Some k -> 0 < k_close k) ->
  book_ok s ->
  SimulationTradingBot.run_strategy s name config ohlcv now = Some s' ->
  book_ok s'.
Proof.
  intros Hin Hq Hs Hrun.
  destruct (sim_run_strategy_calls _ _ _ _ _ _ Hrun)
    as [->|cs k E Hk Hn ->|cs k r E Hk Hc|cs k s1 b reason E Hk Hc ->].
  - exact Hs.
  - apply sim_open_keeps_book; eauto.
  - apply (check_keeps_book _ _ _ _ _ _ Hc Hs).
  - destruct (check_keeps_book _ _ _ _ _ _ Hc Hs) as [Hs1 _].
    destruct (check_reason _ _ _ _ _ _ _ Hc) as (pos1 & Hp1 & Hsl & Htp).
    eapply sim_close_keeps_book; eauto.
Qed.

Lemma live_tick_keeps_book ex s name config ohlcv now s' :
  In (name, config) CONFIG_strategies ->
  (forall cs k, ohlcv = Some cs -> last cs = Some k -> 0 < k_close k) ->
  book_ok s /\ is_gain (capital s) ->
  TradingBot.run_strategy ex s name config ohlcv now = Some s' ->
  book_ok s' /\ is_gain (capital s').
Proof.
  intros Hin Hq [Hs Hcap] Hrun.
  destruct (live_run_strategy_calls _ _ _ _ _ _ _ Hrun)
    as [->|cs k E Hk Hn ->|cs k r E Hk Hc|cs k s1 b reason E Hk Hc ->].
  - auto.
  - destruct (live_open_keeps_book ex s name config (k_close k) now Hin
                (Hq _ _ E Hk) Hs) as [H1 H2].
    split; [exact H1|]. rewrite H2. exact Hcap.
  - destruct (check_keeps_book _ _ _ _ _ _ Hc Hs) as [H1 H2].
    split; [exact H1|]. rewrite H2. exact Hcap.
  - destruct (check_keeps_book _ _ _ _ _ _ Hc Hs) as [Hs1 Hc1].
    destruct (check_reason _ _ _ _ _ _ _ Hc) as (pos1 & Hp1 & Hsl & Htp).
    destruct Hcap as (c & Hcap & Hc0). rewrite <- Hc1 in Hcap.
    eapply live_close_keeps_book; eauto.
Qed.

Lemma foldl_bind_None {A} (f : BotState -> A -> option BotState) l :
  foldl (fun acc x => s ← acc; f s x) None l = None.
Proof. induction l; [reflexivity|exact IHl]. Qed.

Lemma pass_invariant {A} (step : BotState -> string -> A -> option BotState)
    (I : BotState -> Prop) (entries : list (string * A)) s s' :
  (forall s name a s',
     In (name, a) entries -> I s -> step s name a = Some s' -> I s') ->
  I s ->
  foldl (fun acc e => s ← acc; step s e.1 e.2) (Some s) entries = Some s' ->
  I s'.
Proof.
  revert s. induction entries as [|[name a] es IH]; intros s Hstep Hs H.
  - injection H as <-. exact Hs.
  - cbn [foldl mbind option_bind fst snd] in H.
    destruct (step s name a) as [s1|] eqn:H1.
    + apply (IH s1); [|eapply Hstep; [left; reflexivity|exact Hs|exact H1]|exact H].
      intros s0 n0 a0 s0' Hin. apply Hstep. right. exact Hin.
    + rewrite (foldl_bind_None (fun s e => step s e.1 e.2)) in H. discriminate.
Qed.

Lemma sim_pass_keeps_book s feed now s' :
  quotes_positive feed -> book_ok s ->
  sim_run_iteration s feed now = Some s' -> book_ok s'.
Proof.
  intros Hq Hs.
  apply (pass_invariant
           (fun s name config =>
              SimulationTradingBot.run_strategy s name config
                (feed (StrategyConfig.symbol config)) now) book_ok);
    [|exact Hs].
  intros s0 name config s0' Hin Hs0 Hrun.
  eapply sim_tick_keeps_book; eauto.
Qed.

Lemma live_pass_keeps_book ex s feed now s' :
  quotes_positive feed -> book_ok s /\ is_gain (capital s) ->
  live_run_iteration ex s feed now = Some s' ->
  book_ok s' /\ is_gain (capital s').
Proof.
  intros Hq Hs.
  apply (pass_invariant
           (fun s name config =>
              TradingBot.run_strategy ex s name config
                (feed (StrategyConfig.symbol config)) now)
           (fun s => book_ok s /\ is_gain (capital s)));
    [|exact Hs].
  intros s0 name config s0' Hin Hs0 Hrun.
  eapply live_tick_keeps_book; eauto.
Qed.

Lemma sim_run_book ticks s :
  Forall (fun tick => quotes_positive tick.1) ticks -> book_ok s ->
  exists s', sim_run s ticks = Some s' /\ book_ok s'.
Proof.
  unfold sim_run. intros H. revert s.
  induction H as [|[feed now] ticks Hq _ IH]; intros s Hs.
  - exists s. auto.
  - cbn [foldl mbind option_bind fst snd].
    destruct (sim_pass s feed now) as (s1 & H1 & _). rewrite H1.
    apply IH. eapply sim_pass_keeps_book; eauto.
Qed.

Lemma live_run_book ticks s :
  Forall (fun tick => quotes_positive tick.1.2) ticks ->
  book_ok s /\ is_gain (capital s) ->
  exists s', live_run s ticks = Some s' /\ book_ok s' /\ is_gain (capital s').
Proof.
  unfold live_run. intros H. revert s.
  induction H as [|[[ex feed] now] ticks Hq _ IH]; intros s Hs.
  - exists s. auto.
  - cbn [foldl mbind option_bind fst snd].
    destruct (live_pass ex s feed now) as (s1 & H1 & _). rewrite H1.
    apply IH. eapply live_pass_keeps_book; eauto.
Qed.

Lemma book_ok_init : book_ok init /\ is_gain (capital init).
Proof.
  split; [split|].
  - intros k pos H. simpl in H. rewrite lookup_empty in H. discriminate.
  - constructor.
  - eexists. split; [reflexivity|]. reflexivity.
Qed.

(** X8.  In every run of the main loop from a fresh bot, as long as each
    series the exchange returns ends on a positive close, the exit reason
    of a trade fixes the sign of its [pnl_pct]: every trade closed for
    stop_loss shows a negative [pnl_pct], every trade closed for
    take_profit a positive one (in the simulation bot: after slippage on
    both fills).  Both bots. *)
Theorem exit_reason_fixes_pnl_sign :
  (forall ticks,
     Forall (fun tick => quotes_positive tick.1) ticks ->
     exists s,
       sim_run init ticks = Some s /\
       forall t, In t (trades s) ->
         (Trade.reason t = "stop_loss" -> is_loss (Trade.pnl_pct t)) /\
         (Trade.reason t = "take_profit" -> is_gain (Trade.pnl_pct t))) /\
  (forall ticks,
     Forall (fun tick => quotes_positive tick.1.2) ticks ->
     exists s,
       live_run init ticks = Some s /\
       forall t, In t (trades s) ->
         (Trade.reason t = "stop_loss" -> is_loss (Trade.pnl_pct t)) /\
         (Trade.reason t = "take_profit" -> is_gain (Trade.pnl_pct t))).
Proof.
  split; intros ticks Hq.
  - destruct (sim_run_book ticks init Hq (proj1 book_ok_init))
      as (s & Hs & _ & Ht).
    exists s. split; [exact Hs|]. intros t Hin.
    rewrite Forall_forall in Ht. apply Ht, list_elem_of_In, Hin.
  - destruct (live_run_book ticks init Hq book_ok_init)
      as (s & Hs & [_ Ht] & _).
    exists s. split; [exact Hs|]. intros t Hin.
    rewrite Forall_forall in Ht. apply Ht, list_elem_of_In, Hin.
Qed.

Lemma exit_reason_fixes_pnl_sign_witness :
  exists s,
    sim_run init [(fun _ => Some dip_entry, 0%Z);
                  (fun _ => Some dip_then_290, 1%Z)] = Some s /\
    forall t, In t (trades s) ->
      (Trade.reason t = "stop_loss" -> is_loss (Trade.pnl_pct t)) /\
      (Trade.reason t = "take_profit" -> is_gain (Trade.pnl_pct t)).
Proof.
  apply (proj1 exit_reason_fixes_pnl_sign).
  repeat constructor; intros symbol cs k [= <-] Hk;
    vm_compute in Hk; injection Hk as <-; reflexivity.
Defined.

(** X9.  The order-placing bot's capital figure stays positive: in every
    run of the main loop from a fresh bot on positive closing quotes,
    whatever orders the exchange fills or rejects, [capital] is a
    positive finite number afterwards.  (A close moves it by the factor
    1 + position_size * leverage * price_change, price_change is above -1
    and position_size * leverage is below 1 for each configured
    strategy.) *)
Theorem live_capital_stays_positive ticks :
  Forall (fun tick => quotes_positive tick.1.2) ticks ->
  exists s c, live_run init ticks = Some s /\ capital s = Fin c /\ 0 < c.
Proof.
  intros Hq.
  destruct (live_run_book ticks init Hq book_ok_init)
    as (s & Hs & _ & c & Hc & Hc0).
  exists s, c. auto.
Qed.

Lemma live_capital_stays_positive_witness :
  exists s c,
    live_run init [(filling_exchange, fun _ => Some dip_entry, 0%Z);
                   (filling_exchange, fun _ => Some dip_then_290, 1%Z)]
      = Some s /\
    capital s = Fin c /\ 0 < c.
Proof.
  apply live_capital_stays_positive.
  repeat constructor; intros symbol cs k [= <-] Hk;
    vm_compute in Hk; injection Hk as <-; reflexivity.
Defined.

(** ** The remaining columns of the frame *)

Lemma calculate_indicators_row_columns (df : list Candle) t k :
  df !! t = Some k ->
  exists row,
    calculate_indicators df !! t = Some row /\
    high row = Fin (k_high k) /\
    (ema20 row = at_row (ewm_mean 20 (column k_close df)) t /\
     ema50 row = at_row (ewm_mean 50 (column k_close df)) t /\
     ema200 row = at_row (ewm_mean 200 (column k_close df)) t) /\
    (tr row = at_row (tr_column (column k_high df) (column k_low df)) t /\
     plus_dm row = at_row (plus_dm_column (column k_high df)) t /\
     minus_dm row = at_row (minus_dm_column (column k_low df)) t /\
     dx row = at_row (dx_column (column k_high df) (column k_low df)) t /\
     adx row = at_row (adx_column (column k_high df) (column k_low df)) t) /\
    (vol_ma row = at_row (vol_ma_column (column k_volume df)) t /\
     vol_ratio row = at_row (vol_ratio_column (column k_volume df)) t).
Proof.
  intros Hk. unfold calculate_indicators.
  rewrite list_lookup_imap, Hk. eexists. split; [reflexivity|].
  repeat split.
Qed.

Lemma calculate_indicators_lookup (df : list Candle) t row :
  calculate_indicators df !! t = Some row ->
  (t < length df)%nat /\ exists k, df !! t = Some k.
Proof.
  intros H. apply lookup_lt_Some in H.
  rewrite calculate_indicators_length in H.
  split; [exact H|]. apply lookup_lt_is_Some_2, H.
Qed.

Lemma tr_nonneg (df : list Candle) :
  Forall high_low_ok df ->
  Forall nonneg (tr_column (column k_high df) (column k_low df)).
Proof.
  unfold tr_column, ssub, column.
  induction 1 as [|k df Hk _ IH]; simpl; constructor; [|exact IH].
  unfold high_low_ok in Hk. simpl. lra.
Qed.

Lemma column_diff_fin f (df : list Candle) :
  Forall fin_or_nan (diff (column f df)).
Proof. unfold column. rewrite <- (map_map f Fin). apply diff_fin. Qed.

Lemma falls_nonneg (s : Series) :
  Forall fin_or_nan s ->
  Forall nonneg (sneg (where_ s (fun d => (- d) >? Fin 0)%F (Fin 0))).
Proof.
  intros H. unfold sneg, where_. rewrite map_map. apply Forall_map.
  eapply Forall_impl; [exact H|].
  intros [q| | |] Hx; try (destruct Hx; fail); simpl.
  - destruct (Qle_bool (- q) 0) eqn:E; simpl.
    + apply Qle_refl.
    + assert (0 < - q).
      { apply Qnot_le_lt. rewrite <- Qle_bool_iff, E. discriminate. }
      lra.
  - apply Qle_refl.
Qed.

Lemma rolling_mean_nonneg (s : Series) t :
  Forall nonneg s -> (t < length s)%nat ->
  let m := at_row (rolling 14 window_mean s) t in
  ((t < 13)%nat /\ m = NaN) \/ ((13 <= t)%nat /\ nonneg m).
Proof.
  intros Hs Ht. cbv zeta. rewrite at_row_rolling by exact Ht.
  destruct (S t <? 14)%nat eqn:E.
  - apply Nat.ltb_lt in E. left. split; [lia|reflexivity].
  - apply Nat.ltb_ge in E. right. split; [lia|].
    apply window_mean_nonneg; [rewrite window_at_length; lia|].
    apply window_at_Forall, Hs.
Qed.

Lemma di_of_means (g a : fnum) :
  nonneg g -> nonneg a -> di_value (Fin 100 * (g / a))%F.
Proof.
  destruct g as [g| | |], a as [a| | |]; try (intros []; fail);
    try (intros _ []; fail).
  simpl. intros Hg Ha. destruct (Qeq_bool a 0) eqn:E.
  - destruct (Qle_lt_or_eq _ _ Hg) as [H|H].
    + rewrite (Qsgn_pos g H). right. left. reflexivity.
    + rewrite (Qsgn_zero g) by (symmetry; exact H). left. reflexivity.
  - right. right. simpl.
    assert (Hne : ~ a == 0).
    { intros H. apply Qeq_bool_iff in H. congruence. }
    assert (0 <= g / a) by (apply Qle_shift_div_l; lra).
    lra.
Qed.

Lemma dx_of_di (a b : fnum) :
  di_value a -> di_value b ->
  nan_or_percent (Fin 100 * fabs (a - b) / (a + b))%F.
Proof.
  intros [->|[->|Ha]] [->|[->|Hb]];
    try (left; reflexivity);
    try (destruct b as [b| | |]; try (destruct Hb; fail); left; reflexivity);
    try (destruct a as [a| | |]; try (destruct Ha; fail); left; reflexivity).
  destruct a as [a| | |]; try (destruct Ha; fail).
  destruct b as [b| | |]; try (destruct Hb; fail).
  simpl in Ha, Hb. cbn [fmul fsub fabs fadd fdiv].
  destruct (Qeq_bool (a + b) 0) eqn:E.
  - left. apply Qeq_bool_iff in E. apply Qsgn_zero.
    assert (a == 0) by lra. assert (b == 0) by lra.
    apply Qabs_case; intros; lra.
  - right. cbn [in_range].
    assert (Hne : ~ a + b == 0).
    { intros H. apply Qeq_bool_iff in H. congruence. }
    assert (Hab : Qabs (a - b) <= a + b).
    { apply Qabs_case; intros; lra. }
    pose proof (Qabs_nonneg (a - b)) as H0.
    split.
    + apply Qle_shift_div_l; lra.
    + apply Qle_shift_div_r; lra.
Qed.

Lemma adx_columns_length (df : list Candle) :
  let H := column k_high df in
  let L := column k_low df in
  length (tr_column H L) = length df /\
  length (plus_dm_column H) = length df /\
  length (minus_dm_column L) = length df /\
  length (atr_column H L) = length df /\
  length (plus_di_column H L) = length df /\
  length (minus_di_column H L) = length df /\
  length (dx_column H L) = length df.
Proof.
  cbv zeta.
  unfold dx_column, plus_di_column, minus_di_column, atr_column, tr_column,
    plus_dm_column, minus_dm_column, sscale, sdiv, sabs, ssub, sadd, sneg,
    where_.
  repeat first [rewrite length_map | rewrite length_zip_with
               | rewrite rolling_length | rewrite diff_length
               | rewrite column_length].
  repeat split; lia.
Qed.

Lemma di_at (m : Series) (df : list Candle) t :
  Forall high_low_ok df -> Forall nonneg m -> length m = length df ->
  (t < length df)%nat ->
  let di :=
    at_row (sscale (Fin 100)
              (sdiv (rolling 14 window_mean m)
                    (atr_column (column k_high df) (column k_low df)))) t in
  ((t < 13)%nat /\ di = NaN) \/ ((13 <= t)%nat /\ di_value di).
Proof.
  intros Hdf Hm Hlen Ht. cbv zeta.
  destruct (adx_columns_length df) as (Htr & _ & _ & Hatr & _).
  unfold sscale, sdiv.
  rewrite at_row_map
    by (rewrite length_zip_with, rolling_length, Hatr, Hlen; lia).
  rewrite at_row_zip_with by (rewrite ?rolling_length, ?Hatr, ?Hlen; lia).
  destruct (rolling_mean_nonneg m t Hm) as [[H13 ->]|[H13 Hg]];
    [lia|left; split; [exact H13|reflexivity]|].
  right. split; [exact H13|].
  unfold atr_column.
  destruct (rolling_mean_nonneg _ t (tr_nonneg df Hdf)) as [[H ?]|[_ Ha]];
    [rewrite Htr; exact Ht|lia|].
  apply di_of_means; assumption.
Qed.

Lemma dx_at (df : list Candle) t :
  Forall high_low_ok df -> (t < length df)%nat ->
  let dx_ := at_row (dx_column (column k_high df) (column k_low df)) t in
  nan_or_percent dx_ /\ ((t < 13)%nat -> dx_ = NaN).
Proof.
  intros Hdf Ht. cbv zeta.
  destruct (adx_columns_length df) as (_ & Hp & Hm & _ & Hpdi & Hmdi & _).
  unfold dx_column, sdiv, sscale, sabs, sadd, ssub.
  rewrite at_row_zip_with
    by (rewrite ?length_map, ?length_zip_with, ?Hpdi, ?Hmdi; lia).
  rewrite !at_row_map
    by (rewrite ?length_map, ?length_zip_with, ?Hpdi, ?Hmdi; lia).
  rewrite !at_row_zip_with by (rewrite ?Hpdi, ?Hmdi; lia).
  pose proof (di_at (plus_dm_column (column k_high df)) df t Hdf
                (gains_nonneg _ (column_diff_fin k_high df)) Hp Ht) as Hpd.
  pose proof (di_at (minus_dm_column (column k_low df)) df t Hdf
                (falls_nonneg _ (column_diff_fin k_low df)) Hm Ht) as Hmd.
  cbv zeta in Hpd, Hmd.
  fold (plus_di_column (column k_high df) (column k_low df)) in Hpd.
  fold (minus_di_column (column k_high df) (column k_low df)) in Hmd.
  destruct Hpd as [[H13 ->]|[H13 Hpd]].
  - split; [left|intros _];
      destruct (at_row (minus_di_column _ _) t); reflexivity.
  - destruct Hmd as [[H ?]|[_ Hmd]]; [lia|].
    split; [apply dx_of_di; assumption|lia].
Qed.

Lemma window_mean_nan (w : list fnum) : NaN ∈ w -> window_mean w = NaN.
Proof.
  intros H. unfold window_mean.
  replace (existsb is_missing w) with true; [reflexivity|].
  symmetry. apply existsb_exists. exists NaN.
  split; [apply list_elem_of_In, H|reflexivity].
Qed.

Lemma adx_at (df : list Candle) t :
  Forall high_low_ok df -> (t < length df)%nat ->
  let adx_ := at_row (adx_column (column k_high df) (column k_low df)) t in
  nan_or_percent adx_ /\ ((t < 26)%nat -> adx_ = NaN).
Proof.
  intros Hdf Ht. cbv zeta.
  destruct (adx_columns_length df) as (_ & _ & _ & _ & _ & _ & Hdx).
  unfold adx_column. rewrite at_row_rolling by (rewrite Hdx; exact Ht).
  destruct (S t <? 14)%nat eqn:E; [split; [left|]; reflexivity|].
  apply Nat.ltb_ge in E. split.
  - apply window_mean_percent; [rewrite window_at_length; lia|].
    apply Forall_lookup. intros i x Hi. unfold window_at in Hi.
    apply lookup_take_Some in Hi as [Hi Hi14]. rewrite lookup_drop in Hi.
    rewrite <- (at_row_lookup _ _ _ Hi).
    apply dx_at; [exact Hdf|].
    apply lookup_lt_Some in Hi. rewrite Hdx in Hi. exact Hi.
  - intros H26. apply window_mean_nan. unfold window_at.
    destruct (lookup_lt_is_Some_2
                (dx_column (column k_high df) (column k_low df))
                (t - 13)) as [x Hx]; [rewrite Hdx; lia|].
    assert (Hnan : x = NaN).
    { rewrite <- (at_row_lookup _ _ _ Hx).
      apply dx_at; [exact Hdf|lia|lia]. }
    subst x. apply (list_elem_of_lookup_2 _ 0).
    rewrite lookup_take_lt by lia. rewrite lookup_drop.
    replace (S t - 14 + 0)%nat with (t - 13)%nat by lia. exact Hx.
Qed.

(** X10.  The ADX chain of [calculate_indicators].  When no candle of the
    series has its low above its high, every row of the enriched frame
    has a true range, a +DM and a -DM that are finite and not negative,
    and its [dx] and [adx] are NaN or lie in [0, 100]: no row shows an
    infinite or negative ADX, also where the average true range is zero.
    The first 26 rows have no ADX (NaN). *)
Theorem adx_range (df : list Candle) (t : nat) (row : Row) :
  Forall high_low_ok df ->
  calculate_indicators df !! t = Some row ->
  nonneg (tr row) /\ nonneg (plus_dm row) /\ nonneg (minus_dm row) /\
  nan_or_percent (dx row) /\ nan_or_percent (adx row) /\
  ((t < 26)%nat -> adx row = NaN).
Proof.
  intros Hdf Hrow.
  destruct (calculate_indicators_lookup df t row Hrow) as [Ht [k Hk]].
  destruct (calculate_indicators_row_columns df t k Hk)
    as (row' & Hrow' & _ & _ & (Htr & Hp & Hm & Hdx & Hadx) & _).
  rewrite Hrow in Hrow'. injection Hrow' as <-.
  destruct (adx_columns_length df) as (Ltr & Lp & Lm & _).
  assert (Hnn : forall s : Series,
             Forall nonneg s -> length s = length df -> nonneg (at_row s t)).
  { intros s Hs Hl.
    destruct (lookup_lt_is_Some_2 s t) as [x Hx]; [rewrite Hl; exact Ht|].
    rewrite (at_row_lookup _ _ _ Hx).
    rewrite Forall_lookup in Hs. exact (Hs _ _ Hx). }
  rewrite Htr, Hp, Hm, Hdx, Hadx.
  split; [apply Hnn; [apply tr_nonneg, Hdf|exact Ltr]|].
  split; [apply Hnn; [apply gains_nonneg, column_diff_fin|exact Lp]|].
  split; [apply Hnn; [apply falls_nonneg, column_diff_fin|exact Lm]|].
  split; [apply dx_at; assumption|].
  apply adx_at; assumption.
Qed.

Lemma candles_of_closes_high_low (closes : list Q) :
  Forall high_low_ok (candles_of_closes closes).
Proof.
  apply Forall_lookup. intros i k Hi. unfold candles_of_closes in Hi.
  rewrite list_lookup_imap in Hi.
  destruct (closes !! i) as [c|]; [|discriminate].
  injection Hi as <-. unfold high_low_ok. simpl. lra.
Qed.

Lemma adx_range_witness :
  exists row,
    nonneg (tr row) /\ nonneg (plus_dm row) /\ nonneg (minus_dm row) /\
    nan_or_percent (dx row) /\ nan_or_percent (adx row) /\
    ((49 < 26)%nat -> adx row = NaN).
Proof.
  eexists. apply (adx_range falling_after_flat 49).
  - apply candles_of_closes_high_low.
  - vm_compute. reflexivity.
Defined.

(** ** Volume *)

Lemma foldl_fadd_ge (w : list fnum) (a : Q) :
  Forall nonneg w -> exists s, foldl fadd (Fin a) w = Fin s /\ a <= s.
Proof.
  intros H. revert a. induction H as [|x w Hx _ IH]; intros a.
  - exists a. split; [reflexivity|lra].
  - destruct x as [q| | |]; try (destruct Hx; fail). simpl in Hx.
    destruct (IH (a + q)) as (s & Hs & Hle).
    exists s. split; [exact Hs|lra].
Qed.

Lemma foldl_fadd_member (w : list fnum) (a v : Q) :
  Forall nonneg w -> Fin v ∈ w ->
  exists s, foldl fadd (Fin a) w = Fin s /\ a + v <= s.
Proof.
  intros H. revert a. induction H as [|x w Hx Hw IH]; intros a Hin.
  - apply elem_of_nil in Hin. destruct Hin.
  - destruct x as [q| | |]; try (destruct Hx; fail). simpl in Hx.
    apply elem_of_cons in Hin as [Hv|Hin].
    + injection Hv as ->.
      destruct (foldl_fadd_ge w (a + q) Hw) as (s & Hs & Hle).
      exists s. split; [exact Hs|exact Hle].
    + destruct (IH (a + q) Hin) as (s & Hs & Hle).
      exists s. split; [exact Hs|lra].
Qed.

Lemma volume_nonneg (df : list Candle) :
  Forall volume_ok df -> Forall nonneg (column k_volume df).
Proof.
  unfold column. induction 1 as [|k df Hk _ IH]; simpl; constructor;
    [exact Hk|exact IH].
Qed.

(** X11.  The volume columns.  When no candle has a negative volume:
    the first 19 rows have no [vol_ma] and no [vol_ratio] (NaN); from row
    19 on [vol_ma] is a finite number that is not negative, and
    [vol_ratio] is NaN when [vol_ma] is zero (the last 20 volumes are all
    zero: 0/0, no exception and no infinity) and lies in [0, 20]
    otherwise. *)
Theorem vol_ratio_range (df : list Candle) (t : nat) (row : Row) :
  Forall volume_ok df ->
  calculate_indicators df !! t = Some row ->
  ((t < 19)%nat -> vol_ma row = NaN /\ vol_ratio row = NaN) /\
  ((19 <= t)%nat ->
   exists m,
     vol_ma row = Fin m /\ 0 <= m /\
     (m == 0 -> vol_ratio row = NaN) /\
     (~ m == 0 -> in_range 0 20 (vol_ratio row))).
Proof.
  intros Hdf Hrow.
  destruct (calculate_indicators_lookup df t row Hrow) as [Ht [k Hk]].
  destruct (calculate_indicators_row_columns df t k Hk)
    as (row' & Hrow' & _ & _ & _ & Hma & Hratio).
  rewrite Hrow in Hrow'. injection Hrow' as <-.
  rewrite Hma, Hratio. unfold vol_ratio_column, vol_ma_column, sdiv.
  rewrite at_row_zip_with by (rewrite ?rolling_length, column_length; exact Ht).
  rewrite at_row_rolling by (rewrite column_length; exact Ht).
  rewrite (at_row_lookup _ _ _ (column_lookup k_volume df t k Hk)).
  split; intros H19.
  - replace (S t <? 20)%nat with true by (symmetry; apply Nat.ltb_lt; lia).
    split; reflexivity.
  - replace (S t <? 20)%nat with false by (symmetry; apply Nat.ltb_ge; lia).
    pose proof (volume_nonneg df Hdf) as Hv.
    assert (Hw : Forall nonneg (window_at 20 (column k_volume df) t))
      by apply window_at_Forall, Hv.
    assert (Hin : Fin (k_volume k) ∈ window_at 20 (column k_volume df) t).
    { apply window_at_last; [lia|]. apply column_lookup, Hk. }
    assert (Hk0 : 0 <= k_volume k).
    { rewrite Forall_lookup in Hdf. exact (Hdf _ _ Hk). }
    destruct (foldl_fadd_member _ 0 _ Hw Hin) as (s & Hs & Hle).
    unfold window_mean, fsum.
    rewrite nonneg_not_missing by exact Hw.
    rewrite Hs, window_at_length by (rewrite ?column_length; lia).
    change (Fin s / Fin (inject_Z (Z.of_nat 20)))%F with (Fin (s / 20)).
    exists (s / 20).
    split; [reflexivity|].
    split; [apply Qle_shift_div_l; lra|].
    cbn [fdiv]. split; intros Hm.
    + replace (Qeq_bool (s / 20) 0) with true
        by (symmetry; apply Qeq_bool_iff; exact Hm).
      apply Qsgn_zero.
      assert (s == 0).
      { assert (E : s == s / 20 * 20) by (field; lra).
        rewrite E, Hm. lra. }
      lra.
    + replace (Qeq_bool (s / 20) 0) with false
        by (symmetry; apply not_true_iff_false; rewrite Qeq_bool_iff; exact Hm).
      cbn [in_range].
      assert (Hpos : 0 < s / 20).
      { assert (0 <= s / 20) by (apply Qle_shift_div_l; lra).
        destruct (Qle_lt_or_eq _ _ H) as [?|E];
          [assumption|exfalso; apply Hm; symmetry; exact E]. }
      split.
      * apply Qle_shift_div_l; lra.
      * apply Qle_shift_div_r; [exact Hpos|].
        assert (E : 20 * (s / 20) == s) by (field; lra).
        rewrite E. lra.
Qed.

Lemma candles_of_closes_volume (closes : list Q) :
  Forall volume_ok (candles_of_closes closes).
Proof.
  apply Forall_lookup. intros i k Hi. unfold candles_of_closes in Hi.
  rewrite list_lookup_imap in Hi.
  destruct (closes !! i) as [c|]; [|discriminate].
  injection Hi as <-. unfold volume_ok. simpl. lra.
Qed.

Lemma vol_ratio_range_witness :
  exists row,
    ((49 < 19)%nat -> vol_ma row = NaN /\ vol_ratio row = NaN) /\
    ((19 <= 49)%nat ->
     exists m,
       vol_ma row = Fin m /\ 0 <= m /\
       (m == 0 -> vol_ratio row = NaN) /\
       (~ m == 0 -> in_range 0 20 (vol_ratio row))).
Proof.
  eexists. apply (vol_ratio_range falling_after_flat 49).
  - apply candles_of_closes_volume.
  - vm_compute. reflexivity.
Defined.

(** ** Moving averages *)

Lemma ewm_from_length alpha prev (s : Series) :
  length (ewm_from alpha prev s) = length s.
Proof.
  revert prev. induction s as [|x s IH]; intros prev; simpl; [reflexivity|].
  rewrite IH. reflexivity.
Qed.

Lemma ewm_mean_length span (s : Series) : length (ewm_mean span s) = length s.
Proof.
  destruct s; simpl; [reflexivity|]. rewrite ewm_from_length. reflexivity.
Qed.

Lemma ewm_from_in_range (lo hi alpha p : Q) (s : Series) :
  0 <= alpha -> alpha <= 1 -> lo <= p -> p <= hi ->
  Forall (in_range lo hi) s ->
  Forall (in_range lo hi) (ewm_from alpha (Fin p) s).
Proof.
  intros Ha0 Ha1 Hlo Hhi Hs. revert p Hlo Hhi.
  induction Hs as [|x s Hx _ IH]; intros p Hlo Hhi; simpl; [constructor|].
  destruct x as [q| | |]; try (destruct Hx; fail). destruct Hx as [Hq0 Hq1].
  cbn [fmul fadd].
  assert (H1 : 0 <= (1 - alpha) * (p - lo)) by (apply Qmult_le_0_compat; lra).
  assert (H2 : 0 <= alpha * (q - lo)) by (apply Qmult_le_0_compat; lra).
  assert (H3 : 0 <= (1 - alpha) * (hi - p)) by (apply Qmult_le_0_compat; lra).
  assert (H4 : 0 <= alpha * (hi - q)) by (apply Qmult_le_0_compat; lra).
  assert (Hlo' : lo <= (1 - alpha) * p + alpha * q) by lra.
  assert (Hhi' : (1 - alpha) * p + alpha * q <= hi) by lra.
  constructor; [split; assumption|]. apply IH; assumption.
Qed.

Lemma ewm_mean_in_range (lo hi : Q) span (s : Series) :
  (1 <= span)%Z ->
  Forall (in_range lo hi) s -> Forall (in_range lo hi) (ewm_mean span s).
Proof.
  intros Hspan Hs. destruct Hs as [|x s Hx Hs]; simpl; [constructor|].
  constructor; [exact Hx|].
  destruct x as [p| | |]; try (destruct Hx; fail). destruct Hx as [Hlo Hhi].
  assert (Hd : 0 < inject_Z span + 1).
  { assert (inject_Z 0 <= inject_Z span) by (rewrite <- Zle_Qle; lia).
    change (inject_Z 0) with 0 in *. lra. }
  assert (H1 : inject_Z 1 <= inject_Z span)
    by (rewrite <- Zle_Qle; exact Hspan).
  change (inject_Z 1) with 1 in H1.
  apply ewm_from_in_range; try assumption; unfold ewm_alpha.
  - apply Qle_shift_div_l; lra.
  - apply Qle_shift_div_r; lra.
Qed.

Lemma closes_in_range (lo hi : Q) (df : list Candle) :
  Forall (close_within lo hi) df ->
  Forall (in_range lo hi) (column k_close df).
Proof.
  unfold column. induction 1 as [|k df Hk _ IH]; simpl; constructor;
    [exact Hk|exact IH].
Qed.

(** X12.  The three exponential moving averages stay within the closes:
    if every close of the series lies in [lo, hi], then on every row of
    the enriched frame [ema20], [ema50] and [ema200] are finite and lie in
    [lo, hi] (each is a convex combination of the closes so far), and on
    the first row all three equal the close. *)
Theorem ema_within_closes (lo hi : Q) (df : list Candle) (t : nat) (row : Row) :
  Forall (close_within lo hi) df ->
  calculate_indicators df !! t = Some row ->
  in_range lo hi (ema20 row) /\ in_range lo hi (ema50 row) /\
  in_range lo hi (ema200 row) /\
  (t = 0%nat ->
   ema20 row = close row /\ ema50 row = close row /\ ema200 row = close row).
Proof.
  intros Hdf Hrow.
  destruct (calculate_indicators_lookup df t row Hrow) as [Ht [k Hk]].
  destruct (calculate_indicators_row df t k Hk) as (row1 & Hrow1 & Hclose & _).
  destruct (calculate_indicators_row_columns df t k Hk)
    as (row' & Hrow' & _ & (H20 & H50 & H200) & _).
  rewrite Hrow in Hrow', Hrow1. injection Hrow' as <-. injection Hrow1 as <-.
  assert (Hin : forall span, (1 <= span)%Z ->
             in_range lo hi (at_row (ewm_mean span (column k_close df)) t)).
  { intros span Hspan.
    pose proof (ewm_mean_in_range lo hi span _ Hspan
                  (closes_in_range lo hi df Hdf)) as Hall.
    destruct (lookup_lt_is_Some_2 (ewm_mean span (column k_close df)) t)
      as [x Hx]; [rewrite ewm_mean_length, column_length; exact Ht|].
    rewrite (at_row_lookup _ _ _ Hx).
    rewrite Forall_lookup in Hall. exact (Hall _ _ Hx). }
  rewrite H20, H50, H200.
  split; [apply Hin; lia|]. split; [apply Hin; lia|].
  split; [apply Hin; lia|].
  intros ->. rewrite Hclose.
  destruct df as [|k0 df]; [discriminate|]. injection Hk as ->.
  repeat split.
Qed.

Lemma ema_within_closes_witness :
  exists row,
    in_range 92 100 (ema20 row) /\ in_range 92 100 (ema50 row) /\
    in_range 92 100 (ema200 row) /\
    (49%nat = 0%nat ->
     ema20 row = close row /\ ema50 row = close row /\ ema200 row = close row).
Proof.
  eexists. apply (ema_within_closes 92 100 falling_after_flat 49).
  - apply Forall_lookup. intros i k Hi. unfold falling_after_flat in Hi.
    unfold candles_of_closes in Hi. rewrite list_lookup_imap in Hi.
    destruct (_ !! i) as [c|] eqn:Hc; [|discriminate].
    injection Hi as <-. unfold close_within. simpl.
    apply list_elem_of_lookup_2 in Hc.
    apply elem_of_app in Hc as [Hc|Hc].
    + apply elem_of_replicate in Hc as [-> _]. lra.
    + repeat (apply elem_of_cons in Hc as [->|Hc]; [lra|]).
      apply elem_of_nil in Hc. destruct Hc.
  - vm_compute. reflexivity.
Defined.

(** ** The breakout rule *)

Lemma calculate_indicators_high df :
  map high (calculate_indicators df) = column k_high df.
Proof.
  unfold calculate_indicators, column.
  change (@map Row fnum high) with (@fmap list _ Row fnum high).
  rewrite fmap_imap. apply imap_const.
Qed.

Lemma iloc_slice_previous_20 {A} (s : list A) :
  (21 <= length s)%nat ->
  iloc_slice s (-21) (-1) = take 20 (drop (length s - 21) s).
Proof.
  intros H. unfold iloc_slice, slice_bound.
  change (-21 <? 0)%Z with true. change (-1 <? 0)%Z with true. cbv iota.
  rewrite !Z.min_r, !Z.max_r by lia.
  replace (-1 + Z.of_nat (length s) - (-21 + Z.of_nat (length s)))%Z
    with 20%Z by lia.
  replace (Z.to_nat (-21 + Z.of_nat (length s))) with (length s - 21)%nat
    by lia.
  reflexivity.
Qed.

Lemma filter_fin (w : list fnum) :
  Forall is_fin w -> filter (fun x => is_nan x = false) w = w.
Proof.
  induction 1 as [|x w Hx _ IH]; [reflexivity|].
  rewrite filter_cons_True by (destruct x; [reflexivity|destruct Hx..]).
  rewrite IH. reflexivity.
Qed.

Lemma series_max_fin (w : list fnum) :
  Forall is_fin w -> (0 < length w)%nat ->
  exists M, series_max w = Fin M /\ forall q, Fin q ∈ w -> q <= M.
Proof.
  intros Hw Hlen. unfold series_max. rewrite filter_fin by exact Hw.
  destruct Hw as [|x w Hx Hw]; [simpl in Hlen; lia|].
  destruct x as [a| | |]; try (destruct Hx; fail).
  destruct (foldl_fmax2_fin a w Hw) as (M & HM & Ha & Hall).
  exists M. split; [exact HM|].
  intros q Hq. apply elem_of_cons in Hq as [[= ->]|Hq]; [exact Ha|auto].
Qed.

(** X13.  The breakout rule of [xrp_adx_signal].  Whenever the evaluator
    reports entry on an enriched frame, the frame has at least 50 rows,
    the exit signal is False, the latest ADX is above 25 and above the
    ADX three rows earlier, and the latest close is strictly above the
    high of every one of the 20 candles before the latest one (the latest
    candle's own high is not part of the comparison). *)
Theorem xrp_entry_is_breakout (cs : list Candle) (x : bool) :
  xrp_adx_signal (calculate_indicators cs) = Some (true, x) ->
  x = false /\ (50 <= length cs)%nat /\
  exists k latest prev_3,
    last cs = Some k /\
    iloc (calculate_indicators cs) (-1) = Some latest /\
    iloc (calculate_indicators cs) (-4) = Some prev_3 /\
    (adx latest >? Fin 25)%F = true /\
    (adx latest >? adx prev_3)%F = true /\
    forall i k',
      (length cs - 21 <= i < length cs - 1)%nat ->
      cs !! i = Some k' -> k_high k' < k_close k.
Proof.
  intros H.
  assert (Hlen : (50 <= length cs)%nat).
  { destruct (Nat.lt_ge_cases (length cs) 50) as [Hs|Hl]; [|exact Hl].
    unfold xrp_adx_signal in H.
    rewrite short_frame in H
      by (rewrite calculate_indicators_length; exact Hs).
    discriminate. }
  destruct (calculate_indicators_latest cs Hlen)
    as (k & latest & Hk & Hlatest & Hrow).
  assert (Hlen' : (50 <= length (calculate_indicators cs))%nat)
    by (rewrite calculate_indicators_length; exact Hlen).
  destruct (rows_available _ Hlen') as (r1 & _ & prev_3 & _ & H1 & _ & H4 & _).
  rewrite Hlatest in H1. injection H1 as <-.
  rewrite (xrp_adx_signal_rows _ latest prev_3 Hlen' Hlatest H4) in H.
  injection H as He Hx.
  apply andb_true_iff in He as [He Hbreak].
  apply andb_true_iff in He as [H25 Hrise].
  change ((adx latest >? Fin 25)%F = true) in H25.
  change ((adx latest >? adx prev_3)%F = true) in Hrise.
  change ((close latest
           >? series_max
                (iloc_slice (map high (calculate_indicators cs)) (-21) (-1)))%F
          = true) in Hbreak.
  split.
  { rewrite <- Hx.
    pose proof (flt_fgt_exclusive 20 25 (adx latest) ltac:(lra)) as Hex.
    rewrite H25, andb_true_r in Hex. exact Hex. }
  split; [exact Hlen|].
  exists k, latest, prev_3.
  split; [rewrite last_lookup; replace (pred (length cs)) with (length cs - 1)%nat by lia; exact Hk|].
  split; [exact Hlatest|]. split; [exact H4|].
  split; [exact H25|]. split; [exact Hrise|].
  intros i k' Hi Hk'.
  destruct (calculate_indicators_row cs _ k Hk) as (row & Hrow' & Hclose & _).
  rewrite Hrow in Hrow'. injection Hrow' as <-.
  rewrite Hclose, calculate_indicators_high in Hbreak.
  rewrite iloc_slice_previous_20 in Hbreak by (rewrite column_length; lia).
  rewrite column_length in Hbreak.
  destruct (series_max_fin (take 20 (drop (length cs - 21) (column k_high cs))))
    as (M & HM & Hall).
  { apply Forall_take, Forall_drop, column_is_fin. }
  { rewrite length_take, length_drop, column_length. lia. }
  rewrite HM in Hbreak. apply flt_Fin in Hbreak.
  assert (k_high k' <= M); [|lra].
  apply Hall. apply (list_elem_of_lookup_2 _ (i - (length cs - 21))).
  rewrite lookup_take_lt by lia. rewrite lookup_drop.
  replace (length cs - 21 + (i - (length cs - 21)))%nat with i by lia.
  apply column_lookup, Hk'.
Qed.

Lemma xrp_entry_is_breakout_witness :
  false = false /\ (50 <= length zigzag_then_rally)%nat /\
  exists k latest prev_3,
    last zigzag_then_rally = Some k /\
    iloc (calculate_indicators zigzag_then_rally) (-1) = Some latest /\
    iloc (calculate_indicators zigzag_then_rally) (-4) = Some prev_3 /\
    (adx latest >? Fin 25)%F = true /\
    (adx latest >? adx prev_3)%F = true /\
    forall i k',
      (length zigzag_then_rally - 21 <= i < length zigzag_then_rally - 1)%nat ->
      zigzag_then_rally !! i = Some k' -> k_high k' < k_close k.
Proof.
  apply (xrp_entry_is_breakout zigzag_then_rally false).
  vm_compute. reflexivity.
Defined.

(** ** [print_summary] *)

Lemma fnat_le (a b : nat) :
  (a <= b)%nat -> inject_Z (Z.of_nat a) <= inject_Z (Z.of_nat b).
Proof. intros H. rewrite <- Zle_Qle. lia. Qed.

(** X14.  The win rate printed by [print_summary] is always a finite
    percentage: the number of wins never exceeds the number of trades,
    [win_rate] lies in [0, 100] for every bot state, it is 0 when there is
    no trade yet (no division by zero), and otherwise it is the share of
    trades with a positive [pnl_usd]: win_rate * trades = 100 * wins. *)
Theorem win_rate_is_percentage (s : BotState) :
  let r := print_summary s in
  (wins r <= total_trades r)%nat /\
  in_range 0 100 (win_rate r) /\
  exists w,
    win_rate r = Fin w /\
    w * inject_Z (Z.of_nat (total_trades r))
    == 100 * inject_Z (Z.of_nat (wins r)) /\
    (total_trades r = 0%nat -> w == 0).
Proof.
  cbv zeta. unfold print_summary.
  cbn [wins total_trades win_rate].
  pose proof (List.filter_length_le
                (fun t => (Trade.pnl_usd t >? Fin 0)%F) (trades s)) as Hle.
  revert Hle.
  generalize (length (List.filter (fun t => (Trade.pnl_usd t >? Fin 0)%F)
                        (trades s))) as won.
  intros won Hle. split; [exact Hle|].
  destruct (trades s) as [|t ts].
  - simpl in Hle. assert (won = 0%nat) as -> by lia.
    split; [cbn; lra|]. exists 0. split; [reflexivity|].
    split; reflexivity.
  - unfold fnat. rewrite fdiv_Fin.
    2:{ intros E. pose proof (positive_length_ne0 (length (t :: ts))) as Hn.
        apply Qeq_bool_iff in E. rewrite Hn in E; [discriminate|simpl; lia]. }
    cbn [fmul].
    assert (Hn : 0 < inject_Z (Z.of_nat (length (t :: ts)))).
    { unfold Qlt. simpl. lia. }
    pose proof (fnat_le _ _ Hle) as Hq.
    assert (H0 : 0 <= inject_Z (Z.of_nat won)).
    { change 0 with (inject_Z (Z.of_nat 0)). apply fnat_le. lia. }
    revert Hn Hq H0.
    generalize (inject_Z (Z.of_nat (length (t :: ts)))) as n,
               (inject_Z (Z.of_nat won)) as w.
    intros n w Hn Hq H0.
    assert (Hd : 0 <= w / n /\ w / n <= 1).
    { split; [apply Qle_shift_div_l|apply Qle_shift_div_r]; lra. }
    split; [cbn [in_range]; lra|].
    exists (w / n * 100). split; [reflexivity|].
    split; [field; lra|]. discriminate.
Qed.

Lemma fsub_initial (i : Q) (a c : fnum) :
  feqv c (Fin i + a)%F -> feqv (c - Fin i)%F a.
Proof.
  destruct a as [x| | |], c as [y| | |]; simpl; try tauto.
  intros H. rewrite H. ring.
Qed.

(** X15.  The total P&L printed by [print_summary] agrees with the trade
    log: on every state a bot can reach from its initial one (by
    [run_strategy] ticks or direct calls of its methods),
    [capital - initial_capital] equals the sum of [pnl_usd] over
    [self.trades], the initial capital is still 10000, and the total
    return is that P&L divided by 10000, times 100. *)
Theorem summary_total_pnl (s : BotState) :
  rtc sim_call init s \/ rtc live_call init s ->
  let r := print_summary s in
  feqv (total_pnl r) (fsum (map Trade.pnl_usd (trades s))) /\
  total_return r = (total_pnl r / Fin 10000 * Fin 100)%F /\
  total_trades r = length (trades s).
Proof.
  intros Hrun. cbv zeta.
  assert (ledger_ok s /\ initial_capital s = Fin CONFIG_initial_capital)
    as [Hok Hini].
  { destruct Hrun as [H|H];
      [apply (rtc_ledger_ok sim_call)|apply (rtc_ledger_ok live_call)];
      auto using sim_call_ledger, live_call_ledger. }
  unfold print_summary. cbn [total_pnl total_return total_trades].
  rewrite Hini. split; [|split; reflexivity].
  apply fsub_initial. unfold ledger_ok in Hok. rewrite Hok, Hini.
  apply foldl_fadd_sum.
Qed.

Lemma summary_total_pnl_witness :
  let r := print_summary sim_ada_closed in
  feqv (total_pnl r) (fsum (map Trade.pnl_usd (trades sim_ada_closed))) /\
  total_return r = (total_pnl r / Fin 10000 * Fin 100)%F /\
  total_trades r = length (trades sim_ada_closed).
Proof.
  apply (summary_total_pnl sim_ada_closed).
  left. unfold sim_ada_closed, sim_ada_open.
  eapply rtc_l; [apply sim_call_open|].
  eapply rtc_l; [apply sim_call_close|apply rtc_refl].
Defined.

(** ** A round trip *)

Lemma fadd_Fin (a b : Q) : (Fin a + Fin b)%F = Fin (a + b).
Proof. reflexivity. Qed.

Lemma fsub_Fin (a b : Q) : (Fin a - Fin b)%F = Fin (a - b).
Proof. reflexivity. Qed.

Lemma fmul_Fin (a b : Q) : (Fin a * Fin b)%F = Fin (a * b).
Proof. reflexivity. Qed.

Ltac fin_arith :=
  repeat first [rewrite fmul_Fin | rewrite fadd_Fin | rewrite fsub_Fin
               | rewrite fdiv_Fin by lra].

(** X16.  A round trip through the simulation bot at a quote that has
    not risen always loses.  For a configured strategy, a positive
    capital and a positive quote p: [open_position] at p followed by
    [close_position] at any quote q <= p succeeds, removes the position,
    appends one trade whose [pnl_pct] and [pnl_usd] are both strictly
    negative (slippage on both fills, fees on both sides), and leaves the
    capital strictly below what it was. *)
Theorem sim_round_trip_loses s name config (c p q : Q) reason t0 t1 :
  In (name, config) CONFIG_strategies ->
  capital s = Fin c -> 0 < c -> 0 < p -> q <= p ->
  let s1 := fst (SimulationTradingBot.open_position s name config (Fin p) t0) in
  exists s2 trade x,
    SimulationTradingBot.close_position s1 name (Fin q) reason t1 = (s2, true) /\
    trades s2 = trades s ++ [trade] /\
    positions s2 !! name = None /\
    is_loss (Trade.pnl_pct trade) /\ is_loss (Trade.pnl_usd trade) /\
    capital s2 = Fin x /\ x < c.
Proof.
  intros Hin Hcap Hc Hp Hq. cbv zeta.
  destruct (configured_strategy name config Hin) as (_ & Hcfg & _).
  destruct (configured_positive name config Hin)
    as (Hl & Hps & Hpl & Hsl0 & Htp0).
  unfold SimulationTradingBot.open_position, SimulationTradingBot.close_position.
  cbn [fst positions set_positions capital].
  rewrite lookup_insert_eq, Hcfg.
  cbn [Position.entry_fee Position.entry_price Position.leverage
       Position.symbol Position.entry_time].
  rewrite Hcap.
  unfold SimulationTradingBot.simulate_exit_price,
    SimulationTradingBot.simulate_entry_price,
    SimulationTradingBot.CONFIG_slippage, SimulationTradingBot.CONFIG_fees.
  fin_arith.
  assert (Hd : (q - q * 0.001 - (p + p * 0.001)) / (p + p * 0.001) < 0).
  { apply Qlt_shift_div_r; lra. }
  revert Hd.
  generalize ((q - q * 0.001 - (p + p * 0.001)) / (p + p * 0.001)) as d.
  intros d Hd. revert Hl Hps.
  generalize (StrategyConfig.leverage config) as lev,
             (StrategyConfig.position_size config) as ps.
  intros lev ps Hl Hps.
  assert (Hdl : d * lev < 0) by nra.
  assert (Hcp : 0 < c * ps) by nra.
  assert (Hx : c * ps * (d * lev) < 0) by nra.
  eexists _, _, _. split; [reflexivity|].
  cbn [trades positions capital Trade.pnl_pct Trade.pnl_usd].
  split; [reflexivity|]. split; [apply lookup_delete_eq|].
  split; [eexists; split; [reflexivity|nra]|].
  split; [eexists; split; [reflexivity|nra]|].
  split; [reflexivity|]. nra.
Qed.

Lemma sim_round_trip_loses_witness :
  exists s2 trade x,
    SimulationTradingBot.close_position
      (fst (SimulationTradingBot.open_position init "ADA_RSI" ADA_RSI_config
              (Fin 1) 0))
      "ADA_RSI" (Fin 1) "strategy_signal" 1 = (s2, true) /\
    trades s2 = trades init ++ [trade] /\
    positions s2 !! "ADA_RSI" = None /\
    is_loss (Trade.pnl_pct trade) /\ is_loss (Trade.pnl_usd trade) /\
    capital s2 = Fin x /\ x < 10000.
Proof.
  apply (sim_round_trip_loses init "ADA_RSI" ADA_RSI_config 10000 1 1
           "strategy_signal" 0%Z 1%Z).
  - left. reflexivity.
  - reflexivity.
  - reflexivity.
  - reflexivity.
  - discriminate.
Defined.

(** X17.  A round trip through the order-placing bot, when the exchange
    fills both orders: for a configured strategy and positive quotes,
    [open_position] at p followed by [close_position] at q succeeds,
    removes the position and appends one trade; the capital c becomes
    c * (1 + position_size * leverage * (q - p) / p), so it is unchanged
    when q = p, and the recorded [pnl_pct] is leverage * (q - p) / p * 100. *)
Theorem live_round_trip s name config (c p q : Q) reason t0 t1 ex :
  In (name, config) CONFIG_strategies ->
  capital s = Fin c -> 0 < p ->
  (forall symbol amount, create_market_buy_order ex symbol amount = true) ->
  (forall symbol amount, create_market_sell_order ex symbol amount = true) ->
  let s1 := fst (TradingBot.open_position ex s name config (Fin p) t0) in
  let ps := StrategyConfig.position_size config in
  let lev := StrategyConfig.leverage config in
  exists s2 trade x y,
    TradingBot.close_position ex s1 name (Fin q) reason t1 = (s2, true) /\
    trades s2 = trades s ++ [trade] /\
    positions s2 !! name = None /\
    Trade.pnl_pct trade = Fin y /\ y == lev * (q - p) / p * 100 /\
    capital s2 = Fin x /\ x == c * (1 + ps * lev * (q - p) / p) /\
    (q == p -> x == c).
Proof.
  intros Hin Hcap Hp Hbuy Hsell. cbv zeta.
  destruct (configured_strategy name config Hin) as (_ & Hcfg & _).
  unfold TradingBot.open_position, TradingBot.close_position.
  rewrite Hbuy. cbn [negb fst positions set_positions capital].
  rewrite lookup_insert_eq, Hsell, Hcfg.
  cbn [negb Position.entry_price Position.leverage Position.symbol
       Position.entry_time Position.amount].
  rewrite Hcap. fin_arith.
  eexists _, _, _, _. split; [reflexivity|].
  cbn [trades positions capital Trade.pnl_pct Trade.pnl_usd].
  split; [reflexivity|]. split; [apply lookup_delete_eq|].
  split; [reflexivity|]. split; [field; lra|].
  split; [reflexivity|]. split; [field; lra|].
  intros E. rewrite E. field. lra.
Qed.

Lemma live_round_trip_witness :
  exists s2 trade x y,
    TradingBot.close_position filling_exchange
      (fst (TradingBot.open_position filling_exchange init "XRP_ADX"
              XRP_ADX_config (Fin 2) 0))
      "XRP_ADX" (Fin 3) "take_profit" 1 = (s2, true) /\
    trades s2 = trades init ++ [trade] /\
    positions s2 !! "XRP_ADX" = None /\
    Trade.pnl_pct trade = Fin y /\ y == 2.5 * (3 - 2) / 2 * 100 /\
    capital s2 = Fin x /\ x == 10000 * (1 + 0.30 * 2.5 * (3 - 2) / 2) /\
    (3 == 2 -> x == 10000).
Proof.
  apply (live_round_trip init "XRP_ADX" XRP_ADX_config 10000 2 3 "take_profit"
           0%Z 1%Z filling_exchange).
  - right. right. left. reflexivity.
  - reflexivity.
  - reflexivity.
  - reflexivity.
  - reflexivity.
Defined.

(** ** Undefined indicators *)

(** X18.  An undefined indicator never trades.  On any frame, if the
    latest row's RSI is NaN the oversold-reversal evaluator returns
    (False, False); if its %K is NaN so does the stochastic evaluator;
    if its ADX is NaN so does the breakout evaluator: every comparison
    with NaN is false, so neither an entry nor an exit is signalled, and
    nothing raises. *)
Theorem undefined_indicator_gives_no_signal (df : DataFrame) (latest : Row) :
  iloc df (-1) = Some latest ->
  (rsi latest = NaN -> ada_rsi_signal df = Some (false, false)) /\
  (stoch_k latest = NaN -> sol_stoch_signal df = Some (false, false)) /\
  (adx latest = NaN -> xrp_adx_signal df = Some (false, false)).
Proof.
  intros Hlatest.
  destruct (Nat.lt_ge_cases (length df) 50) as [Hs|Hl].
  - unfold ada_rsi_signal, sol_stoch_signal, xrp_adx_signal.
    rewrite short_frame by exact Hs. auto.
  - destruct (rows_available df Hl) as (r1 & r2 & r4 & r10 & H1 & H2 & H4 & H10).
    rewrite Hlatest in H1. injection H1 as <-.
    rewrite (ada_rsi_signal_rows df latest r2 r10) by assumption.
    rewrite (sol_stoch_signal_rows df latest r2) by assumption.
    rewrite (xrp_adx_signal_rows df latest r4) by assumption.
    unfold fgt. repeat split; intros ->; reflexivity.
Qed.

Lemma undefined_indicator_gives_no_signal_witness :
  ada_rsi_signal (calculate_indicators frozen_market) = Some (false, false) /\
  sol_stoch_signal (calculate_indicators frozen_market) = Some (false, false) /\
  xrp_adx_signal (calculate_indicators frozen_market) = Some (false, false).
Proof.
  assert (H : exists latest,
             iloc (calculate_indicators frozen_market) (-1) = Some latest /\
             rsi latest = NaN /\ stoch_k latest = NaN /\ adx latest = NaN).
  { eexists. split; [vm_compute; reflexivity|]. repeat split. }
  destruct H as (latest & Hl & H1 & H2 & H3).
  destruct (undefined_indicator_gives_no_signal _ latest Hl) as (A & B & C).
  auto.
Defined.

(** ** The exit check, twice *)

Lemma fmax2_idem (h p : fnum) : fmax2 (fmax2 h p) p = fmax2 h p.
Proof.
  unfold fmax2. destruct (h <? p)%F eqn:E.
  - rewrite flt_irrefl. reflexivity.
  - rewrite E. reflexivity.
Qed.

(** X19.  [check_position_exits] is idempotent and touches one field.
    When it returns (a position is open for the strategy), a second call
    with the same quote returns the same verdict and leaves the bot as
    the first call left it; the call changes neither the capital, nor the
    trade log, nor the position of any other strategy.  Same method in
    both bots. *)
Theorem check_position_exits_idempotent s name config price s1 r :
  check_position_exits s name config price = Some (s1, r) ->
  check_position_exits s1 name config price = Some (s1, r) /\
  capital s1 = capital s /\ trades s1 = trades s /\
  forall k, k <> name -> positions s1 !! k = positions s !! k.
Proof.
  intros Hc.
  destruct (check_position_exits_state _ _ _ _ _ _ Hc) as (pos & Hpos & Hs1).
  destruct (check_position_exits_verdict s name config price pos Hpos)
    as (sa & pa & Hca & _).
  rewrite Hc in Hca. injection Hca as _ Hr.
  set (pos' := Position.set_highest_price pos
                 (fmax2 (Position.highest_price pos) price)) in *.
  assert (Hpos1 : positions s1 !! name = Some pos').
  { rewrite Hs1. apply lookup_insert_eq. }
  destruct (check_position_exits_verdict s1 name config price pos' Hpos1)
    as (sb & pb & Hcb & _).
  destruct (check_position_exits_state _ _ _ _ _ _ Hcb) as (pos2 & Hpos2 & Hsb).
  rewrite Hpos1 in Hpos2. injection Hpos2 as <-.
  assert (Hsame : Position.set_highest_price pos'
                    (fmax2 (Position.highest_price pos') price) = pos').
  { unfold pos'. cbn [Position.set_highest_price Position.highest_price
                      Position.symbol Position.entry_price Position.amount
                      Position.leverage Position.stop_loss
                      Position.take_profit Position.entry_time
                      Position.entry_fee].
    rewrite fmax2_idem. reflexivity. }
  assert (Hexit : position_exit_reason pos' config price false
                  = position_exit_reason pos config price false).
  { unfold position_exit_reason, pos'.
    cbn [Position.set_highest_price Position.highest_price
         Position.stop_loss Position.take_profit].
    rewrite fmax2_idem. reflexivity. }
  split.
  - rewrite Hcb, Hsb, Hsame, Hexit, Hr.
    rewrite (insert_id _ _ _ Hpos1). destruct s1; reflexivity.
  - rewrite Hs1. cbn [capital trades positions set_positions].
    repeat split. intros k Hk. apply lookup_insert_ne. congruence.
Qed.

Lemma check_position_exits_idempotent_witness :
  exists s1 r,
    check_position_exits sim_ada_open "ADA_RSI" ADA_RSI_config (Fin 1)
      = Some (s1, r) /\
    check_position_exits s1 "ADA_RSI" ADA_RSI_config (Fin 1) = Some (s1, r) /\
    capital s1 = capital sim_ada_open /\ trades s1 = trades sim_ada_open /\
    forall k, k <> "ADA_RSI" ->
              positions s1 !! k = positions sim_ada_open !! k.
Proof.
  eexists _, _. split; [vm_compute; reflexivity|].
  apply (check_position_exits_idempotent sim_ada_open "ADA_RSI"
           ADA_RSI_config (Fin 1)).
  vm_compute. reflexivity.
Defined.

(** * The position lifecycle, tick by tick *)

(** ** Exit priority *)

(** On 49 candles the last of which falls to 50, far below the stop level
    92.092 of the open ADA_RSI position, the specification's order of
    conditions gives "stop_loss" whatever the strategy's exit signal; yet
    [run_strategy] returns before any exit check, and the position stays
    open, with no trade recorded.  With one quiet candle more in front,
    the same fall closes the position for "stop_loss". *)
Lemma stop_loss_skipped_on_short_frame :
  exists pos k,
    positions sim_ada_open_100 !! "ADA_RSI" = Some pos /\
    length short_crash = 49%nat /\ last short_crash = Some k /\
    (Fin (k_close k) <=? Position.stop_loss pos)%F = true /\
    (forall strategy_exit,
       position_exit_reason pos ADA_RSI_config (Fin (k_close k)) strategy_exit
       = Some "stop_loss") /\
    SimulationTradingBot.run_strategy sim_ada_open_100 "ADA_RSI"
      ADA_RSI_config (Some short_crash) 5 = Some sim_ada_open_100 /\
    (forall ex,
       TradingBot.run_strategy ex sim_ada_open_100 "ADA_RSI"
         ADA_RSI_config (Some short_crash) 5 = Some sim_ada_open_100) /\
    exists s',
      SimulationTradingBot.run_strategy sim_ada_open_100 "ADA_RSI"
        ADA_RSI_config (Some long_crash) 5 = Some s' /\
      positions s' !! "ADA_RSI" = None /\
      map Trade.reason (trades s') = ["stop_loss"].
Proof.
  eexists _, _. split; [vm_compute; reflexivity|].
  split; [reflexivity|]. split; [reflexivity|].
  split; [reflexivity|].
  split; [intros x; apply stop_loss_first; reflexivity|].
  split; [vm_compute; reflexivity|].
  split; [intros ex; apply live_run_strategy_skipped; right; right;
          eexists; split; [reflexivity|vm_compute; lia]|].
  eexists. split; [vm_compute; reflexivity|]. split; reflexivity.
Qed.

(** C2 (amended).  A simulation tick on an open position of a configured
    strategy that receives at least 50 candles decides the exit in the
    order stop-loss, take-profit, trailing-stop, strategy signal: the
    tick closes the position with the reason of the first condition that
    holds (so with "stop_loss" when the price is at or below the stop
    level, whatever the strategy's exit signal says), and when none holds
    the position stays open and no trade is recorded.  A tick that
    receives fewer than 50 candles, or none because the request failed,
    evaluates no exit condition: the bot is left as it was, position
    open. *)
Theorem exit_priority_order s name config df now pos :
  rtc sim_call init s ->
  In (name, config) CONFIG_strategies ->
  positions s !! name = Some pos ->
  ((length df < 50)%nat ->
   SimulationTradingBot.run_strategy s name config (Some df) now = Some s) /\
  SimulationTradingBot.run_strategy s name config None now = Some s /\
  (forall k,
     (50 <= length df)%nat -> last df = Some k ->
     exists f entry exit_signal s',
       STRATEGY_FUNCTIONS name = Some f /\
       f (calculate_indicators df) = Some (entry, exit_signal) /\
       SimulationTradingBot.run_strategy s name config (Some df) now
         = Some s' /\
       ((Fin (k_close k) <=? Position.stop_loss pos)%F = true ->
        position_exit_reason pos config (Fin (k_close k)) exit_signal
          = Some "stop_loss") /\
       match position_exit_reason pos config (Fin (k_close k)) exit_signal with
       | Some reason =>
           positions s' !! name = None /\
           exists trade,
             trades s' = trades s ++ [trade] /\
             Trade.strategy trade = name /\ Trade.reason trade = reason
       | None =>
           is_Some (positions s' !! name) /\
           trades s' = trades s /\ capital s' = capital s
       end).
Proof.
  intros Hreach Hin Hp. split; [|split].
  - intros Hlen. apply sim_run_strategy_skipped. right. right. eauto.
  - apply sim_run_strategy_skipped. right. left. reflexivity.
  - intros k Hlen Hlast.
    apply sim_tick_on_open_position; try assumption.
    exact (sim_reachable_fee s Hreach name pos Hp).
Qed.

Lemma exit_priority_order_witness :
  exists pos k f entry exit_signal s',
    STRATEGY_FUNCTIONS "ADA_RSI" = Some f /\
    f (calculate_indicators falling_after_flat) = Some (entry, exit_signal) /\
    SimulationTradingBot.run_strategy sim_ada_open "ADA_RSI" ADA_RSI_config
      (Some falling_after_flat) 5 = Some s' /\
    ((Fin (k_close k) <=? Position.stop_loss pos)%F = true ->
     position_exit_reason pos ADA_RSI_config (Fin (k_close k)) exit_signal
       = Some "stop_loss") /\
    match position_exit_reason pos ADA_RSI_config (Fin (k_close k))
            exit_signal with
    | Some reason =>
        positions s' !! "ADA_RSI" = None /\
        exists trade,
          trades s' = trades sim_ada_open ++ [trade] /\
          Trade.strategy trade = "ADA_RSI" /\ Trade.reason trade = reason
    | None =>
        is_Some (positions s' !! "ADA_RSI") /\
        trades s' = trades sim_ada_open /\ capital s' = capital sim_ada_open
    end.
Proof.
  eexists _, _.
  eapply (fun pos H1 H2 H3 =>
            proj2 (proj2 (exit_priority_order sim_ada_open "ADA_RSI"
                            ADA_RSI_config falling_after_flat 5 pos
                            H1 H2 H3))).
  - unfold sim_ada_open. eapply rtc_l; [apply sim_call_open|apply rtc_refl].
  - left. reflexivity.
  - vm_compute. reflexivity.
  - vm_compute. lia.
  - vm_compute. reflexivity.
Defined.

(** ** Booking a close *)

Lemma insert_keeps_positions s name (pos : Position.t) k :
  is_Some (positions s !! k) ->
  is_Some (positions (set_positions s (<[name := pos]> (positions s))) !! k).
Proof.
  intros H. simpl. apply lookup_insert_is_Some.
  destruct (decide (name = k)); auto.
Qed.

Lemma opened_by_booking Q s name s' :
  opened_by Q s name s' -> booking_step s s'.
Proof.
  intros (position & _ & ->). split; [reflexivity|]. left.
  split; [reflexivity|]. split; [reflexivity|].
  intros k. apply insert_keeps_positions.
Qed.

Lemma check_booking s name config price s' r :
  check_position_exits s name config price = Some (s', r) ->
  booking_step s s'.
Proof.
  intros Hc.
  destruct (check_position_exits_state _ _ _ _ _ _ Hc) as (p & _ & ->).
  split; [reflexivity|]. left. split; [reflexivity|]. split; [reflexivity|].
  intros k. apply insert_keeps_positions.
Qed.

Lemma closed_by_booking s name reason trade s' :
  is_Some (positions s !! name) ->
  closed_by s name reason trade s' -> booking_step s s'.
Proof.
  intros Hp Hcl.
  destruct (closed_by_facts _ _ _ _ _ Hcl) as (Hn & Ho & Htr & Hs & _).
  destruct Hcl as (-> & _). split; [reflexivity|]. right.
  exists name, trade. repeat split; assumption.
Qed.

Lemma tick_outcome_booking Q name s s' :
  tick_outcome Q name s s' -> booking_step s s'.
Proof.
  intros [->|Hnone Hop|config price r Hc
          |config price r s1 reason trade Hc Hcl].
  - split; [reflexivity|]. left. auto.
  - eapply opened_by_booking, Hop.
  - eapply check_booking, Hc.
  - destruct (check_position_exits_state _ _ _ _ _ _ Hc) as (p & Hp & Hs1).
    destruct (closed_by_facts _ _ _ _ _ Hcl) as (Hn & Ho & Htr & Hs & _).
    destruct Hcl as (Hs' & _).
    split; [rewrite Hs', Hs1; reflexivity|]. right.
    exists name, trade.
    split; [eauto|]. split; [exact Hn|].
    split.
    { intros k Hk. rewrite (Ho k Hk), Hs1. simpl.
      apply lookup_insert_ne. congruence. }
    split; [rewrite Htr, Hs1; reflexivity|].
    split; [exact Hs|]. rewrite Hs', Hs1. reflexivity.
Qed.

Lemma sim_call_booking s s' : sim_call s s' -> booking_step s s'.
Proof.
  intros [name config ohlcv now s1 Hrun|name config price now
          |name price reason now|name config price s1 r Hc].
  - eapply tick_outcome_booking, sim_run_strategy_outcome, Hrun.
  - eapply opened_by_booking.
    apply (sim_open_position_effect s name config price now).
  - destruct (sim_close_position_effect s name price reason now)
      as [->|(_ & Hp & trade & Ht)].
    + split; [reflexivity|]. left. auto.
    + eapply closed_by_booking; eassumption.
  - eapply check_booking, Hc.
Qed.

Lemma live_call_booking s s' : live_call s s' -> booking_step s s'.
Proof.
  intros [ex name config ohlcv now s1 Hrun|ex name config price now
          |ex name price reason now|name config price s1 r Hc].
  - eapply tick_outcome_booking, live_run_strategy_outcome, Hrun.
  - destruct (live_open_position_effect ex s name config price now)
      as [->|(_ & Hop)].
    + split; [reflexivity|]. left. auto.
    + eapply opened_by_booking, Hop.
  - destruct (live_close_position_effect ex s name price reason now)
      as [->|(_ & Hp & trade & Ht)].
    + split; [reflexivity|]. left. auto.
    + eapply closed_by_booking; eassumption.
  - eapply check_booking, Hc.
Qed.

Lemma sim_close_position_books s name price reason now pos config :
  positions s !! name = Some pos -> has_entry_fee pos ->
  assoc_lookup name CONFIG_strategies = Some config ->
  exists trade,
    SimulationTradingBot.close_position s name price reason now
    = booked s name trade /\
    Trade.strategy trade = name /\ Trade.reason trade = reason.
Proof.
  intros Hp [fee Hfee] Hcfg. unfold SimulationTradingBot.close_position.
  rewrite Hp, Hcfg, Hfee. cbv zeta.
  eexists (Trade.mk _ _ _ _ _ _ _ _ _ _).
  split; [reflexivity|]. split; reflexivity.
Qed.

Lemma live_close_position_books ex s name price reason now pos config :
  positions s !! name = Some pos ->
  create_market_sell_order ex (Position.symbol pos) (Position.amount pos)
  = true ->
  assoc_lookup name CONFIG_strategies = Some config ->
  exists trade,
    TradingBot.close_position ex s name price reason now
    = booked s name trade /\
    Trade.strategy trade = name /\ Trade.reason trade = reason.
Proof.
  intros Hp Hsell Hcfg. unfold TradingBot.close_position.
  rewrite Hp, Hsell, Hcfg. cbv zeta. cbn [negb].
  eexists (Trade.mk _ _ _ _ _ _ _ _ _ _).
  split; [reflexivity|]. split; reflexivity.
Qed.

(** C6.  The capital balance is changed once per closed trade, by that
    trade's [pnl_usd], and by nothing else.  Any call on either bot (a
    [run_strategy] tick or a direct call of [open_position],
    [close_position], [check_position_exits]) either makes no position
    disappear and leaves capital and trade log as they are, or makes
    exactly one position disappear, appends exactly one trade record, of
    that strategy, and adds that record's [pnl_usd] to the capital.  A
    [close_position] call returns False with the bot unchanged or True
    with the trade booked, and it does book: in the simulation bot for
    every open position of a configured strategy in a reachable state,
    in the order-placing bot for every open position of a configured
    strategy whose sell order the exchange accepts.  So after any run
    from the initial state, with N = [length (trades s)] closed trades,
    the capital is the initial capital with the N recorded [pnl_usd]
    added one after the other, which is the initial capital plus their
    sum. *)
Theorem capital_is_initial_plus_pnl :
  (forall s s', sim_call s s' \/ live_call s s' -> booking_step s s') /\
  (forall s name price reason now,
     let r := SimulationTradingBot.close_position s name price reason now in
     r = (s, false) \/
     exists trade, is_Some (positions s !! name) /\ r = booked s name trade /\
                   Trade.strategy trade = name) /\
  (forall ex s name price reason now,
     let r := TradingBot.close_position ex s name price reason now in
     r = (s, false) \/
     exists trade, is_Some (positions s !! name) /\ r = booked s name trade /\
                   Trade.strategy trade = name) /\
  (forall s name config pos price reason now,
     rtc sim_call init s ->
     In (name, config) CONFIG_strategies ->
     positions s !! name = Some pos ->
     exists trade,
       SimulationTradingBot.close_position s name price reason now
       = booked s name trade /\
       Trade.strategy trade = name /\ Trade.reason trade = reason) /\
  (forall ex s name config pos price reason now,
     In (name, config) CONFIG_strategies ->
     positions s !! name = Some pos ->
     create_market_sell_order ex (Position.symbol pos) (Position.amount pos)
     = true ->
     exists trade,
       TradingBot.close_position ex s name price reason now
       = booked s name trade /\
       Trade.strategy trade = name /\ Trade.reason trade = reason) /\
  (forall s, rtc sim_call init s \/ rtc live_call init s ->
     capital s = foldl fadd (Fin CONFIG_initial_capital)
                   (map Trade.pnl_usd (trades s)) /\
     feqv (capital s)
          (Fin CONFIG_initial_capital + fsum (map Trade.pnl_usd (trades s)))%F).
Proof.
  split; [|split; [|split; [|split; [|split]]]].
  - intros s s' [H|H]; [apply sim_call_booking|apply live_call_booking];
      exact H.
  - intros s name price reason now. cbv zeta.
    destruct (sim_close_position_effect s name price reason now)
      as [E|(Hb & Hp & trade & Hs' & Hst & _)]; [left; exact E|].
    right. exists trade. split; [exact Hp|]. split; [|exact Hst].
    unfold booked. rewrite <- Hs', <- Hb. apply surjective_pairing.
  - intros ex s name price reason now. cbv zeta.
    destruct (live_close_position_effect ex s name price reason now)
      as [E|(Hb & Hp & trade & Hs' & Hst & _)]; [left; exact E|].
    right. exists trade. split; [exact Hp|]. split; [|exact Hst].
    unfold booked. rewrite <- Hs', <- Hb. apply surjective_pairing.
  - intros s name config pos price reason now Hreach Hin Hp.
    destruct (configured_strategy name config Hin) as (_ & Hcfg & _).
    eapply sim_close_position_books; eauto.
    exact (sim_reachable_fee s Hreach name pos Hp).
  - intros ex s name config pos price reason now Hin Hp Hsell.
    destruct (configured_strategy name config Hin) as (_ & Hcfg & _).
    eapply live_close_position_books; eauto.
  - intros s Hrun.
    assert (ledger_ok s /\ initial_capital s = Fin CONFIG_initial_capital)
      as [Hok Hini].
    { destruct Hrun as [H|H];
        [apply (rtc_ledger_ok sim_call)|apply (rtc_ledger_ok live_call)];
        auto using sim_call_ledger, live_call_ledger. }
    unfold ledger_ok in Hok. rewrite Hini in Hok.
    split; [exact Hok|]. rewrite Hok. apply foldl_fadd_sum.
Qed.

Lemma capital_is_initial_plus_pnl_witness :
  (exists trade,
     SimulationTradingBot.close_position sim_ada_open "ADA_RSI" (Fin 1.2)
       "take_profit" 1
     = booked sim_ada_open "ADA_RSI" trade /\
     Trade.strategy trade = "ADA_RSI" /\ Trade.reason trade = "take_profit") /\
  capital sim_ada_closed
    = foldl fadd (Fin CONFIG_initial_capital)
        (map Trade.pnl_usd (trades sim_ada_closed)) /\
  feqv (capital sim_ada_closed)
       (Fin CONFIG_initial_capital
        + fsum (map Trade.pnl_usd (trades sim_ada_closed)))%F.
Proof.
  assert (Hopen : rtc sim_call init sim_ada_open).
  { unfold sim_ada_open. eapply rtc_l; [apply sim_call_open|apply rtc_refl]. }
  split.
  - eapply (proj1 (proj2 (proj2 (proj2 capital_is_initial_plus_pnl)))
              sim_ada_open "ADA_RSI" ADA_RSI_config).
    + exact Hopen.
    + left. reflexivity.
    + vm_compute. reflexivity.
  - apply (proj2 (proj2 (proj2 (proj2 (proj2 capital_is_initial_plus_pnl))))
             sim_ada_closed).
    left. unfold sim_ada_closed.
    eapply rtc_r; [exact Hopen|apply sim_call_close].
Defined.

(** ** The highest price *)

(** On 49 candles the last of which rises to 105, above the highest
    price 100.1 of the open ADA_RSI position, the tick does not set
    [highest_price] to the larger of the two: [run_strategy] returns
    before the exit check and the position is as it was. *)
Lemma highest_price_not_raised_on_short_frame :
  exists pos k,
    positions sim_ada_open_100 !! "ADA_RSI" = Some pos /\
    length short_rally = 49%nat /\ last short_rally = Some k /\
    (Position.highest_price pos <? Fin (k_close k))%F = true /\
    fmax2 (Position.highest_price pos) (Fin (k_close k)) = Fin (k_close k) /\
    Position.highest_price pos <> Fin (k_close k) /\
    SimulationTradingBot.run_strategy sim_ada_open_100 "ADA_RSI"
      ADA_RSI_config (Some short_rally) 5 = Some sim_ada_open_100 /\
    forall ex,
      TradingBot.run_strategy ex sim_ada_open_100 "ADA_RSI"
        ADA_RSI_config (Some short_rally) 5 = Some sim_ada_open_100.
Proof.
  eexists _, _. split; [vm_compute; reflexivity|].
  split; [reflexivity|]. split; [reflexivity|].
  split; [reflexivity|]. split; [reflexivity|].
  split; [discriminate|].
  split; [vm_compute; reflexivity|].
  intros ex. apply live_run_strategy_skipped. right. right.
  eexists. split; [reflexivity|vm_compute; lia].
Qed.

Lemma check_sets_highest s name config price pos :
  positions s !! name = Some pos ->
  exists s' r pos',
    check_position_exits s name config price = Some (s', r) /\
    positions s' !! name = Some pos' /\
    Position.highest_price pos'
      = fmax2 (Position.highest_price pos) price /\
    (Position.highest_price pos' <? Position.highest_price pos)%F = false.
Proof.
  intros Hp.
  destruct (proj2 (check_position_exits_is_Some s name config price))
    as [[s' r] Hc]; [eauto|].
  destruct (check_position_exits_state _ _ _ _ _ _ Hc) as (pos0 & Hp0 & Hs').
  assert (pos0 = pos) as -> by congruence.
  exists s', r. eexists. split; [exact Hc|].
  split; [rewrite Hs'; apply lookup_insert_eq|].
  split; [reflexivity|apply fmax2_not_below].
Qed.

Lemma sim_tick_sets_highest s name config df now pos k :
  In (name, config) CONFIG_strategies ->
  positions s !! name = Some pos ->
  (50 <= length df)%nat -> last df = Some k ->
  exists s',
    SimulationTradingBot.run_strategy s name config (Some df) now = Some s' /\
    forall pos',
      positions s' !! name = Some pos' ->
      Position.highest_price pos'
      = fmax2 (Position.highest_price pos) (Fin (k_close k)).
Proof.
  intros Hin Hp Hlen Hlast.
  destruct (configured_strategy name config Hin) as (Hen & _ & f & Hf & Hex).
  destruct (Hex (calculate_indicators df)) as (e & x & Hfx & _).
  destruct (check_sets_highest s name config (Fin (k_close k)) pos Hp)
    as (s1 & [b r] & pos1 & Hc & Hp1 & Hh & _).
  unfold SimulationTradingBot.run_strategy.
  rewrite Hen. cbn [negb fetch_data fmap option_fmap option_map].
  rewrite long_frame by (rewrite calculate_indicators_length; exact Hlen).
  rewrite (current_price_last df k Hlast), Hf.
  cbn [mbind option_bind]. rewrite Hp, Hc. cbn [mbind option_bind].
  rewrite Hfx. cbn [mbind option_bind].
  destruct (b || x).
  - eexists. split; [reflexivity|]. intros pos'.
    destruct (sim_close_position_effect s1 name (Fin (k_close k))
                (default "strategy_signal" r) now)
      as [->|(_ & _ & trade & Hcl)].
    + cbn [fst]. rewrite Hp1. intros [= <-]. exact Hh.
    + destruct (closed_by_facts _ _ _ _ _ Hcl) as (Hn & _).
      rewrite Hn. discriminate.
  - exists s1. split; [reflexivity|]. intros pos'.
    rewrite Hp1. intros [= <-]. exact Hh.
Qed.

Lemma live_tick_sets_highest ex s name config df now pos k :
  In (name, config) CONFIG_strategies ->
  positions s !! name = Some pos ->
  (50 <= length df)%nat -> last df = Some k ->
  exists s',
    TradingBot.run_strategy ex s name config (Some df) now = Some s' /\
    forall pos',
      positions s' !! name = Some pos' ->
      Position.highest_price pos'
      = fmax2 (Position.highest_price pos) (Fin (k_close k)).
Proof.
  intros Hin Hp Hlen Hlast.
  destruct (configured_strategy name config Hin) as (Hen & _ & f & Hf & Hex).
  destruct (Hex (calculate_indicators df)) as (e & x & Hfx & _).
  destruct (check_sets_highest s name config (Fin (k_close k)) pos Hp)
    as (s1 & [b r] & pos1 & Hc & Hp1 & Hh & _).
  unfold TradingBot.run_strategy.
  rewrite Hen. cbn [negb fetch_data fmap option_fmap option_map].
  rewrite long_frame by (rewrite calculate_indicators_length; exact Hlen).
  rewrite (current_price_last df k Hlast), Hf.
  cbn [mbind option_bind]. rewrite Hp, Hc. cbn [mbind option_bind].
  rewrite Hfx. cbn [mbind option_bind].
  destruct (b || x).
  - eexists. split; [reflexivity|]. intros pos'.
    destruct (live_close_position_effect ex s1 name (Fin (k_close k))
                (default "strategy_signal" r) now)
      as [->|(_ & _ & trade & Hcl)].
    + cbn [fst]. rewrite Hp1. intros [= <-]. exact Hh.
    + destruct (closed_by_facts _ _ _ _ _ Hcl) as (Hn & _).
      rewrite Hn. discriminate.
  - exists s1. split; [reflexivity|]. intros pos'.
    rewrite Hp1. intros [= <-]. exact Hh.
Qed.

(** C7 (amended).  For every open position [highest_price] never
    decreases from one tick to the next.  The exit check always returns
    on an open position and sets [highest_price] to the larger of its
    previous value and the current price.  A tick of either bot on an
    open position of a configured strategy that receives at least 50
    candles completes and, when the position is still open afterwards,
    has set its [highest_price] to the larger of the previous value and
    the last close.  A skipped tick (strategy disabled, request failed,
    fewer than 50 candles) leaves the position as it was.  And after any
    [run_strategy] call of either bot, for whichever strategy, a position
    that is still open has a [highest_price] that is not below the one
    before the call. *)
Theorem highest_price_monotone :
  (forall s name config price pos,
     positions s !! name = Some pos ->
     exists s' r pos',
       check_position_exits s name config price = Some (s', r) /\
       positions s' !! name = Some pos' /\
       Position.highest_price pos'
         = fmax2 (Position.highest_price pos) price /\
       (Position.highest_price pos' <? Position.highest_price pos)%F = false) /\
  (forall s name config df now pos k,
     In (name, config) CONFIG_strategies ->
     positions s !! name = Some pos ->
     (50 <= length df)%nat -> last df = Some k ->
     (exists s',
        SimulationTradingBot.run_strategy s name config (Some df) now
          = Some s' /\
        forall pos',
          positions s' !! name = Some pos' ->
          Position.highest_price pos'
          = fmax2 (Position.highest_price pos) (Fin (k_close k))) /\
     (forall ex, exists s',
        TradingBot.run_strategy ex s name config (Some df) now = Some s' /\
        forall pos',
          positions s' !! name = Some pos' ->
          Position.highest_price pos'
          = fmax2 (Position.highest_price pos) (Fin (k_close k)))) /\
  (forall s name config ohlcv now,
     tick_skipped config ohlcv ->
     SimulationTradingBot.run_strategy s name config ohlcv now = Some s /\
     forall ex, TradingBot.run_strategy ex s name config ohlcv now = Some s) /\
  (forall s name config ohlcv now s' k pos pos',
     SimulationTradingBot.run_strategy s name config ohlcv now = Some s' ->
     positions s !! k = Some pos -> positions s' !! k = Some pos' ->
     (Position.highest_price pos' <? Position.highest_price pos)%F = false /\
     (is_nan (Position.highest_price pos) = false ->
      (Position.highest_price pos <=? Position.highest_price pos')%F = true)) /\
  (forall ex s name config ohlcv now s' k pos pos',
     TradingBot.run_strategy ex s name config ohlcv now = Some s' ->
     positions s !! k = Some pos -> positions s' !! k = Some pos' ->
     (Position.highest_price pos' <? Position.highest_price pos)%F = false /\
     (is_nan (Position.highest_price pos) = false ->
      (Position.highest_price pos <=? Position.highest_price pos')%F = true)).
Proof.
  split; [|split; [|split; [|split]]].
  - intros s name config price pos. apply check_sets_highest.
  - intros s name config df now pos k Hin Hp Hlen Hlast. split.
    + eapply sim_tick_sets_highest; eassumption.
    + intros ex. eapply live_tick_sets_highest; eassumption.
  - intros s name config ohlcv now Hskip. split.
    + apply sim_run_strategy_skipped, Hskip.
    + intros ex. apply live_run_strategy_skipped, Hskip.
  - intros s name config ohlcv now s' k pos pos' Hrun.
    apply highest_kept_never_lower.
    eapply tick_outcome_highest_kept, sim_run_strategy_outcome, Hrun.
  - intros ex s name config ohlcv now s' k pos pos' Hrun.
    apply highest_kept_never_lower.
    eapply tick_outcome_highest_kept, live_run_strategy_outcome, Hrun.
Qed.

Lemma highest_price_monotone_witness :
  exists pos k,
    positions sim_ada_open_100 !! "ADA_RSI" = Some pos /\
    last choppy_rise = Some k /\
    (exists s',
       SimulationTradingBot.run_strategy sim_ada_open_100 "ADA_RSI"
         ADA_RSI_config (Some choppy_rise) 5 = Some s' /\
       forall pos',
         positions s' !! "ADA_RSI" = Some pos' ->
         Position.highest_price pos'
         = fmax2 (Position.highest_price pos) (Fin (k_close k))) /\
    (exists s' pos',
       SimulationTradingBot.run_strategy sim_ada_open_100 "ADA_RSI"
         ADA_RSI_config (Some choppy_rise) 5 = Some s' /\
       positions s' !! "ADA_RSI" = Some pos' /\
       Position.highest_price pos' = Fin 102).
Proof.
  eexists _, _. split; [vm_compute; reflexivity|].
  split; [reflexivity|]. split.
  - eapply (fun H1 H2 H3 H4 =>
              proj1 (proj1 (proj2 highest_price_monotone)
                       sim_ada_open_100 "ADA_RSI" ADA_RSI_config
                       choppy_rise 5%Z _ _ H1 H2 H3 H4)).
    + left. reflexivity.
    + vm_compute. reflexivity.
    + vm_compute. lia.
    + reflexivity.
  - eexists _, _. split; [vm_compute; reflexivity|]. split; reflexivity.
Defined.
